(** * cbc-historic: the CSV extraction engine, embedded and verified

    A shallow embedding of [src/csv_historical_results.js] (the lexer, the
    cell normalizers, the composite-header parser, the section scanner) and of
    the year reconciliation of [parseUploadedFile] in [src/main.js], with the
    helpers of [src/main.js] that work on the extracted tables (the year
    ranges, the weather join, the index range, the CSV export, the file-name
    and HTML escapes, the title suffix) and the year parser of
    [scripts/build_seed_sqlite.mjs].

    Conventions of the embedding.
    - A JavaScript string is the list of its UTF-16 code units ([jsstring]).
    - [undefined] and [null] are [None]; a cell read out of range is [None].
    - A thrown [Error] is the [Throw] constructor of [result].
    - Integers produced by [parseInt] are [Z], rounded to the nearest double
      the way the engine does; numbers produced by [parseFloat] are the exact
      rational value of the double ([Number]).
    - A field the source guards with [Number.isFinite] has the type of the
      finite values ([Z]); a field it does not guard keeps the infinities
      ([Integer], [Number]). A field that may be [null] is an [option].
    - [String.prototype.toLowerCase] is a parameter of the engine: every
      property holds for any case mapping. *)

From Stdlib Require Import String Ascii List ZArith NArith QArith Qreduction Bool Lia.
From Stdlib Require Import Arith Wellfounded Sorted.
Import ListNotations.

Local Open Scope Z_scope.

(** ** Strings *)

Definition jsstring := list N.

Fixpoint js (s : string) : jsstring :=
  match s with
  | EmptyString => []
  | String a s' => N_of_ascii a :: js s'
  end.

Definition QUOTE : N := 34.
Definition COMMA : N := 44.
Definition NL : N := 10.
Definition CR : N := 13.
Definition SPACE : N := 32.

(** WhiteSpace and LineTerminator of ECMAScript: what [trim] strips and what
    the regular-expression class [\s] matches. *)
Definition isWhiteSpace (c : N) : bool :=
  ((9 <=? c) && (c <=? 13) || (c =? 32) || (c =? 160) || (c =? 5760)
   || (8192 <=? c) && (c <=? 8202) || (c =? 8232) || (c =? 8233)
   || (c =? 8239) || (c =? 8287) || (c =? 12288) || (c =? 65279))%N.

(** [\d] without the unicode flag: ASCII digits only. *)
Definition isDigit (c : N) : bool := ((48 <=? c) && (c <=? 57))%N.

Fixpoint dropWhile {A} (p : A -> bool) (l : list A) : list A :=
  match l with
  | [] => []
  | x :: l' => if p x then dropWhile p l' else l
  end.

Fixpoint takeWhile {A} (p : A -> bool) (l : list A) : list A :=
  match l with
  | [] => []
  | x :: l' => if p x then x :: takeWhile p l' else []
  end.

Definition trimStart (s : jsstring) : jsstring := dropWhile isWhiteSpace s.
Definition trimEnd (s : jsstring) : jsstring := rev (dropWhile isWhiteSpace (rev s)).
Definition trim (s : jsstring) : jsstring := trimEnd (trimStart s).

Definition isEmpty (s : jsstring) : bool :=
  match s with [] => true | _ => false end.

Fixpoint str_eqb (a b : jsstring) : bool :=
  match a, b with
  | [], [] => true
  | x :: a', y :: b' => (x =? y)%N && str_eqb a' b'
  | _, _ => false
  end.

(** [String(v ?? '')] for a cell that may be [undefined]. *)
Definition strOf (v : option jsstring) : jsstring :=
  match v with Some s => s | None => [] end.

(** [s.replaceAll('\r\n', '\n')]. *)
Fixpoint replaceCRLF (s : jsstring) : jsstring :=
  match s with
  | [] => []
  | c :: rest =>
      if (c =? CR)%N then
        match rest with
        | d :: rest' => if (d =? NL)%N then NL :: replaceCRLF rest' else c :: replaceCRLF rest
        | [] => c :: replaceCRLF rest
        end
      else c :: replaceCRLF rest
  end.

(** [s.replaceAll('\r', '\n')]. *)
Definition replaceCR (s : jsstring) : jsstring :=
  map (fun c => if (c =? CR)%N then NL else c) s.

Definition normalizeNewlines (s : jsstring) : jsstring :=
  replaceCR (replaceCRLF s).

(** ** Errors *)

Inductive Error : Type :=
| TooManyColumns (maxCols : Z)
| TooManyRows (maxRows : Z).

Inductive result (A : Type) : Type :=
| Ok (a : A)
| Throw (e : Error).
Arguments Ok {A} a.
Arguments Throw {A} e.

(** ** The lexer: [parseCsvText] *)

Definition Row := list jsstring.

Definition isBlank (f : jsstring) : bool := isEmpty (trim f).

(** The [while] loop of [pushRow]: pop the last field as long as it is blank. *)
Definition popBlank (row : Row) : Row := rev (dropWhile isBlank (rev row)).

Definition pushRow (rows : list Row) (row : Row) : list Row :=
  match popBlank row with
  | [] => rows
  | r => rows ++ [r]
  end.

Fixpoint lexLoop (maxRows maxCols : Z) (s : jsstring)
    (rows : list Row) (row : Row) (field : jsstring) (inQuotes : bool)
    : result (list Row) :=
  match s with
  | [] => Ok (pushRow rows (row ++ [field]))
  | ch :: rest =>
      if inQuotes then
        if (ch =? QUOTE)%N then
          match rest with
          | next :: rest' =>
              if (next =? QUOTE)%N
              then lexLoop maxRows maxCols rest' rows row (field ++ [QUOTE]) true
              else lexLoop maxRows maxCols rest rows row field false
          | [] => lexLoop maxRows maxCols rest rows row field false
          end
        else lexLoop maxRows maxCols rest rows row (field ++ [ch]) true
      else if (ch =? QUOTE)%N then lexLoop maxRows maxCols rest rows row field true
      else if (ch =? COMMA)%N then
        let row' := row ++ [field] in
        if Z.of_nat (length row') >? maxCols then Throw (TooManyColumns maxCols)
        else lexLoop maxRows maxCols rest rows row' [] false
      else if (ch =? NL)%N then
        let rows' := pushRow rows (row ++ [field]) in
        if Z.of_nat (length rows') >? maxRows then Throw (TooManyRows maxRows)
        else lexLoop maxRows maxCols rest rows' [] [] false
      else lexLoop maxRows maxCols rest rows row (field ++ [ch]) false
  end.

Definition parseCsvText (text : jsstring) (maxRows maxCols : Z) : result (list Row) :=
  lexLoop maxRows maxCols (normalizeNewlines text) [] [] [] false.

(** ** Numbers

    [parseInt] and [parseFloat] return the double nearest to the decimal value
    they read (round to nearest, ties to even), or an infinity when the value
    is out of range. A finite double is kept as its exact value: an integer
    for [parseInt], a reduced fraction for [parseFloat]. Minus zero is not
    told apart from zero: nothing in the program observes the difference. *)

Inductive Integer : Type :=
| IntNaN
| IntInfinity (negative : bool)
| Int (z : Z).

Inductive Number : Type :=
| NaN
| Infinity (negative : bool)
| Finite (q : Q).

(** Nearest integer to [n / d] for [0 <= n] and [0 < d], ties to even. *)
Definition roundHalfEven (n d : Z) : Z :=
  let q := n / d in
  match 2 * (n mod d) ?= d with
  | Lt => q
  | Eq => if Z.even q then q else q + 1
  | Gt => q + 1
  end.

(** The double nearest to [n / d] for [0 < n] and [0 < d], as a pair [(m, s)]
    standing for [m * 2^s] with [m <= 2^53]; [None] when it overflows. *)
Definition nearestDouble (n d : Z) : option (Z * Z) :=
  let e0 := Z.log2 n - Z.log2 d in
  let below :=
    if 0 <=? e0 then n <? d * 2 ^ e0 else n * 2 ^ (- e0) <? d in
  let e := if below then e0 - 1 else e0 in
  let s := Z.max (e - 52) (-1074) in
  let m := if 0 <=? s then roundHalfEven n (d * 2 ^ s)
           else roundHalfEven (n * 2 ^ (- s)) d in
  if (0 <=? s) && (2 ^ 1024 <=? m * 2 ^ s) then None else Some (m, s).

Definition integerOfMagnitude (negative : bool) (n : Z) : Integer :=
  if n <? 2 ^ 53 then Int (if negative then - n else n)
  else match nearestDouble n 1 with
       | Some (m, s) => Int (if negative then - (m * 2 ^ s) else m * 2 ^ s)
       | None => IntInfinity negative
       end.

(** The double nearest to [n * 10^x] for [0 <= n]. *)
Definition numberOfDecimal (negative : bool) (n x : Z) : Number :=
  if n =? 0 then Finite 0
  else
    let r := if 0 <=? x then nearestDouble (n * 10 ^ x) 1
             else nearestDouble n (10 ^ (- x)) in
    match r with
    | None => Infinity negative
    | Some (m, s) =>
        let m' := if negative then - m else m in
        if 0 <=? s then Finite (inject_Z (m' * 2 ^ s))
        else Finite (Qred (Qmake m' (Z.to_pos (2 ^ (- s)))))
    end.

Definition digitValue (c : N) : Z := Z.of_N c - 48.

Definition digitsValue (ds : jsstring) : Z :=
  fold_left (fun acc c => 10 * acc + digitValue c) ds 0.

Definition MINUS : N := 45.
Definition PLUS : N := 43.
Definition DOT : N := 46.
Definition SLASH : N := 47.
Definition COLON : N := 58.
Definition HASH : N := 35.
Definition LBRACKET : N := 91.
Definition RBRACKET : N := 93.

(** The optional sign of [parseInt] and [parseFloat]. *)
Definition stripSign (s : jsstring) : bool * jsstring :=
  match s with
  | c :: t => if (c =? MINUS)%N then (true, t)
              else if (c =? PLUS)%N then (false, t) else (false, s)
  | [] => (false, s)
  end.

(** [parseInt(s, 10)]. *)
Definition parseInt (s : jsstring) : Integer :=
  let (negative, t) := stripSign (trimStart s) in
  let ds := takeWhile isDigit t in
  if isEmpty ds then IntNaN else integerOfMagnitude negative (digitsValue ds).

Fixpoint stripPrefix (p s : jsstring) : option jsstring :=
  match p, s with
  | [], _ => Some s
  | a :: p', b :: s' => if (a =? b)%N then stripPrefix p' s' else None
  | _ :: _, [] => None
  end.

Definition startsWith (s p : jsstring) : bool :=
  match stripPrefix p s with Some _ => true | None => false end.

Definition isExponentMark (c : N) : bool := ((c =? 101) || (c =? 69))%N.

(** [parseFloat(s)]: the longest prefix that is a decimal literal. *)
Definition parseFloat (s : jsstring) : Number :=
  let (negative, t) := stripSign (trimStart s) in
  if startsWith t (js "Infinity") then Infinity negative
  else
    let ip := takeWhile isDigit t in
    let t1 := dropWhile isDigit t in
    let (fp, t2) :=
      match t1 with
      | c :: u => if (c =? DOT)%N then (takeWhile isDigit u, dropWhile isDigit u)
                  else ([], t1)
      | [] => ([], t1)
      end in
    if isEmpty ip && isEmpty fp then NaN
    else
      let ex :=
        match t2 with
        | c :: u =>
            if isExponentMark c then
              let (eneg, v) := stripSign u in
              let ed := takeWhile isDigit v in
              if isEmpty ed then 0
              else if eneg then - digitsValue ed else digitsValue ed
            else 0
        | [] => 0
        end in
      numberOfDecimal negative (digitsValue (ip ++ fp)) (ex - Z.of_nat (length fp)).

(** [Number.isFinite(n) ? n : null]. *)
Definition finiteInteger (n : Integer) : option Z :=
  match n with Int z => Some z | _ => None end.

Definition finiteNumber (n : Number) : option Number :=
  match n with Finite q => Some (Finite q) | _ => None end.

(** ** Regular expressions

    Each pattern of the source is a matcher tried at one position; [search]
    tries the positions from left to right, as [String.prototype.match] does
    for a pattern without the global flag. The matcher is given the code unit
    before the position, which [\b] needs. *)

Fixpoint searchFrom {A} (matchAt : option N -> jsstring -> option A)
    (prev : option N) (s : jsstring) : option A :=
  match matchAt prev s with
  | Some r => Some r
  | None =>
      match s with
      | [] => None
      | c :: rest => searchFrom matchAt (Some c) rest
      end
  end.

Definition search {A} (matchAt : option N -> jsstring -> option A) (s : jsstring)
    : option A :=
  searchFrom matchAt None s.

(** [\d+(?:\.\d+)?] at one position; the result is the matched text and what
    follows it. The greedy choices are the only ones that can succeed: a
    shorter run of digits is followed by a digit. *)
Definition matchUnsignedDecimal (s : jsstring) : option (jsstring * jsstring) :=
  let ip := takeWhile isDigit s in
  let t1 := dropWhile isDigit s in
  if isEmpty ip then None
  else
    match t1 with
    | c :: u =>
        let fp := takeWhile isDigit u in
        if (c =? DOT)%N && negb (isEmpty fp)
        then Some (ip ++ c :: fp, dropWhile isDigit u)
        else Some (ip, t1)
    | [] => Some (ip, t1)
    end.

(** [-?\d+(?:\.\d+)?] at one position. *)
Definition matchDecimal (s : jsstring) : option (jsstring * jsstring) :=
  match s with
  | c :: u =>
      if (c =? MINUS)%N then
        match matchUnsignedDecimal u with
        | Some (m, r) => Some (c :: m, r)
        | None => None
        end
      else matchUnsignedDecimal s
  | [] => None
  end.

(** [\d+] at one position. *)
Definition matchDigits (s : jsstring) : option (jsstring * jsstring) :=
  let ds := takeWhile isDigit s in
  if isEmpty ds then None else Some (ds, dropWhile isDigit s).

(** [\d{1,2}] at one position, greedy. When two digits are taken and the rest
    of the pattern then fails, the one-digit choice fails too: each use in the
    source is followed by [/], and the second digit is not a [/]. *)
Definition matchOneOrTwoDigits (s : jsstring) : option (jsstring * jsstring) :=
  match s with
  | a :: t =>
      if isDigit a then
        match t with
        | b :: u => if isDigit b then Some ([a; b], u) else Some ([a], t)
        | [] => Some ([a], t)
        end
      else None
  | [] => None
  end.

(** [\d{4}] at one position. *)
Definition matchFourDigits (s : jsstring) : option (jsstring * jsstring) :=
  match s with
  | a :: b :: c :: d :: t =>
      if isDigit a && isDigit b && isDigit c && isDigit d
      then Some ([a; b; c; d], t) else None
  | _ => None
  end.

(** [(19\d{2}|20\d{2})] at one position. *)
Definition matchYear (s : jsstring) : option (jsstring * jsstring) :=
  match s with
  | a :: b :: c :: d :: t =>
      if (((a =? 49) && (b =? 57)) || ((a =? 50) && (b =? 48)))%N
         && isDigit c && isDigit d
      then Some ([a; b; c; d], t) else None
  | _ => None
  end.

Definition matchChar (ch : N) (s : jsstring) : option jsstring :=
  match s with
  | c :: t => if (c =? ch)%N then Some t else None
  | [] => None
  end.

(** [\s*], greedy; every use in the source is followed by something that is
    not white space, so no shorter choice can succeed. *)
Definition skipWhiteSpace (s : jsstring) : jsstring := dropWhile isWhiteSpace s.

(** ** Cell normalizers *)

Definition Cell := option jsstring.

Definition isNumericLike (v : Cell) : bool :=
  let s := trim (strOf v) in
  negb (isEmpty s) &&
  match matchDecimal s with
  | Some (_, []) => true
  | _ => false
  end.

Definition parseTempFString (v : Cell) : option Number :=
  let s := trim (strOf v) in
  match search (fun _ t => matchDecimal t) s with
  | None => None
  | Some (m, _) => finiteNumber (parseFloat m)
  end.

Definition parseMaybeInt (v : Cell) : option Z :=
  let s := trim (strOf v) in
  if isEmpty s then None else finiteInteger (parseInt s).

Definition parseMaybeFloat (v : Cell) : option Number :=
  let s := trim (strOf v) in
  if isEmpty s then None else finiteNumber (parseFloat s).

Fixpoint splitOn (sep : N) (s : jsstring) : list jsstring :=
  match s with
  | [] => [[]]
  | c :: rest =>
      if (c =? sep)%N then [] :: splitOn sep rest
      else match splitOn sep rest with
           | p :: ps => (c :: p) :: ps
           | [] => [[c]]
           end
  end.

Fixpoint join (sep : N) (parts : list jsstring) : jsstring :=
  match parts with
  | [] => []
  | [p] => p
  | p :: ps => p ++ sep :: join sep ps
  end.

Fixpoint includes (s p : jsstring) : bool :=
  startsWith s p ||
  match s with
  | [] => false
  | _ :: rest => includes rest p
  end.

Definition parseLatLong (latLongStr : Cell) : option Number * option Number :=
  let s := trim (strOf latLongStr) in
  if isEmpty s || negb (includes s [SLASH]) then (None, None)
  else
    let parts := splitOn SLASH s in
    let lat := parseFloat (trim (strOf (nth_error parts 0))) in
    let lon := parseFloat (trim (strOf (nth_error parts 1))) in
    (finiteNumber lat, finiteNumber lon).

(** ** The composite-header parser: [parseYearHeaderCell] *)

Module Header.
Record t : Type := {
  Year : option Z;
  CountIndex : option Z;
  CountDate : option jsstring;
  NumParticipants : option Integer;
  NumSpeciesReported : option Integer;
  TotalHrs : option Number
}.
End Header.

(** [^\s*(19\d{2}|20\d{2})\s*\[(\d+)\]] on the first line: the two groups. *)
Definition matchYearHeader (head : jsstring) : option (jsstring * jsstring) :=
  match matchYear (skipWhiteSpace head) with
  | None => None
  | Some (y, t) =>
      match matchChar LBRACKET (skipWhiteSpace t) with
      | None => None
      | Some u =>
          match matchDigits u with
          | None => None
          | Some (idx, v) =>
              match matchChar RBRACKET v with
              | None => None
              | Some _ => Some (y, idx)
              end
          end
      end
  end.

(** [Count Date:\s*([0-9]{1,2}\/[0-9]{1,2}\/[0-9]{4})] at one position. *)
Definition matchCountDate (s : jsstring) : option jsstring :=
  match stripPrefix (js "Count Date:") s with
  | None => None
  | Some t =>
      match matchOneOrTwoDigits (skipWhiteSpace t) with
      | None => None
      | Some (m, t1) =>
          match matchChar SLASH t1 with
          | None => None
          | Some t2 =>
              match matchOneOrTwoDigits t2 with
              | None => None
              | Some (d, t3) =>
                  match matchChar SLASH t3 with
                  | None => None
                  | Some t4 =>
                      match matchFourDigits t4 with
                      | None => None
                      | Some (y, _) => Some (m ++ SLASH :: d ++ SLASH :: y)
                      end
                  end
              end
          end
      end
  end.

(** [#\s*<label>\s*([0-9]+)] at one position. *)
Definition matchHashLabel (label : jsstring) (s : jsstring) : option jsstring :=
  match matchChar HASH s with
  | None => None
  | Some t =>
      match stripPrefix label (skipWhiteSpace t) with
      | None => None
      | Some u =>
          match matchDigits (skipWhiteSpace u) with
          | None => None
          | Some (ds, _) => Some ds
          end
      end
  end.

(** [Total Hrs\.:\s*([0-9]+(?:\.[0-9]+)?)] at one position. *)
Definition matchTotalHrs (s : jsstring) : option jsstring :=
  match stripPrefix (js "Total Hrs.:") s with
  | None => None
  | Some t =>
      match matchUnsignedDecimal (skipWhiteSpace t) with
      | None => None
      | Some (m, _) => Some m
      end
  end.

(** [s.split('\n')[0] || '']. *)
Definition firstLine (s : jsstring) : jsstring :=
  strOf (nth_error (splitOn NL s) 0).

Definition parseYearHeaderCell (cell : jsstring) : option Header.t :=
  let s := normalizeNewlines cell in
  let head := firstLine s in
  match matchYearHeader head with
  | None => None
  | Some (y, idx) =>
      let dm := search (fun _ t => matchCountDate t) s in
      let pm := search (fun _ t => matchHashLabel (js "Participants:") t) s in
      let sm := search (fun _ t => matchHashLabel (js "Species Reported:") t) s in
      let hm := search (fun _ t => matchTotalHrs t) s in
      Some {| Header.Year := finiteInteger (parseInt y);
              Header.CountIndex := finiteInteger (parseInt idx);
              Header.CountDate := dm;
              Header.NumParticipants := option_map parseInt pm;
              Header.NumSpeciesReported := option_map parseInt sm;
              Header.TotalHrs := option_map parseFloat hm |}
  end.

(** ** The records of the extraction result *)

Module CountInfo.
Record t : Type := {
  CountName : option jsstring;
  CountCode : option jsstring;
  CountId : option Z;
  Lat : option Number;
  Lon : option Number;
  CompilerFirstName : option jsstring;
  CompilerLastName : option jsstring;
  CompilerName : option jsstring;
  CompilerEmail : option jsstring
}.
End CountInfo.

Module Meta.
Record t : Type := {
  CountIndex : Z;
  Year : Z;
  CountDate : option jsstring
}.
End Meta.

Module Effort.
Record t : Type := {
  CountIndex : Z;
  CountDate : option jsstring;
  Year : option Z;
  NumParticipants : option Integer;
  NumHours : option Number;
  NumSpeciesReported : option Integer
}.
End Effort.

Module Weather.
Record t : Type := {
  CountIndex : Z;
  LowTempF : option Number;
  HighTempF : option Number;
  AMClouds : jsstring;
  PMClouds : jsstring;
  AMRain : jsstring;
  PMRain : jsstring;
  AMSnow : jsstring;
  PMSnow : jsstring
}.
End Weather.

(** One record of [speciesTable]: the species and, for each year of [years]
    the species has a count for, the property named by the year. *)
Module Species.
Record t : Type := {
  Species : jsstring;
  counts : list (Z * Z)
}.
End Species.

Record ExtractionResult : Type := {
  countInfo : CountInfo.t;
  meta : list Meta.t;
  participantsEffort : list Effort.t;
  weatherRaw : list Weather.t;
  speciesTable : list Species.t;
  years : list Z
}.

(** ** Maps and sets in insertion order *)

Fixpoint mapSet {K V} (eqb : K -> K -> bool) (k : K) (v : V) (m : list (K * V))
    : list (K * V) :=
  match m with
  | [] => [(k, v)]
  | (k', v') :: m' =>
      if eqb k' k then (k, v) :: m' else (k', v') :: mapSet eqb k v m'
  end.

Fixpoint mapGet {K V} (eqb : K -> K -> bool) (k : K) (m : list (K * V)) : option V :=
  match m with
  | [] => None
  | (k', v') :: m' => if eqb k' k then Some v' else mapGet eqb k m'
  end.

Definition setHas (k : Z) (set : list Z) : bool := existsb (Z.eqb k) set.

Definition setAdd (k : Z) (set : list Z) : list Z :=
  if setHas k set then set else set ++ [k].

(** [Array.prototype.sort((a, b) => a - b)] on finite numbers. The comparator
    is a total order there, so every sorting algorithm returns the same
    array up to equal elements; insertion is the one written here. *)
Fixpoint insertSorted (y : Z) (l : list Z) : list Z :=
  match l with
  | [] => [y]
  | x :: l' => if y <? x then y :: l else x :: insertSorted y l'
  end.

Fixpoint sortNumbers (l : list Z) : list Z :=
  match l with
  | [] => []
  | x :: l' => insertSorted x (sortNumbers l')
  end.

Definition uniqueSortedYearsFromMeta (meta : list Meta.t) : list Z :=
  sortNumbers (fold_left (fun set r => setAdd (Meta.Year r) set) meta []).

(** ** The section scanner *)

(** [s.replace(/\s+/g, ' ')]; [inRun] says that the previous code unit was
    white space, already replaced. *)
Fixpoint collapseWhiteSpace (inRun : bool) (s : jsstring) : jsstring :=
  match s with
  | [] => []
  | c :: rest =>
      if isWhiteSpace c then
        if inRun then collapseWhiteSpace true rest
        else SPACE :: collapseWhiteSpace true rest
      else c :: collapseWhiteSpace false rest
  end.

Definition norm (v : Cell) : jsstring :=
  trim (collapseWhiteSpace false (strOf v)).

(** [s || old] for a string [s]: the empty string is falsy. *)
Definition orElse (s : jsstring) (old : option jsstring) : option jsstring :=
  if isEmpty s then old else Some s.

(** [r[j] === lit]. *)
Definition cellIs (v : Cell) (lit : jsstring) : bool :=
  match v with Some s => str_eqb s lit | None => false end.

(** A falsy cell: [undefined], [null] or the empty string. *)
Definition falsy (v : Cell) : bool :=
  match v with Some s => isEmpty s | None => true end.

Fixpoint firstNonEmpty (cells : Row) : option jsstring :=
  match cells with
  | [] => None
  | c :: cs => let s := norm (Some c) in
               if isEmpty s then firstNonEmpty cs else Some s
  end.

(** [firstNonEmptyAfter(r, idx)]. *)
Definition firstNonEmptyAfter (r : Row) (idx : nat) : option jsstring :=
  firstNonEmpty (skipn (S idx) r).

(** [cell.split(':').slice(1).join(':').trim() || firstNonEmptyAfter(r, j)]. *)
Definition inlineValue (cell : jsstring) (r : Row) (j : nat) : option jsstring :=
  let inline := trim (join COLON (tl (splitOn COLON cell))) in
  if isEmpty inline then firstNonEmptyAfter r j else Some inline.

Record HeaderIndexes : Type := {
  hiFirst : option nat;
  hiLast : option nat;
  hiEmail : option nat;
  hiName : option nat
}.

Definition noHeaderIndexes : HeaderIndexes :=
  {| hiFirst := None; hiLast := None; hiEmail := None; hiName := None |}.

Definition headerIndexesSize (h : HeaderIndexes) : nat :=
  length (filter (fun o : option nat => match o with Some _ => true | None => false end)
            [hiFirst h; hiLast h; hiEmail h; hiName h]).

Section Engine.

(** [String.prototype.toLowerCase]: the Unicode case mapping, taken as given. *)
Variable toLowerCase : jsstring -> jsstring.

Definition setHeaderIndex (key : jsstring) (j : nat) (h : HeaderIndexes)
    : HeaderIndexes :=
  let h1 := if str_eqb key (js "compilerfirstname")
            then {| hiFirst := Some j; hiLast := hiLast h;
                    hiEmail := hiEmail h; hiName := hiName h |} else h in
  let h2 := if str_eqb key (js "compilerlastname")
            then {| hiFirst := hiFirst h1; hiLast := Some j;
                    hiEmail := hiEmail h1; hiName := hiName h1 |} else h1 in
  let h3 := if str_eqb key (js "compileremail") || str_eqb key (js "email")
            then {| hiFirst := hiFirst h2; hiLast := hiLast h2;
                    hiEmail := Some j; hiName := hiName h2 |} else h2 in
  if str_eqb key (js "compilername") || str_eqb key (js "compiler")
  then {| hiFirst := hiFirst h3; hiLast := hiLast h3;
          hiEmail := hiEmail h3; hiName := Some j |} else h3.

Fixpoint headerIndexesFrom (j : nat) (cells : Row) (h : HeaderIndexes)
    : HeaderIndexes :=
  match cells with
  | [] => h
  | c :: cs =>
      let key := toLowerCase (norm (Some c)) in
      headerIndexesFrom (S j) cs (if isEmpty key then h else setHeaderIndex key j h)
  end.

(** The values read from the row below a row of compiler column titles. *)
Definition readCompilerColumns (h : HeaderIndexes) (v : Row) (ci : CountInfo.t)
    : CountInfo.t :=
  let pick (idx : option nat) (old : option jsstring) :=
    match idx with
    | Some j => orElse (norm (nth_error v j)) old
    | None => old
    end in
  {| CountInfo.CountName := CountInfo.CountName ci;
     CountInfo.CountCode := CountInfo.CountCode ci;
     CountInfo.CountId := CountInfo.CountId ci;
     CountInfo.Lat := CountInfo.Lat ci;
     CountInfo.Lon := CountInfo.Lon ci;
     CountInfo.CompilerFirstName := pick (hiFirst h) (CountInfo.CompilerFirstName ci);
     CountInfo.CompilerLastName := pick (hiLast h) (CountInfo.CompilerLastName ci);
     CountInfo.CompilerName := pick (hiName h) (CountInfo.CompilerName ci);
     CountInfo.CompilerEmail := pick (hiEmail h) (CountInfo.CompilerEmail ci) |}.

Definition setCompilerEmail (v : jsstring) (ci : CountInfo.t) : CountInfo.t :=
  {| CountInfo.CountName := CountInfo.CountName ci;
     CountInfo.CountCode := CountInfo.CountCode ci;
     CountInfo.CountId := CountInfo.CountId ci;
     CountInfo.Lat := CountInfo.Lat ci;
     CountInfo.Lon := CountInfo.Lon ci;
     CountInfo.CompilerFirstName := CountInfo.CompilerFirstName ci;
     CountInfo.CompilerLastName := CountInfo.CompilerLastName ci;
     CountInfo.CompilerName := CountInfo.CompilerName ci;
     CountInfo.CompilerEmail := Some v |}.

Definition setCompilerName (v : jsstring) (ci : CountInfo.t) : CountInfo.t :=
  {| CountInfo.CountName := CountInfo.CountName ci;
     CountInfo.CountCode := CountInfo.CountCode ci;
     CountInfo.CountId := CountInfo.CountId ci;
     CountInfo.Lat := CountInfo.Lat ci;
     CountInfo.Lon := CountInfo.Lon ci;
     CountInfo.CompilerFirstName := CountInfo.CompilerFirstName ci;
     CountInfo.CompilerLastName := CountInfo.CompilerLastName ci;
     CountInfo.CompilerName := Some v;
     CountInfo.CompilerEmail := CountInfo.CompilerEmail ci |}.

(** The second inner loop over the cells of a row: inline [label: value]
    cells. [j] is the index of the first cell of [cells] in the row [r]. *)
Fixpoint scanInlineCells (r : Row) (j : nat) (cells : Row) (ci : CountInfo.t)
    : CountInfo.t :=
  match cells with
  | [] => ci
  | c :: cs =>
      let cell := norm (Some c) in
      if isEmpty cell then scanInlineCells r (S j) cs ci
      else
        let lower := toLowerCase cell in
        if includes lower (js "compiler email")
           || (includes lower (js "compiler") && includes lower (js "email"))
        then
          scanInlineCells r (S j) cs
            match inlineValue cell r j with
            | Some v => setCompilerEmail v ci
            | None => ci
            end
        else if startsWith lower (js "compiler")
                || startsWith lower (js "current compiler")
        then
          scanInlineCells r (S j) cs
            match inlineValue cell r j with
            | Some v => setCompilerName v ci
            | None => ci
            end
        else scanInlineCells r (S j) cs ci
  end.

(** One iteration of the first loop: the row [r] and the row below it. *)
Definition scanCompilerRow (r next : Row) (ci : CountInfo.t) : CountInfo.t :=
  match r with
  | [] => ci
  | _ =>
      let h := headerIndexesFrom 0 r noHeaderIndexes in
      let ci1 := if (0 <? headerIndexesSize h)%nat
                 then readCompilerColumns h next ci else ci in
      scanInlineCells r 0 r ci1
  end.

(** [for (let i = 0; i < Math.min(rows.length, 80); i++)]; [n] counts the
    iterations left. *)
Fixpoint scanCompiler (n : nat) (rows : list Row) (ci : CountInfo.t)
    : CountInfo.t :=
  match n, rows with
  | S n', r :: rest => scanCompiler n' rest (scanCompilerRow r (hd [] rest) ci)
  | _, _ => ci
  end.

Definition readCircle (v : Row) (ci : CountInfo.t) : CountInfo.t :=
  let ll := parseLatLong (nth_error v 2) in
  {| CountInfo.CountName := orElse (trim (strOf (nth_error v 0))) None;
     CountInfo.CountCode := orElse (trim (strOf (nth_error v 1))) None;
     CountInfo.CountId := CountInfo.CountId ci;
     CountInfo.Lat := fst ll;
     CountInfo.Lon := snd ll;
     CountInfo.CompilerFirstName := CountInfo.CompilerFirstName ci;
     CountInfo.CompilerLastName := CountInfo.CompilerLastName ci;
     CountInfo.CompilerName := CountInfo.CompilerName ci;
     CountInfo.CompilerEmail := CountInfo.CompilerEmail ci |}.

(** [for (let i = 0; i < Math.min(rows.length, 50); i++)], left at the first
    marker row. *)
Fixpoint scanCircle (n : nat) (rows : list Row) (ci : CountInfo.t) : CountInfo.t :=
  match n, rows with
  | S n', r :: rest =>
      if cellIs (nth_error r 0) (js "CircleName") && cellIs (nth_error r 1) (js "Abbrev")
      then readCircle (hd [] rest) ci
      else scanCircle n' rest ci
  | _, _ => ci
  end.

Definition emptyCountInfo : CountInfo.t :=
  {| CountInfo.CountName := None;
     CountInfo.CountCode := None;
     CountInfo.CountId := None;
     CountInfo.Lat := None;
     CountInfo.Lon := None;
     CountInfo.CompilerFirstName := None;
     CountInfo.CompilerLastName := None;
     CountInfo.CompilerName := None;
     CountInfo.CompilerEmail := None |}.

(** *** Weather *)

Definition isWeatherSentinel (r : Row) : bool :=
  cellIs (nth_error r 0) (js "CountYear3")
  && includes (toLowerCase (if falsy (nth_error r 1) then [] else strOf (nth_error r 1)))
       (js "lowtemp").

Definition weatherRecord (CountIndex : Z) (d : Row) : Weather.t :=
  {| Weather.CountIndex := CountIndex;
     Weather.LowTempF := parseTempFString (nth_error d 1);
     Weather.HighTempF := parseTempFString (nth_error d 2);
     Weather.AMClouds := strOf (nth_error d 3);
     Weather.PMClouds := strOf (nth_error d 4);
     Weather.AMRain := strOf (nth_error d 5);
     Weather.PMRain := strOf (nth_error d 6);
     Weather.AMSnow := strOf (nth_error d 7);
     Weather.PMSnow := strOf (nth_error d 8) |}.

(** The inner loop over the rows below the sentinel: the records pushed. *)
Fixpoint weatherRows (ds : list Row) : list Weather.t :=
  match ds with
  | [] => []
  | d :: ds' =>
      if (length d =? 0)%nat then []
      else if negb (isNumericLike (nth_error d 0)) then []
      else
        match parseMaybeInt (nth_error d 0) with
        | None => weatherRows ds'
        | Some CountIndex =>
            if CountIndex =? 0 then weatherRows ds'
            else weatherRecord CountIndex d :: weatherRows ds'
        end
  end.

Fixpoint scanWeather (rows : list Row) : list Weather.t :=
  match rows with
  | [] => []
  | r :: rest => if isWeatherSentinel r then weatherRows rest else scanWeather rest
  end.

(** *** Participation and effort *)

Definition isEffortSentinel (r : Row) : bool :=
  cellIs (nth_error r 0) (js "CountYear5").

Definition effortRecord (CountIndex : Z) (d : Row) : Effort.t :=
  {| Effort.CountIndex := CountIndex;
     Effort.CountDate := orElse (trim (strOf (nth_error d 1))) None;
     Effort.Year := None;
     Effort.NumParticipants := option_map Int (parseMaybeInt (nth_error d 2));
     Effort.NumHours := parseMaybeFloat (nth_error d 3);
     Effort.NumSpeciesReported := option_map Int (parseMaybeInt (nth_error d 4)) |}.

Fixpoint effortRows (ds : list Row) : list Effort.t :=
  match ds with
  | [] => []
  | d :: ds' =>
      if (length d =? 0)%nat then []
      else if negb (isNumericLike (nth_error d 0)) then []
      else
        match parseMaybeInt (nth_error d 0) with
        | None => effortRows ds'
        | Some CountIndex =>
            if CountIndex =? 0 then effortRows ds'
            else effortRecord CountIndex d :: effortRows ds'
        end
  end.

Fixpoint scanEffort (rows : list Row) : list Effort.t :=
  match rows with
  | [] => []
  | r :: rest => if isEffortSentinel r then effortRows rest else scanEffort rest
  end.

(** *** The species matrix *)

(** The accumulators of the species loop. [stEffort] is the
    [participantsEffort] array, whose records the loop updates in place. *)
Record ScanState : Type := {
  stMeta : list Meta.t;
  stMetaSeen : list Z;
  stEffort : list Effort.t;
  stCounts : list (jsstring * list (Z * Z))
}.

Definition isSpeciesSentinel (r : Row) : bool :=
  cellIs (nth_error r 0) (js "COM_NAME") && cellIs (nth_error r 1) (js "CountYear").

(** The rows from [speciesSectionStart] on; [None] stands for [-1]. *)
Fixpoint speciesSection (rows : list Row) : option (list Row) :=
  match rows with
  | [] => None
  | r :: rest => if isSpeciesSentinel r then Some rest else speciesSection rest
  end.

(** The four guarded assignments to [existing]. *)
Definition fillFromHeader (yh : Header.t) (existing : Effort.t) : Effort.t :=
  {| Effort.CountIndex := Effort.CountIndex existing;
     Effort.CountDate :=
       if falsy (Effort.CountDate existing) && negb (falsy (Header.CountDate yh))
       then Header.CountDate yh else Effort.CountDate existing;
     Effort.Year := Effort.Year existing;
     Effort.NumParticipants :=
       match Effort.NumParticipants existing, Header.NumParticipants yh with
       | None, Some n => Some n
       | old, _ => old
       end;
     Effort.NumHours :=
       match Effort.NumHours existing, Header.TotalHrs yh with
       | None, Some h => Some h
       | old, _ => old
       end;
     Effort.NumSpeciesReported :=
       match Effort.NumSpeciesReported existing, Header.NumSpeciesReported yh with
       | None, Some n => Some n
       | old, _ => old
       end |}.

(** [participantsEffort.find(r => r.CountIndex === CountIndex)] followed by
    the assignments to the record found, which the array shares. *)
Fixpoint updateExisting (CountIndex : Z) (yh : Header.t) (pe : list Effort.t)
    : list Effort.t :=
  match pe with
  | [] => []
  | r :: pe' =>
      if Effort.CountIndex r =? CountIndex then fillFromHeader yh r :: pe'
      else r :: updateExisting CountIndex yh pe'
  end.

Definition speciesRow (d : Row) (st : ScanState) : ScanState :=
  let speciesRaw := trim (strOf (nth_error d 0)) in
  let hdr := nth_error d 1 in
  if isEmpty speciesRaw || falsy hdr then st
  else
    match parseYearHeaderCell (strOf hdr) with
    | None => st
    | Some yh =>
        match Header.CountIndex yh, Header.Year yh with
        | Some CountIndex, Some Year =>
            let CountDate := Header.CountDate yh in
            let seen := setHas CountIndex (stMetaSeen st) in
            let species := trim (strOf (nth_error (splitOn NL speciesRaw) 0)) in
            let countVal :=
              match parseMaybeInt (nth_error d 2) with Some n => n | None => 0 end in
            let m := match mapGet str_eqb species (stCounts st) with
                     | Some m => m
                     | None => []
                     end in
            {| stMeta :=
                 if seen then stMeta st
                 else stMeta st ++
                      [{| Meta.CountIndex := CountIndex;
                          Meta.Year := Year;
                          Meta.CountDate := if falsy CountDate then None else CountDate |}];
               stMetaSeen :=
                 if seen then stMetaSeen st else stMetaSeen st ++ [CountIndex];
               stEffort := updateExisting CountIndex yh (stEffort st);
               stCounts :=
                 mapSet str_eqb species (mapSet Z.eqb Year countVal m) (stCounts st) |}
        | _, _ => st
        end
    end.

Fixpoint speciesLoop (ds : list Row) (st : ScanState) : ScanState :=
  match ds with
  | [] => st
  | d :: ds' =>
      if (length d =? 0)%nat then st else speciesLoop ds' (speciesRow d st)
  end.

Definition scanSpecies (rows : list Row) (pe : list Effort.t) : ScanState :=
  let st0 := {| stMeta := []; stMetaSeen := []; stEffort := pe; stCounts := [] |} in
  match speciesSection rows with
  | Some ds => speciesLoop ds st0
  | None => st0
  end.

Definition speciesRecord (years : list Z) (entry : jsstring * list (Z * Z))
    : Species.t :=
  {| Species.Species := fst entry;
     Species.counts :=
       flat_map (fun y => match mapGet Z.eqb y (snd entry) with
                          | Some c => [(y, c)]
                          | None => []
                          end) years |}.

(** The body of [parseHistoricalResultsByCountCsv] once the text is lexed. *)
Definition extractTables (rows : list Row) : ExtractionResult :=
  let ci := scanCircle 50 rows (scanCompiler 80 rows emptyCountInfo) in
  let weather := scanWeather rows in
  let st := scanSpecies rows (scanEffort rows) in
  let ys := uniqueSortedYearsFromMeta (stMeta st) in
  {| countInfo := ci;
     meta := stMeta st;
     participantsEffort := stEffort st;
     weatherRaw := weather;
     speciesTable := map (speciesRecord ys) (stCounts st);
     years := ys |}.

Definition parseHistoricalResultsByCountCsv (text : jsstring)
    : result ExtractionResult :=
  match parseCsvText text 250000 200 with
  | Throw e => Throw e
  | Ok rows => Ok (extractTables rows)
  end.

(** ** The year reconciliation of [parseUploadedFile] ([main.js]) *)

Definition isWordChar (c : N) : bool :=
  (isDigit c || ((65 <=? c) && (c <=? 90)) || ((97 <=? c) && (c <=? 122)) || (c =? 95))%N.

(** [cleanText] on a string or a missing value. *)
Definition cleanText (v : Cell) : jsstring :=
  let s := filter (fun c => negb (c =? CR)%N) (strOf v) in
  trim (collapseWhiteSpace false s).

(** [\b(19\d{2}|20\d{2})\b] at one position, [prev] being the code unit
    before it. *)
Definition matchYearToken (prev : option N) (s : jsstring) : option jsstring :=
  match prev with
  | Some p => if isWordChar p then None
              else match matchYear s with
                   | Some (y, c :: _) => if isWordChar c then None else Some y
                   | Some (y, []) => Some y
                   | None => None
                   end
  | None => match matchYear s with
            | Some (y, c :: _) => if isWordChar c then None else Some y
            | Some (y, []) => Some y
            | None => None
            end
  end.

Definition yearFromCountDateString (countDate : Cell) : option Z :=
  let s := cleanText countDate in
  if isEmpty s then None
  else match search matchYearToken s with
       | None => None
       | Some y => finiteInteger (parseInt y)
       end.

(** [new Map(meta.map((r) => [r.CountIndex, r.Year]))]. *)
Definition metaYearByIdx (meta : list Meta.t) : list (Z * Z) :=
  fold_left (fun m r => mapSet Z.eqb (Meta.CountIndex r) (Meta.Year r) m) meta [].

Definition resolveYear (byIdx : list (Z * Z)) (r : Effort.t) : Effort.t :=
  let metaYear := mapGet Z.eqb (Effort.CountIndex r) byIdx in
  let yearFromDate :=
    if falsy (Effort.CountDate r) then None
    else yearFromCountDateString (Effort.CountDate r) in
  {| Effort.CountIndex := Effort.CountIndex r;
     Effort.CountDate := Effort.CountDate r;
     Effort.Year :=
       match metaYear with
       | Some y => Some y
       | None => match yearFromDate with
                 | Some y => Some y
                 | None => Effort.Year r
                 end
       end;
     Effort.NumParticipants := Effort.NumParticipants r;
     Effort.NumHours := Effort.NumHours r;
     Effort.NumSpeciesReported := Effort.NumSpeciesReported r |}.

(** The [pe] list of [parseUploadedFile] after the reconciliation. *)
Definition reconcileEffort (parsed : ExtractionResult) : list Effort.t :=
  map (resolveYear (metaYearByIdx (meta parsed))) (participantsEffort parsed).

End Engine.

(** [toLowerCase] on strings of ASCII code units, where it is the mapping of
    [A-Z] to [a-z]; used to run the engine on concrete ASCII inputs. *)
Definition asciiToLowerCase (s : jsstring) : jsstring :=
  map (fun c => if ((65 <=? c) && (c <=? 90))%N then (c + 32)%N else c) s.

(** Lines joined by a line feed: the text of a small file. *)
Definition lines (ls : list string) : jsstring := join NL (map js ls).

(** ** The lexing rules as the specification words them

    The grid the quoting rules alone give, before any trimming, dropping or
    cap: inside quotes a doubled quote is a literal quote and every other code
    unit is literal; outside quotes a comma ends a field and a line feed ends
    a row. The grid is read from the right: [(f, r, g)] is the first field,
    the other fields of the first row, and the rows below. *)

Definition RawGrid : Type := jsstring * Row * list Row.

Definition addChar (c : N) (grid : RawGrid) : RawGrid :=
  let '(f, r, g) := grid in (c :: f, r, g).

Definition endField (grid : RawGrid) : RawGrid :=
  let '(f, r, g) := grid in ([], f :: r, g).

Definition endRow (grid : RawGrid) : RawGrid :=
  let '(f, r, g) := grid in ([], [], (f :: r) :: g).

Fixpoint rawLex (inQuotes : bool) (s : jsstring) : RawGrid :=
  match s with
  | [] => ([], [], [])
  | ch :: rest =>
      if inQuotes then
        if (ch =? QUOTE)%N then
          match rest with
          | next :: rest' =>
              if (next =? QUOTE)%N then addChar QUOTE (rawLex true rest')
              else rawLex false rest
          | [] => rawLex false rest
          end
        else addChar ch (rawLex true rest)
      else if (ch =? QUOTE)%N then rawLex true rest
      else if (ch =? COMMA)%N then endField (rawLex false rest)
      else if (ch =? NL)%N then endRow (rawLex false rest)
      else addChar ch (rawLex false rest)
  end.

Definition gridRows (grid : RawGrid) : list Row :=
  let '(f, r, g) := grid in (f :: r) :: g.

(** The rows of the text as written, trailing blank fields and blank rows
    included. *)
Definition rawRows (text : jsstring) : list Row :=
  gridRows (rawLex false (normalizeNewlines text)).

Definition isNil {A} (l : list A) : bool :=
  match l with [] => true | _ => false end.

(** Trim every row, then drop the rows that are left empty. *)
Definition keepRows (grid : list Row) : list Row :=
  filter (fun r => negb (isNil r)) (map popBlank grid).

(** The row in progress [row], [field] put in front of a raw grid. *)
Definition resume (row : Row) (field : jsstring) (grid : RawGrid) : list Row :=
  let '(f, r, g) := grid in (row ++ (field ++ f) :: r) :: g.

(** The way a field is written in a text: each of its quotes doubled
    ([escapeQuotes]), the whole between two quotes ([quoted]). *)
Fixpoint escapeQuotes (w : jsstring) : jsstring :=
  match w with
  | [] => []
  | c :: w' => if (c =? QUOTE)%N then QUOTE :: QUOTE :: escapeQuotes w'
               else c :: escapeQuotes w'
  end.

Definition quoted (w : jsstring) : jsstring := QUOTE :: escapeQuotes w ++ [QUOTE].

(** ** The words of the claims, as predicates *)

(** What trimming does to one raw row: [r] is [raw] without its trailing
    blank fields. *)
Definition TrimmedOf (raw r : Row) : Prop :=
  exists blanks,
    raw = r ++ blanks
    /\ Forall (fun f => forallb isWhiteSpace f = true) blanks
    /\ (forall init f, r = init ++ [f] -> forallb isWhiteSpace f = false).

(** The text of a year the parser accepts: [19] or [20], then two digits. *)
Definition isYearText (y : jsstring) : Prop :=
  exists c d, (y = [49; 57; c; d]%N \/ y = [50; 48; c; d]%N)
              /\ isDigit c = true /\ isDigit d = true.

(** The first line starts with a year followed by a bracketed index, read to
    the letter: nothing before the year, nothing between year and bracket. *)
Definition StartsWithYearIndex (head : jsstring) : Prop :=
  exists y idx rest,
    head = y ++ LBRACKET :: idx ++ RBRACKET :: rest
    /\ isYearText y /\ idx <> [] /\ forallb isDigit idx = true.

(** The same with the white space the pattern of the source lets through:
    before the year, and between the year and the bracket. *)
Definition MatchesYearHeader (head : jsstring) : Prop :=
  exists ws1 y ws2 idx rest,
    head = ws1 ++ y ++ ws2 ++ LBRACKET :: idx ++ RBRACKET :: rest
    /\ forallb isWhiteSpace ws1 = true /\ isYearText y
    /\ forallb isWhiteSpace ws2 = true
    /\ idx <> [] /\ forallb isDigit idx = true.

(** A row the inner loops take as a data row. *)
Definition isDataRow (d : Row) : bool :=
  negb (length d =? 0)%nat && isNumericLike (nth_error d 0).

(** The records one data row yields: one, or none when the integer read in
    its first cell is [null] or zero. *)
Definition weatherOf (d : Row) : list Weather.t :=
  match parseMaybeInt (nth_error d 0) with
  | Some k => if k =? 0 then [] else [weatherRecord k d]
  | None => []
  end.

Definition effortOf (d : Row) : list Effort.t :=
  match parseMaybeInt (nth_error d 0) with
  | Some k => if k =? 0 then [] else [effortRecord k d]
  | None => []
  end.

(** What the species loop may do to a participation/effort record: the
    index and the year stay, and so does every field that holds a value. *)
Definition Preserved (r r' : Effort.t) : Prop :=
  Effort.CountIndex r' = Effort.CountIndex r
  /\ Effort.Year r' = Effort.Year r
  /\ (falsy (Effort.CountDate r) = false ->
      Effort.CountDate r' = Effort.CountDate r)
  /\ (Effort.NumParticipants r <> None ->
      Effort.NumParticipants r' = Effort.NumParticipants r)
  /\ (Effort.NumSpeciesReported r <> None ->
      Effort.NumSpeciesReported r' = Effort.NumSpeciesReported r)
  /\ (Effort.NumHours r <> None -> Effort.NumHours r' = Effort.NumHours r).

(** A row of the species section whose composite header parses to the index
    and the year of the metadata record [m]. *)
Definition HeaderOf (d : Row) (m : Meta.t) : Prop :=
  isEmpty (trim (strOf (nth_error d 0))) = false
  /\ exists yh,
       parseYearHeaderCell (strOf (nth_error d 1)) = Some yh
       /\ Header.CountIndex yh = Some (Meta.CountIndex m)
       /\ Header.Year yh = Some (Meta.Year m).

(** The composite header a row of the species section is scanned with, and
    its index: the first cell names a species, the second cell is there and
    reads as a composite header that has an index and a year. A row without
    one is passed over. *)
Definition rowHeader (d : Row) : option (Z * Header.t) :=
  if isEmpty (trim (strOf (nth_error d 0))) || falsy (nth_error d 1) then None
  else
    match parseYearHeaderCell (strOf (nth_error d 1)) with
    | Some yh =>
        match Header.CountIndex yh, Header.Year yh with
        | Some idx, Some _ => Some (idx, yh)
        | _, _ => None
        end
    | None => None
    end.

(** What the claim says a row of the species section does to the
    participation/effort records: its header, when it has one, fills the
    first record of its index. *)
Definition headerStep (pe : list Effort.t) (d : Row) : list Effort.t :=
  match rowHeader d with
  | Some (idx, yh) => updateExisting idx yh pe
  | None => pe
  end.

(** The rows the species loop visits: those below the sentinel, up to the
    first empty one. *)
Definition visitedRows (rows : list Row) : list Row :=
  match speciesSection rows with
  | Some ds => takeWhile (fun d => negb (isNil d)) ds
  | None => []
  end.

(** The code unit before a position: the last one of [pre], or [prev] when
    [pre] is empty. *)
Definition lastOr (prev : option N) (pre : jsstring) : option N :=
  match rev pre with
  | c :: _ => Some c
  | [] => prev
  end.



(** The indices of the metadata are the set [metaSeen], without repeats. *)
Definition MetaDistinct (st : ScanState) : Prop :=
  stMetaSeen st = map Meta.CountIndex (stMeta st) /\ NoDup (stMetaSeen st).

(** ** Devices of the proofs *)

(** [yearTextb]: the text of a year, decided. *)
Definition yearTextb (y : jsstring) : bool :=
  match matchYear y with
  | Some (_, []) => true
  | _ => false
  end.

(** The first maximal run of word code units that is the text of a year;
    [cur] is the run in progress. *)
Fixpoint firstYearRun (cur : jsstring) (s : jsstring) : option jsstring :=
  match s with
  | [] => if yearTextb cur then Some cur else None
  | c :: rest =>
      if isWordChar c then firstYearRun (cur ++ [c]) rest
      else if yearTextb cur then Some cur
      else firstYearRun [] rest
  end.

(** A position before which there is no word code unit. *)
Definition atBoundary (prev : option N) : Prop :=
  match prev with
  | Some p => isWordChar p = false
  | None => True
  end.

(** A string without carriage return. *)
Definition noCR (s : jsstring) : Prop := Forall (fun c => c <> CR) s.

Definition gridNoCR (grid : RawGrid) : Prop :=
  let '(f, r, g) := grid in noCR f /\ Forall noCR r /\ Forall (Forall noCR) g.

(** The date of a record, when it has one, holds no carriage return. *)
Definition dateNoCR (date : option jsstring) : Prop :=
  forall s, date = Some s -> noCR s.

(** ** More of [main.js]: export, titles, years and joins *)

(** *** [csvEscapeCell] and [rowsToCsv]

    A value enters [csvEscapeCell] only through [String(v)], unless it is
    [null] or [undefined]: it is given here as [None] or as [Some] of its
    text. An object ([Obj]) is the list of its own enumerable properties,
    each name once, in the order of their creation.

    [Object.keys] lists the array indices first, in ascending order, then
    the other names in the order of creation ([objectKeys]). [r[c]] reads
    the own property named [c] and, when there is none, follows the prototype
    chain: [inherited c] is the text of what the chain gives for [c]
    ([Object.prototype.toString] and the like for the plain objects the
    tables are made of), [None] where the chain has no such property. The
    text of a built-in function is the engine's, so [inherited] is a
    parameter of the export: every property holds for any chain. *)

Definition isCsvSpecial (c : N) : bool :=
  ((c =? QUOTE) || (c =? COMMA) || (c =? NL) || (c =? CR))%N.

Definition csvEscapeCell (v : Cell) : jsstring :=
  match v with
  | None => []
  | Some s => if existsb isCsvSpecial s then quoted s else s
  end.

Definition Obj : Type := list (jsstring * Cell).

(** [r[c]]. *)
Definition propOf (inherited : jsstring -> Cell) (r : Obj) (c : jsstring) : Cell :=
  match mapGet str_eqb c r with
  | Some v => v
  | None => inherited c
  end.

(** An array index: the canonical decimal text (no leading zero, but for
    [0] itself) of an integer from 0 to 2^32 - 2. *)
Definition arrayIndex (k : jsstring) : option Z :=
  match k with
  | [] => None
  | c :: t =>
      if forallb isDigit k && (isEmpty t || negb (c =? 48)%N)
         && (digitsValue k <=? 4294967294)
      then Some (digitsValue k) else None
  end.

Fixpoint insertKey (i : Z) (k : jsstring) (l : list (Z * jsstring))
    : list (Z * jsstring) :=
  match l with
  | [] => [(i, k)]
  | (j, k') :: l' => if i <? j then (i, k) :: l else (j, k') :: insertKey i k l'
  end.

(** The array indices among the names, in ascending order. *)
Fixpoint sortedIndexKeys (names : list jsstring) : list (Z * jsstring) :=
  match names with
  | [] => []
  | k :: names' =>
      match arrayIndex k with
      | Some i => insertKey i k (sortedIndexKeys names')
      | None => sortedIndexKeys names'
      end
  end.

(** [Object.keys(r)]. *)
Definition objectKeys (r : Obj) : list jsstring :=
  map snd (sortedIndexKeys (map fst r))
  ++ filter (fun k => match arrayIndex k with Some _ => false | None => true end)
       (map fst r).

(** The [cols] of [rowsToCsv]: the columns asked for, or else the keys of
    the first row. *)
Definition exportCols (rows : list Obj) (columns : list jsstring) : list jsstring :=
  match columns with
  | _ :: _ => columns
  | [] => match rows with
          | r :: _ => objectKeys r
          | [] => []
          end
  end.

Definition rowsToCsv (inherited : jsstring -> Cell) (rows : list Obj)
    (columns : list jsstring) : jsstring :=
  let cols := exportCols rows columns in
  let header := join COMMA (map (fun c => csvEscapeCell (Some c)) cols) in
  let lines :=
    map (fun r => join COMMA (map (fun c => csvEscapeCell (propOf inherited r c)) cols))
        rows in
  join NL (header :: lines).

(** The prototype chain of a plain object as V8 (Node, Chrome) prints it:
    the methods of [Object.prototype] are built-in functions, [constructor]
    is [Object], and [__proto__] reads as [Object.prototype] itself. *)
Definition objectPrototypeMethods : list jsstring :=
  [js "toString"; js "toLocaleString"; js "valueOf"; js "hasOwnProperty";
   js "isPrototypeOf"; js "propertyIsEnumerable"; js "__defineGetter__";
   js "__defineSetter__"; js "__lookupGetter__"; js "__lookupSetter__"].

Definition nativeFunctionText (name : jsstring) : jsstring :=
  js "function " ++ name ++ js "() { [native code] }".

Definition plainObjectInherited (c : jsstring) : Cell :=
  if existsb (str_eqb c) objectPrototypeMethods then Some (nativeFunctionText c)
  else if str_eqb c (js "constructor") then Some (nativeFunctionText (js "Object"))
  else if str_eqb c (js "__proto__") then Some (js "[object Object]")
  else None.

(** *** [escapeHtml] and [sanitizeFilenamePart] *)

(** [s.replaceAll(c, by)] for a pattern of one code unit. *)
Definition replaceAllChar (c : N) (by_ : jsstring) (s : jsstring) : jsstring :=
  flat_map (fun x => if (x =? c)%N then by_ else [x]) s.

Definition escapeHtml (s : jsstring) : jsstring :=
  replaceAllChar 39 (js "&#39;")
    (replaceAllChar QUOTE (js "&quot;")
       (replaceAllChar 62 (js "&gt;")
          (replaceAllChar 60 (js "&lt;")
             (replaceAllChar 38 (js "&amp;") s)))).

(** [s.replaceAll(/\s+/g, by)] for a replacement of one code unit. *)
Fixpoint replaceWhiteSpaceRuns (by_ : N) (inRun : bool) (s : jsstring) : jsstring :=
  match s with
  | [] => []
  | c :: rest =>
      if isWhiteSpace c then
        if inRun then replaceWhiteSpaceRuns by_ true rest
        else by_ :: replaceWhiteSpaceRuns by_ true rest
      else c :: replaceWhiteSpaceRuns by_ false rest
  end.

(** [[A-Za-z0-9._-]]. *)
Definition isFilenameChar (c : N) : bool :=
  (((65 <=? c) && (c <=? 90)) || ((97 <=? c) && (c <=? 122))
   || ((48 <=? c) && (c <=? 57)) || (c =? 46) || (c =? 95) || (c =? 45))%N.

Definition sanitizeFilenamePart (s : Cell) : jsstring :=
  firstn 80
    (filter isFilenameChar
       (replaceWhiteSpaceRuns 95 false
          (trim (if falsy s then [] else strOf s)))).

(** *** The entity written for one code unit of an HTML text *)

Definition htmlEntity (c : N) : jsstring :=
  if (c =? 38)%N then js "&amp;"
  else if (c =? 60)%N then js "&lt;"
  else if (c =? 62)%N then js "&gt;"
  else if (c =? QUOTE)%N then js "&quot;"
  else if (c =? 39)%N then js "&#39;"
  else [c].

(** The code units that open or close a tag or an attribute value. *)
Definition isHtmlUnsafe (c : N) : bool :=
  ((c =? 60) || (c =? 62) || (c =? QUOTE) || (c =? 39))%N.

(** *** [withCbcSuffix] *)

(** [\bCBC\b] with the flag [i], at one position, [prev] being the code
    unit before it. Without the unicode flag only [c] and [C], [b] and [B]
    are matched by the letters of the pattern. *)
Definition matchCbcToken (prev : option N) (s : jsstring) : option unit :=
  let boundaryBefore :=
    match prev with Some p => negb (isWordChar p) | None => true end in
  match s with
  | c1 :: b :: c2 :: rest =>
      if boundaryBefore
         && ((c1 =? 67) || (c1 =? 99)) && ((b =? 66) || (b =? 98))
         && ((c2 =? 67) || (c2 =? 99))
         && match rest with x :: _ => negb (isWordChar x) | [] => true end
      then Some tt else None
  | _ => None
  end%N.

Definition withCbcSuffix (name : Cell) : jsstring :=
  let s := trim (if falsy name then [] else strOf name) in
  if isEmpty s then js "CBC"
  else match search matchCbcToken s with
       | Some _ => s
       | None => s ++ js " CBC"
       end.

(** *** [continuousYears] and [missingYearsFromRanges]

    The years are finite integers, as those of an extraction result are. *)

(** [for (let y = minY; y <= maxY; y++) out.push(y)]; [fuel] bounds the
    number of iterations. *)
Fixpoint yearsLoop (fuel : nat) (y maxY : Z) : list Z :=
  match fuel with
  | O => []
  | S fuel' => if y <=? maxY then y :: yearsLoop fuel' (y + 1) maxY else []
  end.

Definition continuousYears (years : list Z) : list Z :=
  match years with
  | [] => []
  | y :: ys =>
      let minY := fold_left Z.min ys y in
      let maxY := fold_left Z.max ys y in
      yearsLoop (Z.to_nat (maxY - minY + 1)) minY maxY
  end.

Definition missingYearsFromRanges (yearsPresent yearsFull : list Z) : list Z :=
  filter (fun y => negb (setHas y (fold_left (fun set y => setAdd y set) yearsPresent [])))
         yearsFull.

(** *** [joinWeatherWithYearInfo] *)

(** [{ Year, CountDate, ...w }]. *)
Module Joined.
Record t : Type := {
  Year : option Z;
  CountDate : option jsstring;
  weather : Weather.t
}.
End Joined.

(** [new Map(rows.map((r) => [key(r), r]))]. *)
Definition mapByIndex {A} (key : A -> Z) (rows : list A) : list (Z * A) :=
  fold_left (fun m r => mapSet Z.eqb (key r) r m) rows [].

(** [a || b] for two values that may be [null]. *)
Definition orNull {A} (a b : option A) : option A :=
  match a with Some _ => a | None => b end.

(** A year as a condition: [null] and zero are falsy. *)
Definition truthyYear (y : option Z) : option Z :=
  match y with
  | Some z => if z =? 0 then None else Some z
  | None => None
  end.

(** A text as a condition: [null] and the empty string are falsy. *)
Definition truthyText (s : option jsstring) : option jsstring :=
  if falsy s then None else s.

Definition joinWeatherWithYearInfo (weatherRows : list Weather.t)
    (participantsEffortRows : list Effort.t) (metaRows : list Meta.t)
    : list Joined.t :=
  let peByIdx := mapByIndex Effort.CountIndex participantsEffortRows in
  let metaByIdx := mapByIndex Meta.CountIndex metaRows in
  map (fun w =>
         let pe := mapGet Z.eqb (Weather.CountIndex w) peByIdx in
         let meta := mapGet Z.eqb (Weather.CountIndex w) metaByIdx in
         {| Joined.Year :=
              orNull (match pe with Some r => truthyYear (Effort.Year r) | None => None end)
                     (match meta with Some m => truthyYear (Some (Meta.Year m)) | None => None end);
            Joined.CountDate :=
              orNull (match pe with Some r => truthyText (Effort.CountDate r) | None => None end)
                     (match meta with Some m => truthyText (Meta.CountDate m) | None => None end);
            Joined.weather := w |})
      weatherRows.

(** *** [inferCountIndexRange] and [inferMaxCountIndex]

    The two projections of the reconciled records that [parseUploadedFile]
    builds, and the range of all the indices. *)

Module Participation.
Record t : Type := {
  Year : option Z;
  CountDate : option jsstring;
  CountIndex : Z;
  NumParticipants : option Integer
}.
End Participation.

Module Hours.
Record t : Type := {
  Year : option Z;
  CountDate : option jsstring;
  CountIndex : Z;
  NumHours : option Number
}.
End Hours.

Definition participationOf (r : Effort.t) : Participation.t :=
  {| Participation.Year := Effort.Year r;
     Participation.CountDate := Effort.CountDate r;
     Participation.CountIndex := Effort.CountIndex r;
     Participation.NumParticipants := Effort.NumParticipants r |}.

Definition hoursOf (r : Effort.t) : Hours.t :=
  {| Hours.Year := Effort.Year r;
     Hours.CountDate := Effort.CountDate r;
     Hours.CountIndex := Effort.CountIndex r;
     Hours.NumHours := Effort.NumHours r |}.

(** The array [idxs]: every index is a finite number and is pushed. *)
Definition allIndices (meta : list Meta.t) (weather : list Joined.t)
    (effort : list Hours.t) (participation : list Participation.t) : list Z :=
  map Meta.CountIndex meta
  ++ map (fun w => Weather.CountIndex (Joined.weather w)) weather
  ++ map Hours.CountIndex effort
  ++ map Participation.CountIndex participation.

Definition inferCountIndexRange (meta : list Meta.t) (weather : list Joined.t)
    (effort : list Hours.t) (participation : list Participation.t)
    : option (Z * Z) :=
  match allIndices meta weather effort participation with
  | [] => None
  | i :: idxs => Some (fold_left Z.min idxs i, fold_left Z.max idxs i)
  end.

Definition inferMaxCountIndex (meta : list Meta.t) (weather : list Joined.t)
    (effort : list Hours.t) (participation : list Participation.t) : option Z :=
  match inferCountIndexRange meta weather effort participation with
  | Some r => Some (snd r)
  | None => None
  end.

(** The tables of [parseUploadedFile] that are built from the extraction. *)
Definition uploadWeather (parsed : ExtractionResult) : list Joined.t :=
  joinWeatherWithYearInfo (weatherRaw parsed) (reconcileEffort parsed) (meta parsed).

Definition uploadMaxCountIndex (parsed : ExtractionResult) : option Z :=
  inferMaxCountIndex (meta parsed) (uploadWeather parsed)
    (map hoursOf (reconcileEffort parsed))
    (map participationOf (reconcileEffort parsed)).

(** ** [scripts/build_seed_sqlite.mjs] *)

(** [parseYearFromCountDateString]: as [yearFromCountDateString], but the
    text is only trimmed. *)
Definition parseYearFromCountDateString (countDate : Cell) : option Z :=
  let s := trim (strOf countDate) in
  if isEmpty s then None
  else match search matchYearToken s with
       | None => None
       | Some y => finiteInteger (parseInt y)
       end.

Definition resolveYearSeed (byIdx : list (Z * Z)) (r : Effort.t) : Effort.t :=
  let metaYear := mapGet Z.eqb (Effort.CountIndex r) byIdx in
  let yearFromDate :=
    if falsy (Effort.CountDate r) then None
    else parseYearFromCountDateString (Effort.CountDate r) in
  {| Effort.CountIndex := Effort.CountIndex r;
     Effort.CountDate := Effort.CountDate r;
     Effort.Year :=
       match metaYear with
       | Some y => Some y
       | None => match yearFromDate with
                 | Some y => Some y
                 | None => Effort.Year r
                 end
       end;
     Effort.NumParticipants := Effort.NumParticipants r;
     Effort.NumHours := Effort.NumHours r;
     Effort.NumSpeciesReported := Effort.NumSpeciesReported r |}.

(** The [pe] list of [buildStateFromCsvText]. *)
Definition reconcileEffortSeed (parsed : ExtractionResult) : list Effort.t :=
  map (resolveYearSeed (metaYearByIdx (meta parsed))) (participantsEffort parsed).

(** ** Further words and devices of the proofs *)

(** *** Line ends

    Lines joined by a separator of several code units, to word the three
    line-end conventions [normalizeNewlines] knows. *)

Fixpoint joinWith (sep : jsstring) (parts : list jsstring) : jsstring :=
  match parts with
  | [] => []
  | [p] => p
  | p :: ps => p ++ sep ++ joinWith sep ps
  end.

Definition isLineEnd (c : N) : bool := ((c =? CR) || (c =? NL))%N.

(** *** Ranges of the numbers read

    [parseInt] of a run of digits is a number that is neither [NaN] nor
    negative; it is [Infinity] from 309 digits on. *)

Definition nonNegativeInteger (n : Integer) : Prop :=
  match n with
  | Int z => 0 <= z
  | IntInfinity negative => negative = false
  | IntNaN => False
  end.

(** *** Devices of the proofs about the species table *)

(** The species names met so far are distinct and none is empty. *)
Definition countsKeysOk (st : ScanState) : Prop :=
  NoDup (map fst (stCounts st)) /\ Forall (fun k => k <> []) (map fst (stCounts st)).

(** *** Devices of the proofs about the counts *)

(** The row [d] of the species section gives the species [name] the count
    [c] for the year [y]: its first cell names the species, its second cell
    is a composite header of that year with an index, its third cell reads
    as [c] (zero when it does not read as an integer). *)
Definition CountOf (d : Row) (name : jsstring) (y c : Z) : Prop :=
  isEmpty (trim (strOf (nth_error d 0))) = false
  /\ name = trim (strOf (nth_error (splitOn NL (trim (strOf (nth_error d 0)))) 0))
  /\ (exists yh,
        parseYearHeaderCell (strOf (nth_error d 1)) = Some yh
        /\ Header.Year yh = Some y /\ Header.CountIndex yh <> None)
  /\ c = match parseMaybeInt (nth_error d 2) with Some n => n | None => 0 end.

Definition countsFrom (all : list Row) (st : ScanState) : Prop :=
  forall name m,
    In (name, m) (stCounts st) ->
    forall y c, mapGet Z.eqb y m = Some c ->
                exists d, In d all /\ CountOf d name y c.

(** *** Devices of the proofs about the export *)

(** The cells an export writes: the header, then one row for each object. *)
Definition exportGrid (inherited : jsstring -> Cell) (rows : list Obj)
    (columns : list jsstring) : list Row :=
  let cols := exportCols rows columns in
  cols :: map (fun r => map (fun c => strOf (propOf inherited r c)) cols) rows.

Definition addChars (t : jsstring) (grid : RawGrid) : RawGrid :=
  fold_right addChar grid t.

(** The fields of one line put in front of a raw grid. *)
Fixpoint putRow (cells : Row) (grid : RawGrid) : RawGrid :=
  match cells with
  | [] => grid
  | [c] => addChars c grid
  | c :: cs => addChars c (endField (putRow cs grid))
  end.

Fixpoint putRows (ls : list Row) : RawGrid :=
  match ls with
  | [] => ([], [], [])
  | [l] => putRow l ([], [], [])
  | l :: ls' => putRow l (endRow (putRows ls'))
  end.

(** A line without any cell is read as one empty field. *)
Definition rawOf (cells : Row) : Row :=
  match cells with
  | [] => [[]]
  | _ => cells
  end.

(** *** Devices of the proofs about [countInfo] *)

(** A number field that is null or finite. *)
Definition finiteOrNull (x : option Number) : Prop :=
  match x with
  | Some (Finite _) | None => True
  | Some _ => False
  end.

(** No text field holds the empty string; the coordinates are finite. *)
Definition countInfoOk (ci : CountInfo.t) : Prop :=
  CountInfo.CountName ci <> Some []
  /\ CountInfo.CountCode ci <> Some []
  /\ CountInfo.CompilerFirstName ci <> Some []
  /\ CountInfo.CompilerLastName ci <> Some []
  /\ CountInfo.CompilerName ci <> Some []
  /\ CountInfo.CompilerEmail ci <> Some []
  /\ finiteOrNull (CountInfo.Lat ci)
  /\ finiteOrNull (CountInfo.Lon ci).

(** * Properties *)

Local Arguments nth_error : simpl never.

(** ** Lists *)

Lemma dropWhile_app_false {A} (p : A -> bool) (l : list A) (x : A) (l' : list A) :
  p x = false -> Forall (fun y => p y = true) l ->
  dropWhile p (l ++ x :: l') = x :: l'.
Proof.
  intros Hx Hl. induction Hl as [|y l Hy _ IH]; simpl.
  - now rewrite Hx.
  - now rewrite Hy.
Qed.

Lemma takeWhile_dropWhile {A} (p : A -> bool) (l : list A) :
  takeWhile p l ++ dropWhile p l = l.
Proof.
  induction l as [|x l IH]; simpl; [reflexivity|].
  destruct (p x); simpl; [now rewrite IH | reflexivity].
Qed.

Lemma takeWhile_all {A} (p : A -> bool) (l : list A) :
  Forall (fun y => p y = true) (takeWhile p l).
Proof.
  induction l as [|x l IH]; simpl; [constructor|].
  destruct (p x) eqn:E; [constructor; assumption | constructor].
Qed.

Lemma dropWhile_head {A} (p : A -> bool) (l : list A) (x : A) (l' : list A) :
  dropWhile p l = x :: l' -> p x = false.
Proof.
  induction l as [|y l IH]; simpl; [discriminate|].
  destruct (p y) eqn:E; [assumption|].
  intros H; injection H as -> _. exact E.
Qed.

(** ** The lexer *)

Lemma popBlank_snoc (row : Row) (f : jsstring) :
  popBlank (row ++ [f]) = if isBlank f then popBlank row else row ++ [f].
Proof.
  unfold popBlank. rewrite rev_app_distr. simpl.
  destruct (isBlank f); [reflexivity|].
  simpl. now rewrite rev_involutive.
Qed.

Lemma pushRow_keepRows (rows : list Row) (row : Row) :
  pushRow rows row = rows ++ keepRows [row].
Proof.
  unfold pushRow, keepRows. simpl.
  destruct (popBlank row); simpl; [now rewrite app_nil_r | reflexivity].
Qed.

Lemma keepRows_cons (row : Row) (grid : list Row) :
  keepRows (row :: grid) = keepRows [row] ++ keepRows grid.
Proof.
  unfold keepRows. simpl. destruct (negb (isNil (popBlank row))); reflexivity.
Qed.

Lemma resume_addChar (row : Row) (field : jsstring) (c : N) (grid : RawGrid) :
  resume row field (addChar c grid) = resume row (field ++ [c]) grid.
Proof.
  destruct grid as [[f r] g]. simpl. now rewrite <- app_assoc.
Qed.

Lemma resume_endField (row : Row) (field : jsstring) (grid : RawGrid) :
  resume row field (endField grid) = resume (row ++ [field]) [] grid.
Proof.
  destruct grid as [[f r] g]. simpl. now rewrite app_nil_r, <- app_assoc.
Qed.

Lemma resume_endRow (row : Row) (field : jsstring) (grid : RawGrid) :
  resume row field (endRow grid) = (row ++ [field]) :: resume [] [] grid.
Proof.
  destruct grid as [[f r] g]. simpl. now rewrite app_nil_r.
Qed.

(** The loop of [parseCsvText], when it returns, returns the rows it already
    had followed by the kept rows of the raw grid of what was left to read. *)
Lemma lexLoop_rawLex (maxRows maxCols : Z) (s : jsstring) :
  forall rows row field inQuotes out,
    lexLoop maxRows maxCols s rows row field inQuotes = Ok out ->
    out = rows ++ keepRows (resume row field (rawLex inQuotes s)).
Proof.
  induction s as [s IH] using (well_founded_induction
                                 (wf_inverse_image _ nat _ (@length N) lt_wf)).
  intros rows row field inQuotes out.
  destruct s as [|ch rest].
  - simpl. intros H. injection H as <-.
    rewrite pushRow_keepRows. now rewrite app_nil_r.
  - assert (IHrest := IH rest (Nat.lt_succ_diag_r _)).
    simpl. destruct inQuotes.
    + destruct (ch =? QUOTE)%N.
      * destruct rest as [|next rest'].
        -- apply IHrest.
        -- destruct (next =? QUOTE)%N.
           ++ intros H. apply IH in H; [|simpl; lia].
              now rewrite resume_addChar.
           ++ apply IHrest.
      * intros H. apply IHrest in H. now rewrite resume_addChar.
    + destruct (ch =? QUOTE)%N; [apply IHrest|].
      destruct (ch =? COMMA)%N.
      * destruct (_ >? maxCols); [discriminate|].
        intros H. apply IHrest in H. now rewrite resume_endField.
      * destruct (ch =? NL)%N.
        -- destruct (_ >? maxRows); [discriminate|].
           intros H. apply IHrest in H.
           rewrite resume_endRow, keepRows_cons, app_assoc.
           now rewrite <- pushRow_keepRows.
        -- intros H. apply IHrest in H. now rewrite resume_addChar.
Qed.

Lemma resume_nil (grid : RawGrid) : resume [] [] grid = gridRows grid.
Proof. destruct grid as [[f r] g]. reflexivity. Qed.

Lemma parseCsvText_rawRows (text : jsstring) (maxRows maxCols : Z) (rows : list Row) :
  parseCsvText text maxRows maxCols = Ok rows -> rows = keepRows (rawRows text).
Proof.
  unfold parseCsvText, rawRows. intros H.
  apply lexLoop_rawLex in H. now rewrite resume_nil in H.
Qed.

Lemma dropWhile_nil_iff {A} (p : A -> bool) (l : list A) :
  dropWhile p l = [] <-> forallb p l = true.
Proof.
  induction l as [|x l IH]; simpl; [tauto|].
  destruct (p x); simpl; [exact IH | split; discriminate].
Qed.

(** A field is blank for [pushRow] exactly when it is empty or made of white
    space only. *)
Lemma isBlank_whitespaceOnly (f : jsstring) :
  isBlank f = forallb isWhiteSpace f.
Proof.
  unfold isBlank, trim, trimEnd, trimStart.
  destruct (forallb isWhiteSpace f) eqn:E.
  - apply dropWhile_nil_iff in E. now rewrite E.
  - destruct (dropWhile isWhiteSpace f) as [|x d] eqn:D.
    + apply dropWhile_nil_iff in D. congruence.
    + assert (Hx := dropWhile_head _ _ _ _ D).
      destruct (rev (dropWhile isWhiteSpace (rev (x :: d)))) as [|y t] eqn:R;
        [|reflexivity].
      apply (f_equal (@rev N)) in R. rewrite rev_involutive in R. simpl in R.
      apply dropWhile_nil_iff in R. rewrite forallb_app in R. simpl in R.
      rewrite Hx in R. simpl in R. now rewrite andb_false_r in R.
Qed.

Lemma popBlank_TrimmedOf (raw : Row) : TrimmedOf raw (popBlank raw).
Proof.
  exists (rev (takeWhile isBlank (rev raw))). unfold popBlank. repeat split.
  - rewrite <- rev_app_distr, takeWhile_dropWhile. now rewrite rev_involutive.
  - apply Forall_rev.
    eapply Forall_impl; [|apply takeWhile_all].
    intros f Hf. now rewrite <- isBlank_whitespaceOnly.
  - intros init f H. apply (f_equal (@rev jsstring)) in H.
    rewrite rev_involutive, rev_app_distr in H. simpl in H.
    apply dropWhile_head in H. now rewrite <- isBlank_whitespaceOnly.
Qed.

Lemma keepRows_no_empty (grid : list Row) : Forall (fun r => r <> []) (keepRows grid).
Proof.
  unfold keepRows. apply Forall_forall. intros r Hr.
  apply filter_In in Hr. destruct Hr as [_ Hr]. now destruct r.
Qed.

(** The loop returns whenever no row in progress has more fields than
    [maxCols + 1] and the kept rows are no more than [maxRows]. *)
Lemma lexLoop_within_caps (maxRows maxCols : Z) (s : jsstring) :
  forall rows row field inQuotes,
    Forall (fun r => Z.of_nat (length r) <= maxCols + 1)
           (resume row field (rawLex inQuotes s)) ->
    Z.of_nat (length (rows ++ keepRows (resume row field (rawLex inQuotes s))))
      <= maxRows ->
    exists out, lexLoop maxRows maxCols s rows row field inQuotes = Ok out.
Proof.
  induction s as [s IH] using (well_founded_induction
                                 (wf_inverse_image _ nat _ (@length N) lt_wf)).
  intros rows row field inQuotes.
  destruct s as [|ch rest].
  - simpl. eauto.
  - assert (IHrest := IH rest (Nat.lt_succ_diag_r _)).
    simpl. destruct inQuotes.
    + destruct (ch =? QUOTE)%N.
      * destruct rest as [|next rest'].
        -- apply IHrest.
        -- destruct (next =? QUOTE)%N.
           ++ rewrite resume_addChar. apply IH. simpl; lia.
           ++ apply IHrest.
      * rewrite resume_addChar. apply IHrest.
    + destruct (ch =? QUOTE)%N; [apply IHrest|].
      destruct (ch =? COMMA)%N.
      * rewrite resume_endField. intros Hc Hr.
        destruct (Z.gtb_spec (Z.of_nat (length (row ++ [field]))) maxCols) as [Hgt|Hle].
        -- exfalso. destruct (rawLex false rest) as [[f r] g]. simpl in Hc.
           apply Forall_inv in Hc. rewrite !length_app in *. simpl in *. lia.
        -- now apply IHrest.
      * destruct (ch =? NL)%N.
        -- rewrite resume_endRow, keepRows_cons, app_assoc, <- pushRow_keepRows.
           intros Hc Hr.
           destruct (Z.gtb_spec (Z.of_nat (length (pushRow rows (row ++ [field]))))
                       maxRows) as [Hgt|Hle].
           ++ exfalso. rewrite length_app in Hr. lia.
           ++ apply IHrest; [now apply Forall_inv_tail in Hc | assumption].
        -- rewrite resume_addChar. apply IHrest.
Qed.

(** An extraction whose text respects the caps does not throw: no raw row has
    more than 200 fields and no more than 250000 rows are kept. *)
Lemma parseCsvText_within_caps (text : jsstring) (maxRows maxCols : Z) :
  Forall (fun r => Z.of_nat (length r) <= maxCols) (rawRows text) ->
  Z.of_nat (length (keepRows (rawRows text))) <= maxRows ->
  parseCsvText text maxRows maxCols = Ok (keepRows (rawRows text)).
Proof.
  intros Hc Hr.
  destruct (lexLoop_within_caps maxRows maxCols (normalizeNewlines text) [] [] [] false)
    as [out Hout].
  - rewrite resume_nil. eapply Forall_impl; [|exact Hc]. simpl. intros; lia.
  - now rewrite resume_nil.
  - unfold parseCsvText. rewrite Hout. f_equal.
    now apply (parseCsvText_rawRows text maxRows maxCols).
Qed.

Lemma parseHistoricalResultsByCountCsv_within_caps
    (toLowerCase : jsstring -> jsstring) (text : jsstring) :
  Forall (fun r => Z.of_nat (length r) <= 200) (rawRows text) ->
  Z.of_nat (length (keepRows (rawRows text))) <= 250000 ->
  exists res, parseHistoricalResultsByCountCsv toLowerCase text = Ok res.
Proof.
  intros Hc Hr. unfold parseHistoricalResultsByCountCsv.
  rewrite (parseCsvText_within_caps text 250000 200 Hc Hr). eauto.
Qed.

Lemma replaceCRLF_noCR (s : jsstring) :
  Forall (fun c => c <> CR) s -> replaceCRLF s = s.
Proof.
  induction 1 as [|c s Hc _ IH]; simpl; [reflexivity|].
  apply N.eqb_neq in Hc. rewrite Hc. now rewrite IH.
Qed.

Lemma replaceCR_noCR (s : jsstring) :
  Forall (fun c => c <> CR) s -> replaceCR s = s.
Proof.
  unfold replaceCR.
  induction 1 as [|c s Hc _ IH]; simpl; [reflexivity|].
  apply N.eqb_neq in Hc. rewrite Hc. now rewrite IH.
Qed.

Lemma normalizeNewlines_noCR (s : jsstring) :
  Forall (fun c => c <> CR) s -> normalizeNewlines s = s.
Proof.
  intros H. unfold normalizeNewlines. rewrite (replaceCRLF_noCR s H).
  now apply replaceCR_noCR.
Qed.

(** A text of [n + 1] lines [a], the last one without a line feed, is lexed
    without an error as soon as the rows before the last one fit the cap. *)
Lemma lexLoop_lines (maxRows maxCols : Z) (n : nat) :
  forall rows,
    Z.of_nat (length rows + n) <= maxRows ->
    lexLoop maxRows maxCols (join NL (repeat (js "a") (S n))) rows [] [] false
    = Ok (rows ++ repeat [js "a"] (S n)).
Proof.
  induction n as [|n IH]; intros rows Hle.
  - reflexivity.
  - change (join NL (repeat (js "a") (S (S n))))
      with (97%N :: NL :: join NL (repeat (js "a") (S n))).
    cbn [lexLoop]. change (97 =? QUOTE)%N with false. change (97 =? COMMA)%N with false.
    change (97 =? NL)%N with false. cbn iota.
    change (NL =? QUOTE)%N with false. change (NL =? COMMA)%N with false.
    change (NL =? NL)%N with true. cbn iota.
    change (pushRow rows ([] ++ [[] ++ [97%N]])) with (pushRow rows [js "a"]).
    rewrite pushRow_keepRows. change (keepRows [[js "a"]]) with [[js "a"]].
    destruct (Z.gtb_spec (Z.of_nat (length (rows ++ [[js "a"]]))) maxRows) as [Hgt|_].
    + rewrite length_app in Hgt. simpl in Hgt. lia.
    + rewrite IH.
      * rewrite <- app_assoc. reflexivity.
      * rewrite length_app. simpl. lia.
Qed.

Lemma join_lines_noCR (n : nat) :
  Forall (fun c => c <> CR) (join NL (repeat (js "a") (S n))).
Proof.
  induction n as [|n IH].
  - repeat constructor. discriminate.
  - change (join NL (repeat (js "a") (S (S n))))
      with (97%N :: NL :: join NL (repeat (js "a") (S n))).
    repeat constructor; try discriminate. exact IH.
Qed.

Lemma parseCsvText_lines (maxRows maxCols : Z) (n : nat) :
  Z.of_nat n <= maxRows ->
  parseCsvText (join NL (repeat (js "a") (S n))) maxRows maxCols
  = Ok (repeat [js "a"] (S n)).
Proof.
  intros H. unfold parseCsvText.
  rewrite (normalizeNewlines_noCR _ (join_lines_noCR n)).
  now rewrite lexLoop_lines.
Qed.

(** C1 (the failing inputs). A row of 201 fields, one more than the column
    cap, is lexed without an error and the extraction returns; so is a text
    of 250001 rows, one more than the row cap, whose last row has no line
    feed. The cap on columns is only tested at a comma and the cap on rows
    only at a line feed, so the last field of a row and the last row of the
    text are never counted. *)
Theorem parseCsvText_misses_caps_by_one :
  parseCsvText (join COMMA (repeat (js "a") 201)) 250000 200
  = Ok [repeat (js "a") 201]
  /\ (forall toLowerCase,
       parseHistoricalResultsByCountCsv toLowerCase (join COMMA (repeat (js "a") 201))
       = Ok (extractTables toLowerCase [repeat (js "a") 201]))
  /\ parseCsvText (join NL (repeat (js "a") (S (Z.to_nat 250000)))) 250000 200
     = Ok (repeat [js "a"] (S (Z.to_nat 250000))).
Proof.
  assert (H : parseCsvText (join COMMA (repeat (js "a") 201)) 250000 200
              = Ok [repeat (js "a") 201]) by (vm_compute; reflexivity).
  split; [exact H|]. split.
  - intros toLowerCase. unfold parseHistoricalResultsByCountCsv. now rewrite H.
  - apply parseCsvText_lines. rewrite Z2Nat.id; lia.
Qed.

(** C6. Whenever [parseCsvText] returns, its rows are the raw rows of the
    text, each without its trailing empty or white-space-only fields, and
    without the rows this leaves empty; no returned row is empty. The lines
    [a,b,,] and [a,b] are lexed to the same row. *)
Theorem parseCsvText_trims_and_drops :
  (parseCsvText (js "a,b,,") 250000 200 = Ok [[js "a"; js "b"]]
   /\ parseCsvText (js "a,b") 250000 200 = Ok [[js "a"; js "b"]])
  /\ forall text maxRows maxCols rows,
       parseCsvText text maxRows maxCols = Ok rows ->
       (exists trimmed,
           Forall2 TrimmedOf (rawRows text) trimmed
           /\ rows = filter (fun r => negb (isNil r)) trimmed)
       /\ Forall (fun r => r <> []) rows.
Proof.
  split; [split; vm_compute; reflexivity|].
  intros text maxRows maxCols rows H.
  apply parseCsvText_rawRows in H. subst rows. split.
  - exists (map popBlank (rawRows text)). split; [|reflexivity].
    induction (rawRows text) as [|raw g IH]; simpl; constructor;
      [apply popBlank_TrimmedOf | exact IH].
  - apply keepRows_no_empty.
Qed.

Lemma parseCsvText_trims_and_drops_witness :
  parseCsvText (js " ,,a,b, ,") 250000 200 = Ok [[js " "; js ""; js "a"; js "b"]]
  /\ (exists trimmed,
         Forall2 TrimmedOf (rawRows (js " ,,a,b, ,")) trimmed
         /\ [[js " "; js ""; js "a"; js "b"]] = filter (fun r => negb (isNil r)) trimmed)
  /\ Forall (fun r : Row => r <> []) [[js " "; js ""; js "a"; js "b"]].
Proof.
  assert (H : parseCsvText (js " ,,a,b, ,") 250000 200
              = Ok [[js " "; js ""; js "a"; js "b"]]) by (vm_compute; reflexivity).
  split; [exact H|].
  exact (proj2 parseCsvText_trims_and_drops _ _ _ _ H).
Defined.

(** ** The composite-header parser *)

Lemma forallb_Forall_true {A} (p : A -> bool) (l : list A) :
  forallb p l = true <-> Forall (fun y => p y = true) l.
Proof.
  rewrite forallb_forall, Forall_forall. reflexivity.
Qed.

Lemma takeWhile_app_false {A} (p : A -> bool) (l : list A) (x : A) (l' : list A) :
  p x = false -> forallb p l = true -> takeWhile p (l ++ x :: l') = l.
Proof.
  intros Hx Hl. induction l as [|y l IH]; simpl in *.
  - now rewrite Hx.
  - apply andb_true_iff in Hl. destruct Hl as [Hy Hl]. rewrite Hy. now rewrite IH.
Qed.

Lemma dropWhile_app_false' {A} (p : A -> bool) (l : list A) (x : A) (l' : list A) :
  p x = false -> forallb p l = true -> dropWhile p (l ++ x :: l') = x :: l'.
Proof.
  intros Hx Hl. apply dropWhile_app_false; [assumption|].
  now apply forallb_Forall_true.
Qed.

Lemma takeWhile_forallb {A} (p : A -> bool) (l : list A) :
  forallb p (takeWhile p l) = true.
Proof. apply forallb_Forall_true, takeWhile_all. Qed.

Lemma matchYear_Some (s y t : jsstring) :
  matchYear s = Some (y, t) -> s = y ++ t /\ isYearText y.
Proof.
  unfold matchYear. destruct s as [|a [|b [|c [|d u]]]]; try discriminate.
  destruct (_ && isDigit c && isDigit d) eqn:E; [|discriminate].
  intros H. injection H as <- <-. split; [reflexivity|].
  apply andb_true_iff in E. destruct E as [E Hd].
  apply andb_true_iff in E. destruct E as [E Hc].
  exists c, d. split; [|split; assumption].
  apply orb_true_iff in E. destruct E as [E|E];
    apply andb_true_iff in E; destruct E as [Ea Eb];
    apply N.eqb_eq in Ea, Eb; subst; [left | right]; reflexivity.
Qed.

Lemma matchYear_year (y t : jsstring) :
  isYearText y -> matchYear (y ++ t) = Some (y, t).
Proof.
  intros (c & d & [-> | ->] & Hc & Hd); simpl; now rewrite Hc, Hd.
Qed.

Lemma isYearText_head (y : jsstring) :
  isYearText y -> exists a y', y = a :: y' /\ isWhiteSpace a = false.
Proof.
  intros (c & d & [-> | ->] & _); eexists _, _; split; reflexivity.
Qed.

Lemma matchChar_Some (ch : N) (s t : jsstring) :
  matchChar ch s = Some t -> s = ch :: t.
Proof.
  destruct s as [|c u]; simpl; [discriminate|].
  destruct (N.eqb_spec c ch); [|discriminate].
  intros H. injection H as <-. now subst.
Qed.

Lemma matchDigits_Some (s ds t : jsstring) :
  matchDigits s = Some (ds, t) ->
  s = ds ++ t /\ ds <> [] /\ forallb isDigit ds = true.
Proof.
  unfold matchDigits. destruct (takeWhile isDigit s) as [|c u] eqn:E;
    simpl; [discriminate|].
  intros H. injection H as <- <-. rewrite <- E. repeat split.
  - symmetry. apply takeWhile_dropWhile.
  - rewrite E. discriminate.
  - apply takeWhile_forallb.
Qed.

Lemma matchYearHeader_iff (head : jsstring) :
  matchYearHeader head <> None <-> MatchesYearHeader head.
Proof.
  unfold matchYearHeader, skipWhiteSpace. split.
  - destruct (matchYear _) as [[y t]|] eqn:Ey; [|congruence].
    destruct (matchChar LBRACKET _) as [u|] eqn:Eb; [|congruence].
    destruct (matchDigits u) as [[idx v]|] eqn:Ed; [|congruence].
    destruct (matchChar RBRACKET v) as [rest|] eqn:Er; [|congruence].
    intros _.
    apply matchYear_Some in Ey. destruct Ey as [Ey Hy].
    apply matchChar_Some in Eb, Er.
    apply matchDigits_Some in Ed. destruct Ed as (Ed & Hne & Hds).
    exists (takeWhile isWhiteSpace head), y, (takeWhile isWhiteSpace t), idx, rest.
    repeat split; try assumption; try apply takeWhile_forallb.
    rewrite <- (takeWhile_dropWhile isWhiteSpace head) at 1. f_equal.
    rewrite Ey. f_equal.
    rewrite <- (takeWhile_dropWhile isWhiteSpace t) at 1. f_equal.
    rewrite Eb. f_equal. rewrite Ed. f_equal. exact Er.
  - intros (ws1 & y & ws2 & idx & rest & -> & Hw1 & Hy & Hw2 & Hne & Hds).
    destruct (isYearText_head y Hy) as (a & y' & Ey & Ha).
    assert (E1 : dropWhile isWhiteSpace
                   (ws1 ++ y ++ ws2 ++ LBRACKET :: idx ++ RBRACKET :: rest)
                 = y ++ ws2 ++ LBRACKET :: idx ++ RBRACKET :: rest).
    { rewrite Ey. simpl. now apply dropWhile_app_false'. }
    rewrite E1, (matchYear_year _ _ Hy).
    rewrite (dropWhile_app_false' isWhiteSpace ws2 LBRACKET) by (assumption || reflexivity).
    simpl. unfold matchDigits.
    rewrite (takeWhile_app_false isDigit idx RBRACKET) by (assumption || reflexivity).
    rewrite (dropWhile_app_false' isDigit idx RBRACKET) by (assumption || reflexivity).
    destruct idx; [congruence|]. simpl. discriminate.
Qed.

(** C4 (as stated). The cell made of a space and the text 1987[3] has a
    first line that does not start with a year, yet the parser accepts it. *)
Lemma parseYearHeaderCell_counterexample :
  ~ StartsWithYearIndex (firstLine (normalizeNewlines (js " 1987[3]")))
  /\ parseYearHeaderCell (js " 1987[3]")
     = Some {| Header.Year := Some 1987; Header.CountIndex := Some 3;
               Header.CountDate := None; Header.NumParticipants := None;
               Header.NumSpeciesReported := None; Header.TotalHrs := None |}.
Proof.
  split; [|vm_compute; reflexivity].
  intros (y & idx & rest & Heq & (c & d & [-> | ->] & _) & _);
    vm_compute in Heq; discriminate.
Qed.

(** C4 (amended). The cell of the example is parsed to the record of the
    example. A cell is refused exactly when its first line does not consist
    of optional white space, a year [19dd] or [20dd], optional white space
    and a bracketed index of one or more digits, followed by anything. *)
Theorem parseYearHeaderCell_example_and_refusal :
  parseYearHeaderCell
    (lines ["1987[3]"; "Count Date: 12/27/1987"; "# Participants: 42";
            "# Species Reported: 87"; "Total Hrs.: 6.5"]%string)
  = Some {| Header.Year := Some 1987; Header.CountIndex := Some 3;
            Header.CountDate := Some (js "12/27/1987");
            Header.NumParticipants := Some (Int 42);
            Header.NumSpeciesReported := Some (Int 87);
            Header.TotalHrs := Some (Finite (13 # 2)) |}
  /\ forall cell,
       parseYearHeaderCell cell = None
       <-> ~ MatchesYearHeader (firstLine (normalizeNewlines cell)).
Proof.
  split; [vm_compute; reflexivity|].
  intros cell. rewrite <- matchYearHeader_iff. unfold parseYearHeaderCell.
  destruct (matchYearHeader _) as [[y idx]|].
  - split; [discriminate|]. intros H. exfalso. apply H. discriminate.
  - split; [intros _ H; now apply H | reflexivity].
Qed.

(** ** The section scanner *)

Section EngineProperties.

Variable toLowerCase : jsstring -> jsstring.

(** *** Count information *)

Lemma scanInlineCells_CountId (r : Row) (cells : Row) :
  forall j ci,
    CountInfo.CountId (scanInlineCells toLowerCase r j cells ci)
    = CountInfo.CountId ci.
Proof.
  induction cells as [|c cs IH]; intros j ci; simpl; [reflexivity|].
  destruct (isEmpty (norm (Some c))); [apply IH|].
  destruct (_ || _).
  - rewrite IH. now destruct (inlineValue _ _ _).
  - destruct (_ || _); [|apply IH].
    rewrite IH. now destruct (inlineValue _ _ _).
Qed.

Lemma scanCompilerRow_CountId (r next : Row) (ci : CountInfo.t) :
  CountInfo.CountId (scanCompilerRow toLowerCase r next ci) = CountInfo.CountId ci.
Proof.
  unfold scanCompilerRow. destruct r as [|c cs]; [reflexivity|].
  rewrite scanInlineCells_CountId. now destruct (_ <? _)%nat.
Qed.

Lemma scanCompiler_CountId (n : nat) :
  forall rows ci,
    CountInfo.CountId (scanCompiler toLowerCase n rows ci) = CountInfo.CountId ci.
Proof.
  induction n as [|n IH]; intros rows ci; simpl; [reflexivity|].
  destruct rows as [|r rest]; [reflexivity|].
  rewrite IH. apply scanCompilerRow_CountId.
Qed.

Lemma scanCircle_CountId (n : nat) :
  forall rows ci,
    CountInfo.CountId (scanCircle n rows ci) = CountInfo.CountId ci.
Proof.
  induction n as [|n IH]; intros rows ci; simpl; [reflexivity|].
  destruct rows as [|r rest]; [reflexivity|].
  destruct (_ && _); [reflexivity | apply IH].
Qed.

Lemma extractTables_CountId (rows : list Row) :
  CountInfo.CountId (countInfo (extractTables toLowerCase rows)) = None.
Proof.
  unfold extractTables. cbn [countInfo].
  now rewrite scanCircle_CountId, scanCompiler_CountId.
Qed.

Lemma parseHistoricalResultsByCountCsv_Ok (text : jsstring) (res : ExtractionResult) :
  parseHistoricalResultsByCountCsv toLowerCase text = Ok res ->
  exists rows,
    parseCsvText text 250000 200 = Ok rows /\ res = extractTables toLowerCase rows.
Proof.
  unfold parseHistoricalResultsByCountCsv.
  destruct (parseCsvText text 250000 200) as [rows|e]; [|discriminate].
  intros H. injection H as <-. eauto.
Qed.

(** *** Weather, participation and effort: the rows collected *)

Lemma weatherRows_index (ds : list Row) :
  Forall (fun r => Weather.CountIndex r <> 0
                   /\ exists d, In d ds /\ isDataRow d = true
                                /\ parseMaybeInt (nth_error d 0)
                                   = Some (Weather.CountIndex r))
         (weatherRows ds).
Proof.
  induction ds as [|d ds IH]; simpl; [constructor|].
  assert (IH' : Forall (fun r => Weather.CountIndex r <> 0
                   /\ exists d0, In d0 (d :: ds) /\ isDataRow d0 = true
                                 /\ parseMaybeInt (nth_error d0 0)
                                    = Some (Weather.CountIndex r))
                  (weatherRows ds)).
  { eapply Forall_impl; [|exact IH]. simpl.
    intros r (Hr & d0 & Hin & Hd). split; [assumption|]. exists d0. tauto. }
  destruct (length d =? 0)%nat eqn:El; [constructor|].
  destruct (isNumericLike (nth_error d 0)) eqn:En; simpl; [|constructor].
  destruct (parseMaybeInt (nth_error d 0)) as [k|] eqn:Ek; [|assumption].
  destruct (Z.eqb_spec k 0); [assumption|].
  constructor; [|assumption]. simpl. split; [assumption|].
  exists d. unfold isDataRow. rewrite El, En. auto.
Qed.

Lemma scanWeather_index (rows : list Row) :
  Forall (fun r => Weather.CountIndex r <> 0
                   /\ exists d, In d rows /\ isDataRow d = true
                                /\ parseMaybeInt (nth_error d 0)
                                   = Some (Weather.CountIndex r))
         (scanWeather toLowerCase rows).
Proof.
  induction rows as [|r rest IH]; simpl; [constructor|].
  destruct (isWeatherSentinel toLowerCase r).
  - eapply Forall_impl; [|apply weatherRows_index]. simpl.
    intros w (Hw & d & Hin & Hd). split; [assumption|]. exists d. tauto.
  - eapply Forall_impl; [|exact IH]. simpl.
    intros w (Hw & d & Hin & Hd). split; [assumption|]. exists d. tauto.
Qed.

Lemma effortRows_index (ds : list Row) :
  Forall (fun r => Effort.CountIndex r <> 0
                   /\ Effort.Year r = None
                   /\ exists d, In d ds /\ isDataRow d = true
                                /\ parseMaybeInt (nth_error d 0)
                                   = Some (Effort.CountIndex r))
         (effortRows ds).
Proof.
  induction ds as [|d ds IH]; simpl; [constructor|].
  assert (IH' : Forall (fun r => Effort.CountIndex r <> 0
                   /\ Effort.Year r = None
                   /\ exists d0, In d0 (d :: ds) /\ isDataRow d0 = true
                                 /\ parseMaybeInt (nth_error d0 0)
                                    = Some (Effort.CountIndex r))
                  (effortRows ds)).
  { eapply Forall_impl; [|exact IH]. simpl.
    intros r (Hr & Hy & d0 & Hin & Hd). repeat split; try assumption.
    exists d0. tauto. }
  destruct (length d =? 0)%nat eqn:El; [constructor|].
  destruct (isNumericLike (nth_error d 0)) eqn:En; simpl; [|constructor].
  destruct (parseMaybeInt (nth_error d 0)) as [k|] eqn:Ek; [|assumption].
  destruct (Z.eqb_spec k 0); [assumption|].
  constructor; [|assumption]. simpl. repeat split; try assumption.
  exists d. unfold isDataRow. rewrite El, En. auto.
Qed.

Lemma scanEffort_index (rows : list Row) :
  Forall (fun r => Effort.CountIndex r <> 0
                   /\ Effort.Year r = None
                   /\ exists d, In d rows /\ isDataRow d = true
                                /\ parseMaybeInt (nth_error d 0)
                                   = Some (Effort.CountIndex r))
         (scanEffort rows).
Proof.
  induction rows as [|r rest IH]; simpl; [constructor|].
  destruct (isEffortSentinel r).
  - eapply Forall_impl; [|apply effortRows_index]. simpl.
    intros w (Hw & Hy & d & Hin & Hd). repeat split; try assumption.
    exists d. tauto.
  - eapply Forall_impl; [|exact IH]. simpl.
    intros w (Hw & Hy & d & Hin & Hd). repeat split; try assumption.
    exists d. tauto.
Qed.

(** The inner loop stops at the first row that is empty or whose first cell
    is not numeric-looking: the rows after it are not read. *)
Lemma weatherRows_stops (pre : list Row) (stop : Row) (post : list Row) :
  Forall (fun d => isDataRow d = true) pre ->
  isDataRow stop = false ->
  weatherRows (pre ++ stop :: post) = weatherRows pre.
Proof.
  unfold isDataRow. intros Hpre Hstop.
  induction Hpre as [|d pre Hd _ IH]; simpl.
  - destruct (length stop =? 0)%nat; [reflexivity|].
    simpl in Hstop. now rewrite Hstop.
  - apply andb_true_iff in Hd. destruct Hd as [Hl Hn].
    apply negb_true_iff in Hl. rewrite Hl, Hn, IH. reflexivity.
Qed.

Lemma effortRows_stops (pre : list Row) (stop : Row) (post : list Row) :
  Forall (fun d => isDataRow d = true) pre ->
  isDataRow stop = false ->
  effortRows (pre ++ stop :: post) = effortRows pre.
Proof.
  unfold isDataRow. intros Hpre Hstop.
  induction Hpre as [|d pre Hd _ IH]; simpl.
  - destruct (length stop =? 0)%nat; [reflexivity|].
    simpl in Hstop. now rewrite Hstop.
  - apply andb_true_iff in Hd. destruct Hd as [Hl Hn].
    apply negb_true_iff in Hl. rewrite Hl, Hn, IH. reflexivity.
Qed.

(** *** The species loop and the participation/effort records *)

Lemma Preserved_refl (r : Effort.t) : Preserved r r.
Proof. unfold Preserved. tauto. Qed.

Lemma Preserved_trans (r1 r2 r3 : Effort.t) :
  Preserved r1 r2 -> Preserved r2 r3 -> Preserved r1 r3.
Proof.
  intros (Hi & Hy & Hd & Hp & Hs & Hh) (Hi' & Hy' & Hd' & Hp' & Hs' & Hh').
  unfold Preserved. repeat split.
  - congruence.
  - congruence.
  - intros H. rewrite <- (Hd H). apply Hd'. rewrite (Hd H). exact H.
  - intros H. rewrite <- (Hp H). apply Hp'. rewrite (Hp H). exact H.
  - intros H. rewrite <- (Hs H). apply Hs'. rewrite (Hs H). exact H.
  - intros H. rewrite <- (Hh H). apply Hh'. rewrite (Hh H). exact H.
Qed.

Lemma fillFromHeader_Preserved (yh : Header.t) (r : Effort.t) :
  Preserved r (fillFromHeader yh r).
Proof.
  unfold Preserved, fillFromHeader. simpl. repeat split.
  - intros H. now rewrite H.
  - destruct (Effort.NumParticipants r); [reflexivity | congruence].
  - destruct (Effort.NumSpeciesReported r); [reflexivity | congruence].
  - destruct (Effort.NumHours r); [reflexivity | congruence].
Qed.

Lemma Forall2_Preserved_refl (pe : list Effort.t) : Forall2 Preserved pe pe.
Proof. induction pe; constructor; [apply Preserved_refl | assumption]. Qed.

Lemma Forall2_Preserved_trans (l1 l2 l3 : list Effort.t) :
  Forall2 Preserved l1 l2 -> Forall2 Preserved l2 l3 -> Forall2 Preserved l1 l3.
Proof.
  intros H. revert l3. induction H as [|a b l1 l2 Hab _ IH]; intros l3 H3.
  - inversion H3. constructor.
  - inversion H3 as [|b' c l2' l3' Hbc Hrest]; subst.
    constructor; [eapply Preserved_trans; eassumption | now apply IH].
Qed.

Lemma updateExisting_Preserved (idx : Z) (yh : Header.t) (pe : list Effort.t) :
  Forall2 Preserved pe (updateExisting idx yh pe).
Proof.
  induction pe as [|r pe IH]; simpl; [constructor|].
  destruct (Effort.CountIndex r =? idx).
  - constructor; [apply fillFromHeader_Preserved | apply Forall2_Preserved_refl].
  - constructor; [apply Preserved_refl | exact IH].
Qed.

(** The array after one row of the species loop: untouched, or updated at
    the index of the composite header of the row. *)
Lemma speciesRow_effort (d : Row) (st : ScanState) :
  stEffort (speciesRow d st) = stEffort st
  \/ exists yh idx,
       parseYearHeaderCell (strOf (nth_error d 1)) = Some yh
       /\ Header.CountIndex yh = Some idx
       /\ stEffort (speciesRow d st) = updateExisting idx yh (stEffort st).
Proof.
  unfold speciesRow.
  destruct (_ || _); [now left|].
  destruct (parseYearHeaderCell _) as [yh|] eqn:Ey; [|now left].
  destruct (Header.CountIndex yh) as [idx|] eqn:Ei; [|now left].
  destruct (Header.Year yh) as [y|]; [|now left].
  right. exists yh, idx. simpl. auto.
Qed.

Lemma speciesRow_Preserved (d : Row) (st : ScanState) :
  Forall2 Preserved (stEffort st) (stEffort (speciesRow d st)).
Proof.
  destruct (speciesRow_effort d st) as [-> | (yh & idx & _ & _ & ->)].
  - apply Forall2_Preserved_refl.
  - apply updateExisting_Preserved.
Qed.

Lemma speciesLoop_Preserved (ds : list Row) :
  forall st, Forall2 Preserved (stEffort st) (stEffort (speciesLoop ds st)).
Proof.
  induction ds as [|d ds IH]; intros st; simpl.
  - apply Forall2_Preserved_refl.
  - destruct (length d =? 0)%nat; [apply Forall2_Preserved_refl|].
    eapply Forall2_Preserved_trans; [apply speciesRow_Preserved | apply IH].
Qed.

Lemma scanSpecies_Preserved (rows : list Row) (pe : list Effort.t) :
  Forall2 Preserved pe (stEffort (scanSpecies rows pe)).
Proof.
  unfold scanSpecies. destruct (speciesSection rows) as [ds|].
  - apply (speciesLoop_Preserved ds
             {| stMeta := []; stMetaSeen := []; stEffort := pe; stCounts := [] |}).
  - apply Forall2_Preserved_refl.
Qed.

Lemma updateExisting_first (idx : Z) (yh : Header.t) (l1 : list Effort.t)
    (r : Effort.t) (l2 : list Effort.t) :
  Forall (fun x => Effort.CountIndex x <> idx) l1 ->
  Effort.CountIndex r = idx ->
  updateExisting idx yh (l1 ++ r :: l2) = l1 ++ fillFromHeader yh r :: l2.
Proof.
  intros H1 Hr. induction H1 as [|x l1 Hx _ IH]; simpl.
  - apply Z.eqb_eq in Hr. now rewrite Hr.
  - apply Z.eqb_neq in Hx. rewrite Hx. now rewrite IH.
Qed.

Lemma updateExisting_none (idx : Z) (yh : Header.t) (pe : list Effort.t) :
  Forall (fun x => Effort.CountIndex x <> idx) pe ->
  updateExisting idx yh pe = pe.
Proof.
  induction 1 as [|x l Hx _ IH]; simpl; [reflexivity|].
  apply Z.eqb_neq in Hx. rewrite Hx. now rewrite IH.
Qed.

End EngineProperties.

Lemma Forall2_Forall_transfer {A} (R : A -> A -> Prop) (P : A -> Prop)
    (l l' : list A) :
  (forall a b, R a b -> P a -> P b) ->
  Forall2 R l l' -> Forall P l -> Forall P l'.
Proof.
  intros HRP H. induction H as [|a b l l' Hab _ IH]; intros HP.
  - constructor.
  - inversion HP; subst. constructor; [eapply HRP; eassumption | now apply IH].
Qed.

(** C8. Every record of [weatherRaw] and of [participantsEffort] has a
    nonzero integer [CountIndex], and it is the integer coercion of the first
    cell of a data row of the grid: a row whose coercion is [null] or zero
    emits no record. *)
Theorem records_have_nonzero_CountIndex :
  forall toLowerCase text res,
    parseHistoricalResultsByCountCsv toLowerCase text = Ok res ->
    exists rows,
      parseCsvText text 250000 200 = Ok rows
      /\ Forall (fun r => Weather.CountIndex r <> 0
                          /\ exists d, In d rows /\ isDataRow d = true
                                       /\ parseMaybeInt (nth_error d 0)
                                          = Some (Weather.CountIndex r))
                (weatherRaw res)
      /\ Forall (fun r => Effort.CountIndex r <> 0
                          /\ exists d, In d rows /\ isDataRow d = true
                                       /\ parseMaybeInt (nth_error d 0)
                                          = Some (Effort.CountIndex r))
                (participantsEffort res).
Proof.
  intros toLowerCase text res H.
  apply parseHistoricalResultsByCountCsv_Ok in H. destruct H as (rows & Hrows & ->).
  exists rows. split; [assumption|]. split.
  - apply scanWeather_index.
  - unfold extractTables. cbn [participantsEffort].
    eapply Forall2_Forall_transfer;
      [| apply scanSpecies_Preserved
       | eapply Forall_impl; [|apply (scanEffort_index rows)]].
    + intros a b (Hi & _) Ha. rewrite Hi. exact Ha.
    + simpl. intros r (Hr & _ & Hd). split; assumption.
Qed.

Lemma records_have_nonzero_CountIndex_witness :
  exists rows,
    parseCsvText (lines ["CountYear3,LowTemp"; "0,1,2"; "3,28.4F,41";
                         "CountYear5"; "-0,x"; "4,12/27/1987,42"]%string) 250000 200
    = Ok rows
    /\ Forall (fun r => Weather.CountIndex r <> 0
                        /\ exists d, In d rows /\ isDataRow d = true
                                     /\ parseMaybeInt (nth_error d 0)
                                        = Some (Weather.CountIndex r))
              [weatherRecord 3 [js "3"; js "28.4F"; js "41"]]
    /\ Forall (fun r => Effort.CountIndex r <> 0
                        /\ exists d, In d rows /\ isDataRow d = true
                                     /\ parseMaybeInt (nth_error d 0)
                                        = Some (Effort.CountIndex r))
              [effortRecord 4 [js "4"; js "12/27/1987"; js "42"]].
Proof.
  apply (records_have_nonzero_CountIndex asciiToLowerCase
           (lines ["CountYear3,LowTemp"; "0,1,2"; "3,28.4F,41";
                   "CountYear5"; "-0,x"; "4,12/27/1987,42"]%string)
           {| countInfo := emptyCountInfo; meta := [];
              participantsEffort := [effortRecord 4 [js "4"; js "12/27/1987"; js "42"]];
              weatherRaw := [weatherRecord 3 [js "3"; js "28.4F"; js "41"]];
              speciesTable := []; years := [] |}).
  vm_compute. reflexivity.
Defined.

(** C10. The [CountId] of the returned [countInfo] is [null] for every
    text the extraction returns on. *)
Theorem CountId_is_null :
  forall toLowerCase text res,
    parseHistoricalResultsByCountCsv toLowerCase text = Ok res ->
    CountInfo.CountId (countInfo res) = None.
Proof.
  intros toLowerCase text res H.
  apply parseHistoricalResultsByCountCsv_Ok in H. destruct H as (rows & _ & ->).
  apply extractTables_CountId.
Qed.

Lemma CountId_is_null_witness :
  CountInfo.CountId
    {| CountInfo.CountName := Some (js "Putah Creek");
       CountInfo.CountCode := Some (js "CAPC");
       CountInfo.CountId := None;
       CountInfo.Lat := Some (Finite (77 # 2));
       CountInfo.Lon := Some (Finite (-122 # 1));
       CountInfo.CompilerFirstName := None;
       CountInfo.CompilerLastName := None;
       CountInfo.CompilerName := Some (js "Jo Doe");
       CountInfo.CompilerEmail := None |} = None.
Proof.
  apply (CountId_is_null asciiToLowerCase
           (lines ["Compiler: Jo Doe"; "CircleName,Abbrev,LatLong";
                   "Putah Creek,CAPC,38.5/-122"]%string)
           {| countInfo := _; meta := []; participantsEffort := [];
              weatherRaw := []; speciesTable := []; years := [] |}).
  vm_compute. reflexivity.
Defined.

Lemma weatherRows_data (pre : list Row) :
  Forall (fun d => isDataRow d = true) pre ->
  weatherRows pre = flat_map weatherOf pre.
Proof.
  unfold isDataRow, weatherOf. induction 1 as [|d pre Hd _ IH]; simpl; [reflexivity|].
  apply andb_true_iff in Hd. destruct Hd as [Hl Hn].
  apply negb_true_iff in Hl. rewrite Hl, Hn. simpl.
  destruct (parseMaybeInt (nth_error d 0)) as [k|]; [|exact IH].
  destruct (k =? 0); simpl; now rewrite IH.
Qed.

Lemma effortRows_data (pre : list Row) :
  Forall (fun d => isDataRow d = true) pre ->
  effortRows pre = flat_map effortOf pre.
Proof.
  unfold isDataRow, effortOf. induction 1 as [|d pre Hd _ IH]; simpl; [reflexivity|].
  apply andb_true_iff in Hd. destruct Hd as [Hl Hn].
  apply negb_true_iff in Hl. rewrite Hl, Hn. simpl.
  destruct (parseMaybeInt (nth_error d 0)) as [k|]; [|exact IH].
  destruct (k =? 0); simpl; now rewrite IH.
Qed.

Lemma scanWeather_sentinel (toLowerCase : jsstring -> jsstring)
    (before : list Row) (r : Row) (rest : list Row) :
  Forall (fun x => isWeatherSentinel toLowerCase x = false) before ->
  isWeatherSentinel toLowerCase r = true ->
  scanWeather toLowerCase (before ++ r :: rest) = weatherRows rest.
Proof.
  intros Hb Hr. induction Hb as [|x before Hx _ IH]; simpl.
  - now rewrite Hr.
  - now rewrite Hx.
Qed.

Lemma scanEffort_sentinel (before : list Row) (r : Row) (rest : list Row) :
  Forall (fun x => isEffortSentinel x = false) before ->
  isEffortSentinel r = true ->
  scanEffort (before ++ r :: rest) = effortRows rest.
Proof.
  intros Hb Hr. induction Hb as [|x before Hx _ IH]; simpl.
  - now rewrite Hr.
  - now rewrite Hx.
Qed.

(** C3 (as stated). In the text whose lines are the weather sentinel, the
    row [1,20,30], a blank line and the row [2,25,35], the row after the
    blank line is collected: it is not true that the record of index 2 is
    left out. *)
Lemma blank_line_counterexample :
  ~ (forall res,
        parseHistoricalResultsByCountCsv asciiToLowerCase
          (lines ["CountYear3,LowTemp"; "1,20,30"; ""; "2,25,35"]%string) = Ok res ->
        ~ In 2 (map Weather.CountIndex (weatherRaw res))).
Proof.
  intros H.
  remember (parseHistoricalResultsByCountCsv _ _) as r eqn:E.
  vm_compute in E. subst r.
  apply (H _ eq_refl). simpl. auto.
Qed.

(** C3 (amended). On a row grid the scan of the weather section, and of the
    participation/effort section, takes the rows after the first sentinel,
    collects the consecutive data rows (one record each, none when the index
    is [null] or zero) and stops at the first row that is empty or whose
    first cell is not numeric-looking. A blank line of the text leaves no
    row in the grid, so it does not end the section: the numeric-leading row
    after it is collected. *)
Theorem section_scan_stops_on_the_grid :
  (forall toLowerCase before r rest,
      Forall (fun x => isWeatherSentinel toLowerCase x = false) before ->
      isWeatherSentinel toLowerCase r = true ->
      scanWeather toLowerCase (before ++ r :: rest) = weatherRows rest)
  /\ (forall before r rest,
         Forall (fun x => isEffortSentinel x = false) before ->
         isEffortSentinel r = true ->
         scanEffort (before ++ r :: rest) = effortRows rest)
  /\ (forall pre stop post,
         Forall (fun d => isDataRow d = true) pre ->
         isDataRow stop = false ->
         weatherRows (pre ++ stop :: post) = flat_map weatherOf pre
         /\ effortRows (pre ++ stop :: post) = flat_map effortOf pre)
  /\ (forall pre,
         Forall (fun d => isDataRow d = true) pre ->
         weatherRows pre = flat_map weatherOf pre
         /\ effortRows pre = flat_map effortOf pre)
  /\ (forall text maxRows maxCols rows,
         parseCsvText text maxRows maxCols = Ok rows ->
         Forall (fun d => d <> []) rows)
  /\ (exists res,
         parseHistoricalResultsByCountCsv asciiToLowerCase
           (lines ["CountYear3,LowTemp"; "1,20,30"; ""; "2,25,35"]%string) = Ok res
         /\ map Weather.CountIndex (weatherRaw res) = [1; 2])
  /\ (exists res,
         parseHistoricalResultsByCountCsv asciiToLowerCase
           (lines ["CountYear5"; "1,12/27/1987,4"; ""; "2,12/26/1988,5"]%string) = Ok res
         /\ map Effort.CountIndex (participantsEffort res) = [1; 2]).
Proof.
  split; [apply scanWeather_sentinel|]. split; [apply scanEffort_sentinel|].
  split; [|split; [|split; [|split]]].
  - intros pre stop post Hpre Hstop.
    rewrite weatherRows_stops, effortRows_stops by assumption.
    split; [now apply weatherRows_data | now apply effortRows_data].
  - intros pre Hpre.
    split; [now apply weatherRows_data | now apply effortRows_data].
  - intros text maxRows maxCols rows H.
    apply parseCsvText_rawRows in H. subst rows. apply keepRows_no_empty.
  - remember (parseHistoricalResultsByCountCsv _ _) as r eqn:E.
    vm_compute in E. subst r. eexists. split; reflexivity.
  - remember (parseHistoricalResultsByCountCsv _ _) as r eqn:E.
    vm_compute in E. subst r. eexists. split; reflexivity.
Qed.

Lemma section_scan_stops_on_the_grid_witness :
  let pre := [[js "1"; js "20"; js "30"]; [js "0"; js "21"]] in
  let stop := [js "Total"; js "2"] in
  let post := [[js "2"; js "25"; js "35"]] in
  Forall (fun d => isDataRow d = true) pre
  /\ isDataRow stop = false
  /\ weatherRows (pre ++ stop :: post) = [weatherRecord 1 [js "1"; js "20"; js "30"]]
  /\ effortRows (pre ++ stop :: post) = [effortRecord 1 [js "1"; js "20"; js "30"]].
Proof.
  intros pre stop post.
  assert (H1 : Forall (fun d => isDataRow d = true) pre)
    by (repeat constructor).
  assert (H2 : isDataRow stop = false) by reflexivity.
  split; [exact H1|]. split; [exact H2|].
  exact (proj1 (proj2 (proj2 section_scan_stops_on_the_grid)) pre stop post H1 H2).
Defined.

Lemma speciesRow_headerStep (d : Row) (st : ScanState) :
  stEffort (speciesRow d st) = headerStep (stEffort st) d.
Proof.
  unfold speciesRow, headerStep, rowHeader.
  destruct (isEmpty (trim (strOf (nth_error d 0))) || falsy (nth_error d 1));
    [reflexivity|].
  destruct (parseYearHeaderCell (strOf (nth_error d 1))) as [yh|]; [|reflexivity].
  destruct (Header.CountIndex yh) as [idx|]; [|reflexivity].
  destruct (Header.Year yh) as [y|]; reflexivity.
Qed.

Lemma speciesLoop_headerStep (ds : list Row) :
  forall st,
    stEffort (speciesLoop ds st)
    = fold_left headerStep (takeWhile (fun d => negb (isNil d)) ds) (stEffort st).
Proof.
  induction ds as [|d ds IH]; intros st; [reflexivity|].
  cbn [speciesLoop takeWhile]. destruct d as [|c d'].
  - reflexivity.
  - cbn [length Nat.eqb isNil negb fold_left].
    rewrite IH. now rewrite speciesRow_headerStep.
Qed.

(** C9. A composite header fills a field of the participation/effort record
    it matches only where the field is [null] (or, for the date, empty); a
    field that holds a value keeps it. The record matched is the first one
    of the array with the index of the header, and no other record changes;
    through the whole species loop every record keeps its index, its year
    and each field that held a value. And the fill does happen: a row of the
    species section whose header has the index [idx] turns the records into
    [updateExisting idx yh] of them (the first record of that index filled,
    a row without header leaves them alone), and the [participantsEffort]
    of the result is the records of the participation/effort section taken
    through the headers of the rows the species loop visits, in their
    order. *)
Theorem header_fills_only_missing_fields :
  (forall yh r,
      Effort.CountIndex (fillFromHeader yh r) = Effort.CountIndex r
      /\ Effort.Year (fillFromHeader yh r) = Effort.Year r
      /\ (falsy (Effort.CountDate r) = false ->
          Effort.CountDate (fillFromHeader yh r) = Effort.CountDate r)
      /\ (falsy (Effort.CountDate r) = true ->
          (forall s, Header.CountDate yh = Some s -> s <> [] ->
                     Effort.CountDate (fillFromHeader yh r) = Some s)
          /\ (Header.CountDate yh = None ->
              Effort.CountDate (fillFromHeader yh r) = Effort.CountDate r))
      /\ (forall n, Effort.NumParticipants r = Some n ->
                    Effort.NumParticipants (fillFromHeader yh r) = Some n)
      /\ (Effort.NumParticipants r = None ->
          Effort.NumParticipants (fillFromHeader yh r) = Header.NumParticipants yh)
      /\ (forall n, Effort.NumSpeciesReported r = Some n ->
                    Effort.NumSpeciesReported (fillFromHeader yh r) = Some n)
      /\ (Effort.NumSpeciesReported r = None ->
          Effort.NumSpeciesReported (fillFromHeader yh r)
          = Header.NumSpeciesReported yh)
      /\ (forall h, Effort.NumHours r = Some h ->
                    Effort.NumHours (fillFromHeader yh r) = Some h)
      /\ (Effort.NumHours r = None ->
          Effort.NumHours (fillFromHeader yh r) = Header.TotalHrs yh))
  /\ (forall d st,
         stEffort (speciesRow d st) = stEffort st
         \/ exists yh idx,
              parseYearHeaderCell (strOf (nth_error d 1)) = Some yh
              /\ Header.CountIndex yh = Some idx
              /\ stEffort (speciesRow d st) = updateExisting idx yh (stEffort st))
  /\ (forall idx yh l1 r l2,
         Forall (fun x => Effort.CountIndex x <> idx) l1 ->
         Effort.CountIndex r = idx ->
         updateExisting idx yh (l1 ++ r :: l2) = l1 ++ fillFromHeader yh r :: l2)
  /\ (forall idx yh pe,
         Forall (fun x => Effort.CountIndex x <> idx) pe ->
         updateExisting idx yh pe = pe)
  /\ (forall rows pe, Forall2 Preserved pe (stEffort (scanSpecies rows pe)))
  /\ (forall d st, stEffort (speciesRow d st) = headerStep (stEffort st) d)
  /\ (forall d st idx yh l1 r l2,
         rowHeader d = Some (idx, yh) ->
         stEffort st = l1 ++ r :: l2 ->
         Forall (fun x => Effort.CountIndex x <> idx) l1 ->
         Effort.CountIndex r = idx ->
         stEffort (speciesRow d st) = l1 ++ fillFromHeader yh r :: l2)
  /\ (forall toLowerCase rows,
         participantsEffort (extractTables toLowerCase rows)
         = fold_left headerStep (visitedRows rows) (scanEffort rows)).
Proof.
  split; [|split; [|split; [|split; [|split; [|split; [|split]]]]]].
  - intros yh r. unfold fillFromHeader. simpl. repeat split.
    + intros H. now rewrite H.
    + intros s Hs Hne. rewrite H, Hs. simpl. now destruct s.
    + intros Hn. rewrite Hn. simpl. now rewrite andb_false_r.
    + intros n Hn. now rewrite Hn.
    + intros Hn. rewrite Hn. now destruct (Header.NumParticipants yh).
    + intros n Hn. now rewrite Hn.
    + intros Hn. rewrite Hn. now destruct (Header.NumSpeciesReported yh).
    + intros n Hn. now rewrite Hn.
    + intros Hn. rewrite Hn. now destruct (Header.TotalHrs yh).
  - apply speciesRow_effort.
  - apply updateExisting_first.
  - apply updateExisting_none.
  - apply scanSpecies_Preserved.
  - apply speciesRow_headerStep.
  - intros d st idx yh l1 r l2 Hh Hst Hl1 Hr.
    rewrite speciesRow_headerStep. unfold headerStep. rewrite Hh, Hst.
    now apply updateExisting_first.
  - intros toLowerCase rows. cbn [extractTables participantsEffort].
    unfold scanSpecies, visitedRows.
    destruct (speciesSection rows) as [ds|]; [|reflexivity].
    now rewrite speciesLoop_headerStep.
Qed.

(** ** The years of the result *)

Lemma setHas_In (k : Z) (set : list Z) : setHas k set = true <-> In k set.
Proof.
  unfold setHas. rewrite existsb_exists. split.
  - intros (x & Hx & E). apply Z.eqb_eq in E. now subst.
  - intros H. exists k. split; [assumption | apply Z.eqb_refl].
Qed.

Lemma setAdd_In (k y : Z) (set : list Z) :
  In y (setAdd k set) <-> y = k \/ In y set.
Proof.
  unfold setAdd. destruct (setHas k set) eqn:E.
  - apply setHas_In in E. split; [tauto|]. intros [-> | H]; assumption.
  - rewrite in_app_iff. simpl. split; [intros [H | [H | []]]; auto | intros [H | H]; auto].
Qed.

Lemma setAdd_NoDup (k : Z) (set : list Z) : NoDup set -> NoDup (setAdd k set).
Proof.
  intros H. unfold setAdd. destruct (setHas k set) eqn:E; [assumption|].
  apply NoDup_rev in H. rewrite <- (rev_involutive (set ++ [k])).
  apply NoDup_rev. rewrite rev_app_distr. simpl. constructor; [|assumption].
  rewrite <- in_rev. intros Hin. apply setHas_In in Hin. congruence.
Qed.

Lemma yearSet_In (metas : list Meta.t) :
  forall init y,
    In y (fold_left (fun set r => setAdd (Meta.Year r) set) metas init)
    <-> In y init \/ exists m, In m metas /\ Meta.Year m = y.
Proof.
  induction metas as [|a metas IH]; intros init y; simpl.
  - split; [tauto | intros [H | (m & [] & _)]; assumption].
  - rewrite IH, setAdd_In. split.
    + intros [[-> | H] | (m & Hm & E)]; eauto.
    + intros [H | (m & [<- | Hm] & E)]; eauto.
Qed.

Lemma yearSet_NoDup (metas : list Meta.t) :
  forall init,
    NoDup init ->
    NoDup (fold_left (fun set r => setAdd (Meta.Year r) set) metas init).
Proof.
  induction metas as [|a metas IH]; intros init H; simpl; [assumption|].
  apply IH. now apply setAdd_NoDup.
Qed.

Lemma insertSorted_In (x y : Z) (l : list Z) :
  In y (insertSorted x l) <-> y = x \/ In y l.
Proof.
  induction l as [|a l IH]; simpl.
  - split; [intros [H | []]; auto | intros [H | []]; auto].
  - destruct (x <? a); simpl; [|rewrite IH]; intuition congruence.
Qed.

Lemma sortNumbers_In (y : Z) (l : list Z) : In y (sortNumbers l) <-> In y l.
Proof.
  induction l as [|a l IH]; simpl; [tauto|].
  rewrite insertSorted_In, IH. intuition congruence.
Qed.

Lemma insertSorted_sorted (x : Z) (l : list Z) :
  StronglySorted Z.lt l -> ~ In x l -> StronglySorted Z.lt (insertSorted x l).
Proof.
  induction 1 as [|a l Hs IH Ha]; intros Hx; simpl.
  - repeat constructor.
  - destruct (Z.ltb_spec x a) as [Hlt | Hge].
    + constructor; [now constructor|].
      constructor; [assumption|].
      eapply Forall_impl; [|exact Ha]. simpl. intros; lia.
    + constructor.
      * apply IH. intros Hin. apply Hx. now right.
      * apply Forall_forall. intros y Hy. apply insertSorted_In in Hy.
        destruct Hy as [-> | Hy].
        -- assert (x <> a) by (intros ->; apply Hx; now left). lia.
        -- rewrite Forall_forall in Ha. now apply Ha.
Qed.

Lemma sortNumbers_sorted (l : list Z) :
  NoDup l -> StronglySorted Z.lt (sortNumbers l).
Proof.
  induction 1 as [|a l Ha _ IH]; simpl; [constructor|].
  apply insertSorted_sorted; [assumption|]. now rewrite sortNumbers_In.
Qed.


Lemma uniqueSortedYearsFromMeta_sorted (metas : list Meta.t) :
  StronglySorted Z.lt (uniqueSortedYearsFromMeta metas).
Proof.
  apply sortNumbers_sorted, yearSet_NoDup. constructor.
Qed.

Lemma uniqueSortedYearsFromMeta_In (metas : list Meta.t) (y : Z) :
  In y (uniqueSortedYearsFromMeta metas)
  <-> exists m, In m metas /\ Meta.Year m = y.
Proof.
  unfold uniqueSortedYearsFromMeta. rewrite sortNumbers_In, yearSet_In.
  simpl. tauto.
Qed.

(** ** The metadata of the species loop *)

Lemma speciesRow_meta (d : Row) (st : ScanState) (m : Meta.t) :
  In m (stMeta (speciesRow d st)) -> In m (stMeta st) \/ HeaderOf d m.
Proof.
  unfold speciesRow, HeaderOf.
  destruct (isEmpty (trim (strOf (nth_error d 0)))) eqn:E0; cbn [orb]; [auto|].
  destruct (falsy (nth_error d 1)); [auto|].
  destruct (parseYearHeaderCell _) as [yh|] eqn:Ey; [|auto].
  destruct (Header.CountIndex yh) as [idx|] eqn:Ei; [|auto].
  destruct (Header.Year yh) as [y|] eqn:Eyr; [|auto].
  cbn [stMeta]. destruct (setHas idx (stMetaSeen st)); [auto|].
  rewrite in_app_iff. simpl. intros [H | [<- | []]]; [auto|].
  right. split; [reflexivity|]. exists yh. simpl. auto.
Qed.

Lemma speciesLoop_meta (ds : list Row) (m : Meta.t) :
  forall st,
    In m (stMeta (speciesLoop ds st)) ->
    In m (stMeta st) \/ exists d, In d ds /\ HeaderOf d m.
Proof.
  induction ds as [|d ds IH]; intros st; simpl; [auto|].
  destruct (length d =? 0)%nat; [auto|].
  intros H. apply IH in H. destruct H as [H | (d' & Hd' & H)].
  - apply speciesRow_meta in H. destruct H as [H | H]; [auto|].
    right. exists d. auto.
  - right. exists d'. auto.
Qed.




Lemma scanSpecies_meta (rows : list Row) (pe : list Effort.t) (m : Meta.t) :
  In m (stMeta (scanSpecies rows pe)) ->
  exists ds d, speciesSection rows = Some ds /\ In d ds /\ HeaderOf d m.
Proof.
  unfold scanSpecies. destruct (speciesSection rows) as [ds|]; simpl; [|tauto].
  intros H. apply speciesLoop_meta in H. simpl in H.
  destruct H as [[] | (d & Hd & H)]. eauto.
Qed.






(** ** The year reconciliation *)

Lemma lastOr_cons (prev : option N) (c : N) (pre : jsstring) :
  lastOr prev (c :: pre) = lastOr (Some c) pre.
Proof.
  unfold lastOr. simpl. destruct (rev pre); reflexivity.
Qed.


Lemma searchFrom_None {A} (m : option N -> jsstring -> option A) (s : jsstring) :
  forall prev,
    searchFrom m prev s = None ->
    forall pre post, s = pre ++ post -> m (lastOr prev pre) post = None.
Proof.
  induction s as [|c rest IH]; intros prev; simpl.
  - destruct (m prev []) eqn:E; [discriminate|].
    intros _ pre post Heq. symmetry in Heq. apply app_eq_nil in Heq.
    destruct Heq as [-> ->]. exact E.
  - destruct (m prev (c :: rest)) eqn:E; [discriminate|].
    intros H pre post Heq. destruct pre as [|c1 pre].
    + simpl in Heq. subst post. exact E.
    + simpl in Heq. injection Heq as <- Heq. rewrite lastOr_cons.
      now apply (IH (Some c)).
Qed.

Lemma matchYearToken_iff (prev : option N) (s tok : jsstring) :
  matchYearToken prev s = Some tok
  <-> exists post,
        s = tok ++ post /\ isYearText tok
        /\ (forall c, prev = Some c -> isWordChar c = false)
        /\ (forall c post', post = c :: post' -> isWordChar c = false).
Proof.
  assert (Hcore :
    match matchYear s with
    | Some (y, c :: _) => if isWordChar c then None else Some y
    | Some (y, []) => Some y
    | None => None
    end = Some tok
    <-> exists post, s = tok ++ post /\ isYearText tok
                     /\ (forall c post', post = c :: post' -> isWordChar c = false)).
  { split.
    - destruct (matchYear s) as [[y t]|] eqn:E; [|discriminate].
      apply matchYear_Some in E. destruct E as [-> Hy].
      destruct t as [|c t].
      + intros H. injection H as ->. exists []. repeat split; [assumption|].
        discriminate.
      + destruct (isWordChar c) eqn:Ec; [discriminate|].
        intros H. injection H as ->. exists (c :: t). repeat split; [assumption|].
        intros c' post' H. injection H as <- _. exact Ec.
    - intros (post & -> & Hy & Hpost). rewrite (matchYear_year _ _ Hy).
      destruct post as [|c t]; [reflexivity|].
      now rewrite (Hpost c t eq_refl). }
  unfold matchYearToken. destruct prev as [p|].
  - destruct (isWordChar p) eqn:Ep.
    + split; [discriminate|].
      intros (post & _ & _ & Hprev & _). specialize (Hprev p eq_refl). congruence.
    + rewrite Hcore. split.
      * intros (post & H1 & H2 & H3). exists post. repeat split; try assumption.
        intros c H. injection H as <-. exact Ep.
      * intros (post & H1 & H2 & _ & H3). exists post. auto.
  - rewrite Hcore. split.
    + intros (post & H1 & H2 & H3). exists post. repeat split; try assumption.
      discriminate.
    + intros (post & H1 & H2 & _ & H3). exists post. auto.
Qed.





(** [parseInt] reads a year text exactly. *)
Lemma parseInt_year (tok : jsstring) :
  isYearText tok -> parseInt tok = Int (digitsValue tok).
Proof.
  intros (c & d & Hy & Hc & Hd).
  assert (Hbound : 0 <= digitsValue tok < 10000).
  { unfold isDigit in Hc, Hd.
    apply andb_true_iff in Hc, Hd. destruct Hc as [Hc1 Hc2], Hd as [Hd1 Hd2].
    apply N.leb_le in Hc1, Hc2, Hd1, Hd2.
    destruct Hy as [-> | ->]; unfold digitsValue, digitValue; cbn [fold_left];
      change (Z.of_N 49) with 49; change (Z.of_N 57) with 57;
      change (Z.of_N 50) with 50; change (Z.of_N 48) with 48; lia. }
  assert (Hparse : parseInt tok = integerOfMagnitude false (digitsValue tok)).
  { destruct Hy as [-> | ->]; unfold parseInt; simpl; now rewrite Hc, Hd. }
  rewrite Hparse. unfold integerOfMagnitude.
  destruct (Z.ltb_spec (digitsValue tok) (2 ^ 53)) as [_ | Hge]; [reflexivity|].
  exfalso. assert (10000 < 2 ^ 53) by (vm_compute; reflexivity). lia.
Qed.



(** *** The lookup by index *)

Lemma mapGet_mapSet_same {V} (k : Z) (v : V) (m : list (Z * V)) :
  mapGet Z.eqb k (mapSet Z.eqb k v m) = Some v.
Proof.
  induction m as [|[k' v'] m IH]; simpl.
  - now rewrite Z.eqb_refl.
  - destruct (k' =? k) eqn:E; simpl; [now rewrite Z.eqb_refl | now rewrite E].
Qed.

Lemma mapGet_mapSet_other {V} (k k0 : Z) (v : V) (m : list (Z * V)) :
  k0 <> k -> mapGet Z.eqb k (mapSet Z.eqb k0 v m) = mapGet Z.eqb k m.
Proof.
  intros Hne. apply Z.eqb_neq in Hne.
  induction m as [|[k' v'] m IH]; simpl.
  - now rewrite Hne.
  - destruct (k' =? k0) eqn:E; simpl.
    + apply Z.eqb_eq in E. subst k'. now rewrite Hne.
    + destruct (k' =? k); [reflexivity | exact IH].
Qed.

Lemma metaYearByIdx_absent (metas : list Meta.t) (k : Z) :
  forall m0,
    (forall m, In m metas -> Meta.CountIndex m <> k) ->
    mapGet Z.eqb k
      (fold_left (fun acc r => mapSet Z.eqb (Meta.CountIndex r) (Meta.Year r) acc)
                 metas m0)
    = mapGet Z.eqb k m0.
Proof.
  induction metas as [|a metas IH]; intros m0 H; simpl; [reflexivity|].
  rewrite IH by (intros m Hm; apply H; now right).
  apply mapGet_mapSet_other. apply H. now left.
Qed.

Lemma metaYearByIdx_present (metas : list Meta.t) (m : Meta.t) :
  forall m0,
    NoDup (map Meta.CountIndex metas) -> In m metas ->
    mapGet Z.eqb (Meta.CountIndex m)
      (fold_left (fun acc r => mapSet Z.eqb (Meta.CountIndex r) (Meta.Year r) acc)
                 metas m0)
    = Some (Meta.Year m).
Proof.
  induction metas as [|a metas IH]; intros m0 Hnd Hin; simpl; [destruct Hin|].
  simpl in Hnd. inversion Hnd as [|x l Hx Hnd']; subst.
  destruct Hin as [-> | Hin].
  - rewrite metaYearByIdx_absent; [apply mapGet_mapSet_same|].
    intros m' Hm' E. apply Hx. rewrite <- E. now apply in_map.
  - now apply IH.
Qed.

Lemma NoDup_snoc {A} (l : list A) (x : A) : NoDup l -> ~ In x l -> NoDup (l ++ [x]).
Proof.
  intros Hl Hx. apply NoDup_rev in Hl. rewrite <- (rev_involutive (l ++ [x])).
  apply NoDup_rev. rewrite rev_app_distr. simpl. constructor; [|assumption].
  now rewrite <- in_rev.
Qed.

Lemma speciesRow_MetaDistinct (d : Row) (st : ScanState) :
  MetaDistinct st -> MetaDistinct (speciesRow d st).
Proof.
  intros [Hs Hn]. unfold speciesRow.
  destruct (_ || _); [now split|].
  destruct (parseYearHeaderCell _) as [yh|]; [|now split].
  destruct (Header.CountIndex yh) as [idx|]; [|now split].
  destruct (Header.Year yh) as [y|]; [|now split].
  unfold MetaDistinct. cbn [stMeta stMetaSeen].
  destruct (setHas idx (stMetaSeen st)) eqn:E; [now split|].
  split.
  - rewrite map_app, Hs. reflexivity.
  - apply NoDup_snoc; [assumption|]. intros Hin. apply setHas_In in Hin. congruence.
Qed.

Lemma speciesLoop_MetaDistinct (ds : list Row) :
  forall st, MetaDistinct st -> MetaDistinct (speciesLoop ds st).
Proof.
  induction ds as [|d ds IH]; intros st H; simpl; [assumption|].
  destruct (length d =? 0)%nat; [assumption|].
  apply IH. now apply speciesRow_MetaDistinct.
Qed.

Lemma scanSpecies_NoDup (rows : list Row) (pe : list Effort.t) :
  NoDup (map Meta.CountIndex (stMeta (scanSpecies rows pe))).
Proof.
  assert (H : MetaDistinct (scanSpecies rows pe)).
  { unfold scanSpecies. destruct (speciesSection rows) as [ds|].
    - apply speciesLoop_MetaDistinct. split; [reflexivity | constructor].
    - split; [reflexivity | constructor]. }
  destruct H as [Hs Hn]. now rewrite <- Hs.
Qed.

(** *** The search as a scan of the runs of word code units *)

Lemma yearTextb_iff (y : jsstring) : yearTextb y = true <-> isYearText y.
Proof.
  unfold yearTextb. split.
  - destruct (matchYear y) as [[tok t]|] eqn:E; [|discriminate].
    destruct t; [|discriminate]. intros _.
    apply matchYear_Some in E. destruct E as [-> Hy]. now rewrite app_nil_r.
  - intros Hy. rewrite <- (app_nil_r y). now rewrite (matchYear_year _ _ Hy).
Qed.

Lemma isYearText_word (y : jsstring) : isYearText y -> forallb isWordChar y = true.
Proof.
  intros (c & d & Hy & Hc & Hd).
  destruct Hy as [-> | ->]; simpl; unfold isWordChar; now rewrite Hc, Hd.
Qed.

Lemma matchYearToken_run (prev : option N) (run rest : jsstring) :
  atBoundary prev ->
  forallb isWordChar run = true ->
  (forall x rest', rest = x :: rest' -> isWordChar x = false) ->
  matchYearToken prev (run ++ rest) = if yearTextb run then Some run else None.
Proof.
  intros Hprev Hrun Hrest.
  destruct (yearTextb run) eqn:Ey.
  - apply yearTextb_iff in Ey. apply matchYearToken_iff. exists rest.
    repeat split; try assumption.
    intros c ->. exact Hprev.
  - destruct (matchYearToken prev (run ++ rest)) as [tok|] eqn:E; [|reflexivity].
    exfalso. apply matchYearToken_iff in E.
    destruct E as (post & Heq & Hy & _ & Hpost).
    assert (Htok := isYearText_word tok Hy).
    apply app_eq_app in Heq. destruct Heq as (l & [[H1 H2] | [H1 H2]]).
    + destruct l as [|x l].
      * rewrite app_nil_r in H1. subst run.
        apply yearTextb_iff in Hy. congruence.
      * subst run. rewrite forallb_app in Hrun. simpl in Hrun.
        rewrite (Hpost x (l ++ rest) H2) in Hrun. simpl in Hrun.
        now rewrite andb_false_r in Hrun.
    + destruct l as [|x l].
      * rewrite app_nil_r in H1. subst run.
        apply yearTextb_iff in Hy. congruence.
      * subst tok. rewrite forallb_app in Htok. simpl in Htok.
        rewrite (Hrest x (l ++ post) H2) in Htok. simpl in Htok.
        now rewrite andb_false_r in Htok.
Qed.

Lemma matchYearToken_inside (p : N) (s : jsstring) :
  isWordChar p = true -> matchYearToken (Some p) s = None.
Proof. intros H. unfold matchYearToken. now rewrite H. Qed.

Lemma searchFrom_skip_run (p : N) (run rest : jsstring) :
  isWordChar p = true ->
  forallb isWordChar run = true ->
  exists w, isWordChar w = true
            /\ searchFrom matchYearToken (Some p) (run ++ rest)
               = searchFrom matchYearToken (Some w) rest.
Proof.
  revert p. induction run as [|a run IH]; intros p Hp Hrun.
  - exists p. auto.
  - simpl in Hrun. apply andb_true_iff in Hrun. destruct Hrun as [Ha Hrun].
    destruct (IH a Ha Hrun) as (w & Hw & E). exists w. split; [assumption|].
    cbn [app searchFrom]. now rewrite (matchYearToken_inside p _ Hp).
Qed.

Lemma firstYearRun_run (cur run rest : jsstring) :
  forallb isWordChar run = true ->
  firstYearRun cur (run ++ rest) = firstYearRun (cur ++ run) rest.
Proof.
  revert cur. induction run as [|a run IH]; intros cur Hrun.
  - now rewrite app_nil_r.
  - simpl in Hrun. apply andb_true_iff in Hrun. destruct Hrun as [Ha Hrun].
    simpl. rewrite Ha, IH by assumption. now rewrite <- app_assoc.
Qed.

Lemma search_firstYearRun (s : jsstring) :
  forall prev, atBoundary prev ->
               searchFrom matchYearToken prev s = firstYearRun [] s.
Proof.
  induction s as [s IH] using (well_founded_induction
                                 (wf_inverse_image _ nat _ (@length N) lt_wf)).
  intros prev Hprev. destruct s as [|c rest].
  - destruct prev as [p|]; simpl; [destruct (isWordChar p)|]; reflexivity.
  - destruct (isWordChar c) eqn:Ec.
    + pose proof (takeWhile_dropWhile isWordChar (c :: rest)) as Hs.
      pose proof (takeWhile_forallb isWordChar (c :: rest)) as Hrun.
      remember (takeWhile isWordChar (c :: rest)) as run eqn:Er.
      remember (dropWhile isWordChar (c :: rest)) as rest' eqn:Ed.
      assert (Hrest : forall x t, rest' = x :: t -> isWordChar x = false).
      { intros x t Hx. rewrite Hx in Ed. symmetry in Ed.
        now apply dropWhile_head in Ed. }
      assert (Hlen : (length rest' < length (c :: rest))%nat).
      { rewrite <- Hs, length_app. simpl in Er. rewrite Ec in Er. subst run.
        simpl. lia. }
      rewrite <- Hs at 2. rewrite firstYearRun_run by assumption. simpl app.
      pose proof (matchYearToken_run prev run rest' Hprev Hrun Hrest) as Hm.
      rewrite Hs in Hm. cbn [searchFrom]. rewrite Hm.
      destruct (yearTextb run) eqn:Ey.
      * destruct rest' as [|x t]; cbn [firstYearRun].
        -- now rewrite Ey.
        -- now rewrite (Hrest x t eq_refl), Ey.
      * assert (Hd : rest' = dropWhile isWordChar rest).
        { subst rest'. simpl. now rewrite Ec. }
        pose proof (takeWhile_dropWhile isWordChar rest) as Hs'.
        rewrite <- Hd in Hs'.
        destruct (searchFrom_skip_run c (takeWhile isWordChar rest) rest' Ec
                    (takeWhile_forallb _ _)) as (w & Hw & E).
        rewrite Hs' in E. rewrite E. clear Hd Hs' E Hm Hs Ed.
        destruct rest' as [|x t].
        -- cbn [searchFrom firstYearRun].
           rewrite (matchYearToken_inside w _ Hw). now rewrite Ey.
        -- cbn [searchFrom firstYearRun].
           rewrite (matchYearToken_inside w _ Hw), (Hrest x t eq_refl), Ey.
           apply IH; [simpl in Hlen |- *; lia | exact (Hrest x t eq_refl)].
    + cbn [searchFrom firstYearRun]. rewrite Ec.
      assert (Hm : matchYearToken prev (c :: rest) = None).
      { destruct (matchYearToken prev (c :: rest)) as [tok|] eqn:E; [|reflexivity].
        exfalso. apply matchYearToken_iff in E.
        destruct E as (post & Heq & (c0 & d0 & [-> | ->] & _) & _);
          injection Heq as -> _; discriminate. }
      rewrite Hm. change (yearTextb []) with false. cbn iota.
      apply IH; [simpl; lia | exact Ec].
Qed.

Lemma isWhiteSpace_not_word (c : N) : isWhiteSpace c = true -> isWordChar c = false.
Proof.
  intros H. destruct (isWordChar c) eqn:E; [|reflexivity]. exfalso.
  unfold isWhiteSpace in H. unfold isWordChar, isDigit in E.
  repeat rewrite ?orb_true_iff, ?andb_true_iff, ?N.leb_le, ?N.eqb_eq in H.
  repeat rewrite ?orb_true_iff, ?andb_true_iff, ?N.leb_le, ?N.eqb_eq in E.
  lia.
Qed.

Lemma firstYearRun_blank (tail : jsstring) :
  forallb isWhiteSpace tail = true ->
  forall cur, firstYearRun cur tail = if yearTextb cur then Some cur else None.
Proof.
  induction tail as [|w tail IH]; intros Hw cur; [reflexivity|].
  simpl in Hw. apply andb_true_iff in Hw. destruct Hw as [Hw Htail].
  cbn [firstYearRun]. rewrite (isWhiteSpace_not_word w Hw).
  destruct (yearTextb cur); [reflexivity|]. now rewrite IH.
Qed.

Lemma firstYearRun_app_blank (a tail : jsstring) :
  forallb isWhiteSpace tail = true ->
  forall cur, firstYearRun cur (a ++ tail) = firstYearRun cur a.
Proof.
  intros Htail. induction a as [|c a IH]; intros cur.
  - now apply firstYearRun_blank.
  - cbn [app firstYearRun]. destruct (isWordChar c); [apply IH|].
    destruct (yearTextb cur); [reflexivity | apply IH].
Qed.

Lemma firstYearRun_collapse (s : jsstring) :
  forall cur inRun,
    (inRun = true -> cur = []) ->
    firstYearRun cur (collapseWhiteSpace inRun s) = firstYearRun cur s.
Proof.
  induction s as [|c s IH]; intros cur inRun Hrun; [reflexivity|].
  cbn [collapseWhiteSpace]. destruct (isWhiteSpace c) eqn:Ec.
  - pose proof (isWhiteSpace_not_word c Ec) as Hc.
    cbn [firstYearRun]. rewrite Hc. destruct inRun.
    + rewrite (Hrun eq_refl). change (yearTextb []) with false. cbn iota.
      now apply IH.
    + cbn [firstYearRun]. change (isWordChar SPACE) with false. cbn iota.
      destruct (yearTextb cur); [reflexivity|]. now apply IH.
  - cbn [firstYearRun]. destruct (isWordChar c).
    + apply IH. discriminate.
    + destruct (yearTextb cur); [reflexivity|]. apply IH. discriminate.
Qed.

Lemma firstYearRun_trimStart (s : jsstring) :
  firstYearRun [] (trimStart s) = firstYearRun [] s.
Proof.
  unfold trimStart. induction s as [|c s IH]; [reflexivity|].
  simpl dropWhile. destruct (isWhiteSpace c) eqn:Ec; [|reflexivity].
  cbn [firstYearRun]. rewrite (isWhiteSpace_not_word c Ec).
  change (yearTextb []) with false. cbn iota. exact IH.
Qed.

Lemma trimEnd_tail (s : jsstring) :
  exists tail, s = trimEnd s ++ tail /\ forallb isWhiteSpace tail = true.
Proof.
  exists (rev (takeWhile isWhiteSpace (rev s))). unfold trimEnd. split.
  - rewrite <- rev_app_distr, takeWhile_dropWhile. now rewrite rev_involutive.
  - apply forallb_Forall_true, Forall_rev, takeWhile_all.
Qed.

Lemma firstYearRun_trim (s : jsstring) :
  firstYearRun [] (trim s) = firstYearRun [] s.
Proof.
  unfold trim. destruct (trimEnd_tail (trimStart s)) as (tail & Hs & Htail).
  rewrite <- (firstYearRun_trimStart s). rewrite Hs at 2.
  now rewrite firstYearRun_app_blank.
Qed.

Lemma filter_noCR (s : jsstring) :
  noCR s -> filter (fun c => negb (c =? CR)%N) s = s.
Proof.
  induction 1 as [|c s Hc _ IH]; simpl; [reflexivity|].
  apply N.eqb_neq in Hc. rewrite Hc. simpl. now rewrite IH.
Qed.

(** On a text without carriage returns, the search finds in the cleaned text
    the token it finds in the text itself. *)
Lemma search_cleanText (s : jsstring) :
  noCR s ->
  search matchYearToken (cleanText (Some s)) = search matchYearToken s.
Proof.
  intros H. unfold search.
  rewrite !search_firstYearRun by exact I.
  unfold cleanText. simpl strOf. rewrite (filter_noCR s H).
  rewrite firstYearRun_trim. now apply firstYearRun_collapse.
Qed.

(** *** No carriage return reaches a date *)

Lemma replaceCR_out (s : jsstring) : noCR (replaceCR s).
Proof.
  unfold replaceCR, noCR. induction s as [|c s IH]; simpl; constructor; [|exact IH].
  destruct (N.eqb_spec c CR); [discriminate | assumption].
Qed.

Lemma normalizeNewlines_out (s : jsstring) : noCR (normalizeNewlines s).
Proof. apply replaceCR_out. Qed.

Lemma rawLex_noCR (s : jsstring) :
  forall inQuotes, noCR s -> gridNoCR (rawLex inQuotes s).
Proof.
  induction s as [s IH] using (well_founded_induction
                                 (wf_inverse_image _ nat _ (@length N) lt_wf)).
  intros inQuotes Hs. destruct s as [|ch rest].
  - simpl. repeat constructor.
  - inversion Hs as [|x l Hch Hrest]; subst.
    assert (IHrest := fun b => IH rest (Nat.lt_succ_diag_r _) b Hrest).
    assert (Hadd : forall c b, c <> CR -> gridNoCR (addChar c (rawLex b rest))).
    { intros c b Hc. specialize (IHrest b).
      destruct (rawLex b rest) as [[f r] g]. simpl in *.
      destruct IHrest as (Hf & Hr & Hg). repeat split; try assumption.
      now constructor. }
    simpl. destruct inQuotes.
    + destruct (ch =? QUOTE)%N.
      * destruct rest as [|next rest']; [apply IHrest|].
        destruct (next =? QUOTE)%N; [|apply IHrest].
        inversion Hrest; subst.
        assert (H := IH rest' (ltac:(simpl; lia)) true ltac:(assumption)).
        destruct (rawLex true rest') as [[f r] g]. simpl in *.
        destruct H as (Hf & Hr & Hg). repeat split; try assumption.
        constructor; [discriminate | assumption].
      * now apply Hadd.
    + destruct (ch =? QUOTE)%N; [apply IHrest|].
      destruct (ch =? COMMA)%N.
      * specialize (IHrest false). destruct (rawLex false rest) as [[f r] g].
        simpl in *. destruct IHrest as (Hf & Hr & Hg).
        repeat split; try assumption; now constructor.
      * destruct (ch =? NL)%N; [|now apply Hadd].
        specialize (IHrest false). destruct (rawLex false rest) as [[f r] g].
        simpl in *. destruct IHrest as (Hf & Hr & Hg).
        repeat split; try constructor; try assumption. now constructor.
Qed.

Lemma dropWhile_Forall {A} (P : A -> Prop) (p : A -> bool) (l : list A) :
  Forall P l -> Forall P (dropWhile p l).
Proof.
  induction 1 as [|x l Hx Hl IH]; simpl; [constructor|].
  destruct (p x); [assumption | now constructor].
Qed.

Lemma popBlank_Forall (P : jsstring -> Prop) (row : Row) :
  Forall P row -> Forall P (popBlank row).
Proof.
  intros H. unfold popBlank. apply Forall_rev, dropWhile_Forall, Forall_rev, H.
Qed.

Lemma trim_noCR (s : jsstring) : noCR s -> noCR (trim s).
Proof.
  intros H. unfold trim, trimEnd, trimStart, noCR.
  apply Forall_rev, dropWhile_Forall, Forall_rev, dropWhile_Forall, H.
Qed.

Lemma parseCsvText_noCR (text : jsstring) (maxRows maxCols : Z) (rows : list Row) :
  parseCsvText text maxRows maxCols = Ok rows -> Forall (Forall noCR) rows.
Proof.
  intros H. apply parseCsvText_rawRows in H. subst rows.
  unfold keepRows, rawRows.
  pose proof (rawLex_noCR _ false (normalizeNewlines_out text)) as Hg.
  destruct (rawLex false (normalizeNewlines text)) as [[f r] g].
  simpl in Hg. destruct Hg as (Hf & Hr & Hg).
  apply Forall_forall. intros row Hrow. apply filter_In in Hrow.
  destruct Hrow as [Hrow _]. apply in_map_iff in Hrow.
  destruct Hrow as (raw & <- & Hraw). apply popBlank_Forall.
  simpl in Hraw. destruct Hraw as [<- | Hraw].
  - now constructor.
  - rewrite Forall_forall in Hg. now apply Hg.
Qed.

Lemma cell_noCR (d : Row) (j : nat) : Forall noCR d -> noCR (strOf (nth_error d j)).
Proof.
  intros H. destruct (nth_error d j) as [f|] eqn:E; simpl; [|constructor].
  apply nth_error_In in E. rewrite Forall_forall in H. now apply H.
Qed.

Lemma effortRecord_dateNoCR (k : Z) (d : Row) :
  Forall noCR d -> dateNoCR (Effort.CountDate (effortRecord k d)).
Proof.
  intros H s. simpl. unfold orElse.
  destruct (isEmpty (trim (strOf (nth_error d 1)))); [discriminate|].
  intros E. injection E as <-. now apply trim_noCR, cell_noCR.
Qed.

Lemma effortRows_dateNoCR (ds : list Row) :
  Forall (Forall noCR) ds ->
  Forall (fun r => dateNoCR (Effort.CountDate r)) (effortRows ds).
Proof.
  induction 1 as [|d ds Hd _ IH]; simpl; [constructor|].
  destruct (length d =? 0)%nat; [constructor|].
  destruct (negb (isNumericLike (nth_error d 0))); [constructor|].
  destruct (parseMaybeInt (nth_error d 0)) as [k|]; [|assumption].
  destruct (k =? 0); [assumption|].
  constructor; [now apply effortRecord_dateNoCR | assumption].
Qed.

Lemma scanEffort_dateNoCR (rows : list Row) :
  Forall (Forall noCR) rows ->
  Forall (fun r => dateNoCR (Effort.CountDate r)) (scanEffort rows).
Proof.
  induction 1 as [|r rows Hr Hrows IH]; simpl; [constructor|].
  destruct (isEffortSentinel r); [now apply effortRows_dateNoCR | assumption].
Qed.

Lemma searchFrom_prop {A} (P : A -> Prop) (m : option N -> jsstring -> option A)
    (s : jsstring) :
  (forall prev t r, m prev t = Some r -> P r) ->
  forall prev r, searchFrom m prev s = Some r -> P r.
Proof.
  intros Hm. induction s as [|c s IH]; intros prev r; simpl.
  - destruct (m prev []) eqn:E; [|discriminate].
    intros H. injection H as <-. eapply Hm, E.
  - destruct (m prev (c :: s)) eqn:E.
    + intros H. injection H as <-. eapply Hm, E.
    + apply IH.
Qed.

Lemma digits_noCR (ds : jsstring) : forallb isDigit ds = true -> noCR ds.
Proof.
  intros H. apply forallb_Forall_true in H. eapply Forall_impl; [|exact H].
  simpl. intros c Hc ->. discriminate.
Qed.

Lemma matchOneOrTwoDigits_digits (s m t : jsstring) :
  matchOneOrTwoDigits s = Some (m, t) -> forallb isDigit m = true.
Proof.
  unfold matchOneOrTwoDigits. destruct s as [|a [|b u]]; try discriminate.
  - destruct (isDigit a) eqn:Ea; [|discriminate].
    intros H. injection H as <- _. simpl. now rewrite Ea.
  - destruct (isDigit a) eqn:Ea; [|discriminate].
    destruct (isDigit b) eqn:Eb; intros H; injection H as <- _; simpl;
      now rewrite ?Ea, ?Eb.
Qed.

Lemma matchFourDigits_digits (s m t : jsstring) :
  matchFourDigits s = Some (m, t) -> forallb isDigit m = true.
Proof.
  unfold matchFourDigits. destruct s as [|a [|b [|c [|d u]]]]; try discriminate.
  destruct (isDigit a && isDigit b && isDigit c && isDigit d) eqn:E; [|discriminate].
  intros H. injection H as <- _. simpl. now rewrite andb_true_r, !andb_assoc.
Qed.

Lemma matchCountDate_noCR (s date : jsstring) :
  matchCountDate s = Some date -> noCR date.
Proof.
  unfold matchCountDate.
  destruct (stripPrefix _ s) as [t|]; [|discriminate].
  destruct (matchOneOrTwoDigits _) as [[m t1]|] eqn:Em; [|discriminate].
  destruct (matchChar SLASH t1) as [t2|]; [|discriminate].
  destruct (matchOneOrTwoDigits t2) as [[d t3]|] eqn:Ed; [|discriminate].
  destruct (matchChar SLASH t3) as [t4|]; [|discriminate].
  destruct (matchFourDigits t4) as [[y t5]|] eqn:Ey; [|discriminate].
  intros H. injection H as <-.
  apply matchOneOrTwoDigits_digits, digits_noCR in Em, Ed.
  apply matchFourDigits_digits, digits_noCR in Ey.
  unfold noCR in *. apply Forall_app. split; [assumption|].
  constructor; [discriminate|]. apply Forall_app. split; [assumption|].
  constructor; [discriminate | assumption].
Qed.

Lemma parseYearHeaderCell_dateNoCR (cell : jsstring) (yh : Header.t) :
  parseYearHeaderCell cell = Some yh -> dateNoCR (Header.CountDate yh).
Proof.
  unfold parseYearHeaderCell.
  destruct (matchYearHeader _) as [[y idx]|]; [|discriminate].
  intros H. injection H as <-. simpl. intros s Hs.
  unfold search in Hs.
  eapply (searchFrom_prop noCR); [|exact Hs].
  intros prev t r. apply matchCountDate_noCR.
Qed.

Lemma fillFromHeader_dateNoCR (yh : Header.t) (r : Effort.t) :
  dateNoCR (Header.CountDate yh) -> dateNoCR (Effort.CountDate r) ->
  dateNoCR (Effort.CountDate (fillFromHeader yh r)).
Proof.
  intros Hh Hr. unfold fillFromHeader. simpl. now destruct (_ && _).
Qed.

Lemma updateExisting_dateNoCR (idx : Z) (yh : Header.t) (pe : list Effort.t) :
  dateNoCR (Header.CountDate yh) ->
  Forall (fun r => dateNoCR (Effort.CountDate r)) pe ->
  Forall (fun r => dateNoCR (Effort.CountDate r)) (updateExisting idx yh pe).
Proof.
  intros Hh. induction 1 as [|r pe Hr Hpe IH]; simpl; [constructor|].
  destruct (Effort.CountIndex r =? idx).
  - constructor; [now apply fillFromHeader_dateNoCR | assumption].
  - now constructor.
Qed.

Lemma speciesRow_dateNoCR (d : Row) (st : ScanState) :
  Forall (fun r => dateNoCR (Effort.CountDate r)) (stEffort st) ->
  Forall (fun r => dateNoCR (Effort.CountDate r)) (stEffort (speciesRow d st)).
Proof.
  intros H. destruct (speciesRow_effort d st) as [-> | (yh & idx & Hy & _ & ->)];
    [assumption|].
  apply updateExisting_dateNoCR; [|assumption].
  eapply parseYearHeaderCell_dateNoCR, Hy.
Qed.

Lemma speciesLoop_dateNoCR (ds : list Row) :
  forall st,
    Forall (fun r => dateNoCR (Effort.CountDate r)) (stEffort st) ->
    Forall (fun r => dateNoCR (Effort.CountDate r)) (stEffort (speciesLoop ds st)).
Proof.
  induction ds as [|d ds IH]; intros st H; simpl; [assumption|].
  destruct (length d =? 0)%nat; [assumption|].
  apply IH. now apply speciesRow_dateNoCR.
Qed.

Lemma extractTables_dateNoCR (toLowerCase : jsstring -> jsstring) (rows : list Row) :
  Forall (Forall noCR) rows ->
  Forall (fun r => dateNoCR (Effort.CountDate r))
         (participantsEffort (extractTables toLowerCase rows)).
Proof.
  intros H. unfold extractTables. cbn [participantsEffort]. unfold scanSpecies.
  pose proof (scanEffort_dateNoCR rows H) as Hpe.
  destruct (speciesSection rows) as [ds|]; [|assumption].
  now apply speciesLoop_dateNoCR.
Qed.





Lemma header_fills_only_missing_fields_witness :
  let yh := {| Header.Year := Some 1987; Header.CountIndex := Some 3;
               Header.CountDate := Some (js "12/27/1987");
               Header.NumParticipants := Some (Int 42);
               Header.NumSpeciesReported := Some (Int 87);
               Header.TotalHrs := Some (Finite (13 # 2)) |} in
  let other := effortRecord 2 [js "2"; js "12/26/1986"] in
  let r := effortRecord 3 [js "3"; js ""; js "10"] in
  let d := [js "Mallard";
            lines ["1987[3]"; "Count Date: 12/27/1987"; "# Participants: 42";
                   "# Species Reported: 87"; "Total Hrs.: 6.5"]%string;
            js "5"] in
  let st := {| stMeta := []; stMetaSeen := []; stEffort := [other; r];
               stCounts := [] |} in
  Forall (fun x => Effort.CountIndex x <> 3) [other]
  /\ Effort.CountIndex r = 3
  /\ updateExisting 3 yh ([other] ++ r :: [])
     = [other] ++ fillFromHeader yh r :: []
  /\ Effort.NumParticipants (fillFromHeader yh r) = Some (Int 10)
  /\ Effort.NumHours (fillFromHeader yh r) = Some (Finite (13 # 2))
  /\ rowHeader d = Some (3, yh)
  /\ stEffort (speciesRow d st) = [other] ++ fillFromHeader yh r :: []
  /\ participantsEffort
       (extractTables asciiToLowerCase
          [[js "CountYear5"]; [js "2"; js "12/26/1986"]; [js "3"; js ""; js "10"];
           [js "COM_NAME"; js "CountYear"]; d])
     = [other;
        {| Effort.CountIndex := 3;
           Effort.CountDate := Some (js "12/27/1987");
           Effort.Year := None;
           Effort.NumParticipants := Some (Int 10);
           Effort.NumHours := Some (Finite (13 # 2));
           Effort.NumSpeciesReported := Some (Int 87) |}].
Proof.
  intros yh other r d st.
  assert (H1 : Forall (fun x => Effort.CountIndex x <> 3) [other])
    by (repeat constructor; vm_compute; discriminate).
  assert (H2 : Effort.CountIndex r = 3) by reflexivity.
  assert (H3 : rowHeader d = Some (3, yh)) by (vm_compute; reflexivity).
  split; [exact H1|]. split; [exact H2|].
  split; [|split; [|split; [|split; [exact H3|split]]]].
  - exact (proj1 (proj2 (proj2 header_fills_only_missing_fields)) 3 yh [other] r [] H1 H2).
  - destruct (proj1 header_fills_only_missing_fields yh r)
      as (_ & _ & _ & _ & Hp & _).
    apply Hp. reflexivity.
  - destruct (proj1 header_fills_only_missing_fields yh r)
      as (_ & _ & _ & _ & _ & _ & _ & _ & _ & Hh).
    apply Hh. reflexivity.
  - exact (proj1 (proj2 (proj2 (proj2 (proj2 (proj2
             (proj2 header_fills_only_missing_fields))))))
             d st 3 yh [other] r [] H3 eq_refl H1 H2).
  - rewrite (proj2 (proj2 (proj2 (proj2 (proj2 (proj2
               (proj2 header_fills_only_missing_fields))))))
               asciiToLowerCase).
    vm_compute. reflexivity.
Defined.

(** ** More on the lexer: quoted fields and what the caps do enforce *)

Lemma lexLoop_quoted (maxRows maxCols : Z) (w : jsstring) :
  forall rows row field,
    lexLoop maxRows maxCols (escapeQuotes w ++ [QUOTE]) rows row field true
    = Ok (pushRow rows (row ++ [field ++ w])).
Proof.
  induction w as [|c w IH]; intros rows row field.
  - simpl. now rewrite app_nil_r.
  - cbn [escapeQuotes]. destruct (N.eqb_spec c QUOTE) as [-> | Hne].
    + change ((QUOTE :: QUOTE :: escapeQuotes w) ++ [QUOTE])
        with (QUOTE :: QUOTE :: (escapeQuotes w ++ [QUOTE])).
      cbn [lexLoop]. change (QUOTE =? QUOTE)%N with true. cbn iota.
      rewrite IH. now rewrite <- app_assoc.
    + change ((c :: escapeQuotes w) ++ [QUOTE])
        with (c :: (escapeQuotes w ++ [QUOTE])).
      cbn [lexLoop]. apply N.eqb_neq in Hne. rewrite Hne.
      rewrite IH. now rewrite <- app_assoc.
Qed.

Lemma escapeQuotes_noCR (w : jsstring) :
  Forall (fun c => c <> CR) w -> Forall (fun c => c <> CR) (escapeQuotes w).
Proof.
  induction 1 as [|c w Hc _ IH]; simpl; [constructor|].
  destruct (c =? QUOTE)%N; repeat constructor; try assumption; discriminate.
Qed.

(** A field written between quotes, its quotes doubled, is read back as it
    was, whatever commas, line feeds and quotes it holds. *)
Lemma parseCsvText_quoted (maxRows maxCols : Z) (w : jsstring) :
  Forall (fun c => c <> CR) w ->
  forallb isWhiteSpace w = false ->
  parseCsvText (quoted w) maxRows maxCols = Ok [[w]].
Proof.
  intros Hcr Hw. unfold parseCsvText, quoted.
  rewrite normalizeNewlines_noCR.
  - cbn [lexLoop]. change (QUOTE =? QUOTE)%N with true. cbn iota.
    rewrite lexLoop_quoted. simpl. unfold pushRow.
    change [w] with ([] ++ [w]). rewrite popBlank_snoc.
    now rewrite isBlank_whitespaceOnly, Hw.
  - constructor; [discriminate|]. apply Forall_app. split.
    + now apply escapeQuotes_noCR.
    + repeat constructor. discriminate.
Qed.

(** C5 (as stated). The text of six code units, quote [a] quote quote [b]
    quote, is not lexed to the four code units [a] quote [b] quote. *)
Lemma doubled_quote_counterexample :
  parseCsvText (QUOTE :: js "a" ++ QUOTE :: QUOTE :: js "b" ++ [QUOTE]) 250000 200
  <> Ok [[js "a" ++ QUOTE :: js "b" ++ [QUOTE]]].
Proof. vm_compute. discriminate. Qed.

(** C5 (amended). Lexing the quoted text [a,b] yields one row of the single
    field [a,b]: the comma inside quotes does not split the field. Lexing
    quote [a] quote quote [b] quote yields the single field [a] quote [b]:
    the doubled quote stands for one literal quote and the last quote closes
    the field. In general a field that is not blank, written between quotes
    with its quotes doubled, is lexed to one row of that single field. *)
Theorem parseCsvText_quoted_fields :
  parseCsvText (QUOTE :: js "a,b" ++ [QUOTE]) 250000 200 = Ok [[js "a,b"]]
  /\ parseCsvText (QUOTE :: js "a" ++ QUOTE :: QUOTE :: js "b" ++ [QUOTE]) 250000 200
     = Ok [[js "a" ++ QUOTE :: js "b"]]
  /\ forall maxRows maxCols w,
       Forall (fun c => c <> CR) w ->
       forallb isWhiteSpace w = false ->
       parseCsvText (quoted w) maxRows maxCols = Ok [[w]].
Proof.
  split; [vm_compute; reflexivity|]. split; [vm_compute; reflexivity|].
  apply parseCsvText_quoted.
Qed.

Lemma parseCsvText_quoted_fields_witness :
  Forall (fun c => c <> CR) (js "x, y" ++ QUOTE :: NL :: js "z")
  /\ forallb isWhiteSpace (js "x, y" ++ QUOTE :: NL :: js "z") = false
  /\ parseCsvText (quoted (js "x, y" ++ QUOTE :: NL :: js "z")) 1 1
     = Ok [[js "x, y" ++ QUOTE :: NL :: js "z"]].
Proof.
  assert (H1 : Forall (fun c => c <> CR) (js "x, y" ++ QUOTE :: NL :: js "z"))
    by (repeat constructor; discriminate).
  assert (H2 : forallb isWhiteSpace (js "x, y" ++ QUOTE :: NL :: js "z") = false)
    by reflexivity.
  split; [exact H1|]. split; [exact H2|].
  exact (proj2 (proj2 parseCsvText_quoted_fields) 1 1 _ H1 H2).
Defined.

Lemma pushRow_length (rows : list Row) (row : Row) :
  (length rows <= length (pushRow rows row) <= S (length rows))%nat.
Proof.
  unfold pushRow. destruct (popBlank row); [lia|].
  rewrite length_app. simpl. lia.
Qed.

(** When the loop returns, no raw row has more than [maxCols + 1] fields and
    no more than [maxRows + 1] rows are returned. *)
Lemma lexLoop_Ok_bounds (maxRows maxCols : Z) (s : jsstring) :
  forall rows row field inQuotes out,
    lexLoop maxRows maxCols s rows row field inQuotes = Ok out ->
    Z.of_nat (length row) <= maxCols ->
    Z.of_nat (length rows) <= maxRows ->
    0 <= maxCols ->
    Forall (fun r => Z.of_nat (length r) <= maxCols + 1)
           (resume row field (rawLex inQuotes s))
    /\ Z.of_nat (length out) <= maxRows + 1.
Proof.
  induction s as [s IH] using (well_founded_induction
                                 (wf_inverse_image _ nat _ (@length N) lt_wf)).
  intros rows row field inQuotes out.
  destruct s as [|ch rest].
  - simpl. intros H Hc Hr H0. injection H as <-. split.
    + repeat constructor. rewrite length_app. simpl. lia.
    + pose proof (pushRow_length rows (row ++ [field ++ []])).
      pose proof (pushRow_length rows (row ++ [field])). lia.
  - assert (IHrest := IH rest (Nat.lt_succ_diag_r _)).
    simpl. destruct inQuotes.
    + destruct (ch =? QUOTE)%N.
      * destruct rest as [|next rest'].
        -- apply IHrest.
        -- destruct (next =? QUOTE)%N.
           ++ rewrite resume_addChar. apply IH. simpl; lia.
           ++ apply IHrest.
      * rewrite resume_addChar. apply IHrest.
    + destruct (ch =? QUOTE)%N; [apply IHrest|].
      destruct (ch =? COMMA)%N.
      * rewrite resume_endField.
        destruct (Z.gtb_spec (Z.of_nat (length (row ++ [field]))) maxCols) as [Hgt|Hle];
          [discriminate|].
        intros H _ Hr H0. now apply (IHrest _ _ _ _ _ H).
      * destruct (ch =? NL)%N.
        -- rewrite resume_endRow.
           destruct (Z.gtb_spec (Z.of_nat (length (pushRow rows (row ++ [field]))))
                       maxRows) as [Hgt|Hle]; [discriminate|].
           intros H Hc Hr H0.
           assert (Hnil : Z.of_nat (length (@nil jsstring)) <= maxCols)
             by (simpl; lia).
           destruct (IHrest _ _ _ _ _ H Hnil Hle H0) as [HF Hout].
           split; [|assumption]. constructor; [|assumption].
           rewrite length_app. simpl. lia.
        -- rewrite resume_addChar. apply IHrest.
Qed.

Lemma parseCsvText_Ok_bounds (text : jsstring) (maxRows maxCols : Z) (rows : list Row) :
  0 <= maxRows -> 0 <= maxCols ->
  parseCsvText text maxRows maxCols = Ok rows ->
  Forall (fun r => Z.of_nat (length r) <= maxCols + 1) (rawRows text)
  /\ Z.of_nat (length rows) <= maxRows + 1.
Proof.
  intros Hr Hc H. unfold parseCsvText in H.
  apply lexLoop_Ok_bounds in H; try (simpl; lia).
  now rewrite resume_nil in H.
Qed.

(** * Further properties *)

(** ** The lexer: caps, line ends, blank texts *)

Lemma lexLoop_caps_monotone (maxRows maxCols maxRows' maxCols' : Z) (s : jsstring) :
  maxRows <= maxRows' -> maxCols <= maxCols' ->
  forall rows row field inQuotes out,
    lexLoop maxRows maxCols s rows row field inQuotes = Ok out ->
    lexLoop maxRows' maxCols' s rows row field inQuotes = Ok out.
Proof.
  intros HR HC.
  induction s as [s IH] using (well_founded_induction
                                 (wf_inverse_image _ nat _ (@length N) lt_wf)).
  intros rows row field inQuotes out.
  destruct s as [|ch rest]; [trivial|].
  assert (IHrest := IH rest (Nat.lt_succ_diag_r _)).
  simpl. destruct inQuotes.
  - destruct (ch =? QUOTE)%N; [|apply IHrest].
    destruct rest as [|next rest']; [apply IHrest|].
    destruct (next =? QUOTE)%N; [|apply IHrest].
    apply IH. simpl; lia.
  - destruct (ch =? QUOTE)%N; [apply IHrest|].
    destruct (ch =? COMMA)%N.
    + destruct (Z.gtb_spec (Z.of_nat (length (row ++ [field]))) maxCols);
        [discriminate|].
      destruct (Z.gtb_spec (Z.of_nat (length (row ++ [field]))) maxCols'); [lia|].
      apply IHrest.
    + destruct (ch =? NL)%N; [|apply IHrest].
      destruct (Z.gtb_spec (Z.of_nat (length (pushRow rows (row ++ [field])))) maxRows);
        [discriminate|].
      destruct (Z.gtb_spec (Z.of_nat (length (pushRow rows (row ++ [field])))) maxRows');
        [lia|].
      apply IHrest.
Qed.

(** X1. The caps only decide whether [parseCsvText] throws: a text lexed
    under some caps is lexed to the same rows under any larger caps. *)
Theorem parseCsvText_larger_caps :
  forall text maxRows maxCols maxRows' maxCols' rows,
    parseCsvText text maxRows maxCols = Ok rows ->
    maxRows <= maxRows' -> maxCols <= maxCols' ->
    parseCsvText text maxRows' maxCols' = Ok rows.
Proof.
  intros text R C R' C' rows H HR HC. unfold parseCsvText in *.
  now apply (lexLoop_caps_monotone R C R' C').
Qed.

Lemma parseCsvText_larger_caps_witness :
  parseCsvText (lines ["a,b"; "c"]%string) 1 1 = Ok [[js "a"; js "b"]; [js "c"]]
  /\ parseCsvText (lines ["a,b"; "c"]%string) 250000 200
     = Ok [[js "a"; js "b"]; [js "c"]].
Proof.
  assert (H : parseCsvText (lines ["a,b"; "c"]%string) 1 1
              = Ok [[js "a"; js "b"]; [js "c"]]) by (vm_compute; reflexivity).
  split; [exact H|].
  apply (parseCsvText_larger_caps _ 1 1 250000 200 _ H); lia.
Defined.

(** X2. An extraction whose text respects the caps returns: when no raw row
    of the text has more than 200 fields and no more than 250000 rows are
    kept, the result is the tables of the kept rows. *)
Theorem extraction_returns_within_caps :
  forall toLowerCase text,
    Forall (fun r => Z.of_nat (length r) <= 200) (rawRows text) ->
    Z.of_nat (length (keepRows (rawRows text))) <= 250000 ->
    parseHistoricalResultsByCountCsv toLowerCase text
    = Ok (extractTables toLowerCase (keepRows (rawRows text))).
Proof.
  intros toLowerCase text Hc Hr. unfold parseHistoricalResultsByCountCsv.
  now rewrite (parseCsvText_within_caps text 250000 200 Hc Hr).
Qed.

Lemma extraction_returns_within_caps_witness :
  parseHistoricalResultsByCountCsv asciiToLowerCase (lines ["a,b,,"; ""; "c"]%string)
  = Ok (extractTables asciiToLowerCase
          (keepRows (rawRows (lines ["a,b,,"; ""; "c"]%string)))).
Proof.
  apply extraction_returns_within_caps.
  - vm_compute. repeat constructor; discriminate.
  - vm_compute. discriminate.
Defined.

(** *** Line ends *)

Lemma normalizeNewlines_idempotent (s : jsstring) :
  normalizeNewlines (normalizeNewlines s) = normalizeNewlines s.
Proof. apply normalizeNewlines_noCR, normalizeNewlines_out. Qed.

Lemma replaceCRLF_line (l rest : jsstring) :
  forallb (fun c => negb (isLineEnd c)) l = true ->
  replaceCRLF (l ++ rest) = l ++ replaceCRLF rest.
Proof.
  induction l as [|c l IH]; intros H; [reflexivity|].
  simpl in H. apply andb_true_iff in H. destruct H as [Hc Hl].
  unfold isLineEnd in Hc. apply negb_true_iff, orb_false_iff in Hc.
  destruct Hc as [Hcr _]. simpl. rewrite Hcr. now rewrite IH.
Qed.

Lemma replaceCR_line (l rest : jsstring) :
  forallb (fun c => negb (isLineEnd c)) l = true ->
  replaceCR (l ++ rest) = l ++ replaceCR rest.
Proof.
  unfold replaceCR. induction l as [|c l IH]; intros H; [reflexivity|].
  simpl in H. apply andb_true_iff in H. destruct H as [Hc Hl].
  unfold isLineEnd in Hc. apply negb_true_iff, orb_false_iff in Hc.
  destruct Hc as [Hcr _]. simpl. rewrite Hcr. now rewrite IH.
Qed.

Lemma joinWith_cons (sep l : jsstring) (ls : list jsstring) :
  ls <> [] -> joinWith sep (l :: ls) = l ++ sep ++ joinWith sep ls.
Proof. destruct ls; [congruence|reflexivity]. Qed.

Lemma joinWith_CR_head (ls : list jsstring) (t : jsstring) :
  Forall (fun l => forallb (fun c => negb (isLineEnd c)) l = true) ls ->
  joinWith [CR] ls <> NL :: t.
Proof.
  intros H E. destruct H as [|l ls Hl Hls]; [discriminate|].
  destruct l as [|c l].
  - destruct ls; simpl in E; discriminate.
  - simpl in Hl. apply andb_true_iff in Hl. destruct Hl as [Hc _].
    assert (c = NL) by (destruct ls; simpl in E; congruence).
    subst c. discriminate.
Qed.

Lemma normalizeNewlines_joinWith (sep : jsstring) (ls : list jsstring) :
  sep = [CR; NL] \/ sep = [CR] \/ sep = [NL] ->
  Forall (fun l => forallb (fun c => negb (isLineEnd c)) l = true) ls ->
  normalizeNewlines (joinWith sep ls) = joinWith [NL] ls.
Proof.
  intros Hsep Hls. unfold normalizeNewlines.
  induction Hls as [|l ls Hl Hrest IH]; [reflexivity|].
  destruct ls as [|l' ls'].
  - simpl. rewrite <- (app_nil_r l).
    rewrite replaceCRLF_line, replaceCR_line by assumption. reflexivity.
  - rewrite !joinWith_cons by discriminate.
    rewrite replaceCRLF_line by assumption.
    remember (joinWith sep (l' :: ls')) as J eqn:EJ.
    destruct Hsep as [-> | [-> | ->]].
    + change (replaceCRLF ([CR; NL] ++ J)) with (NL :: replaceCRLF J).
      rewrite replaceCR_line by assumption.
      change (replaceCR (NL :: replaceCRLF J)) with (NL :: replaceCR (replaceCRLF J)).
      now rewrite IH.
    + assert (E : replaceCRLF ([CR] ++ J) = CR :: replaceCRLF J).
      { destruct J as [|d J']; [reflexivity|].
        simpl. destruct (N.eqb_spec d NL) as [->|_]; [|reflexivity].
        exfalso. exact (joinWith_CR_head _ _ Hrest (eq_sym EJ)). }
      rewrite E, replaceCR_line by assumption.
      change (replaceCR (CR :: replaceCRLF J)) with (NL :: replaceCR (replaceCRLF J)).
      now rewrite IH.
    + change (replaceCRLF ([NL] ++ J)) with (NL :: replaceCRLF J).
      rewrite replaceCR_line by assumption.
      change (replaceCR (NL :: replaceCRLF J)) with (NL :: replaceCR (replaceCRLF J)).
      now rewrite IH.
Qed.

(** X3. The three line-end conventions are lexed alike: lines (free of line
    ends) joined by CR LF, by CR or by LF are normalized to the text joined
    by LF and lexed to the same rows, or refused alike. *)
Theorem line_end_conventions_lex_alike :
  forall sep ls maxRows maxCols,
    sep = [CR; NL] \/ sep = [CR] \/ sep = [NL] ->
    Forall (fun l => forallb (fun c => negb (isLineEnd c)) l = true) ls ->
    normalizeNewlines (joinWith sep ls) = joinWith [NL] ls
    /\ parseCsvText (joinWith sep ls) maxRows maxCols
       = parseCsvText (joinWith [NL] ls) maxRows maxCols.
Proof.
  intros sep ls R C Hsep Hls.
  assert (H := normalizeNewlines_joinWith sep ls Hsep Hls).
  assert (H' := normalizeNewlines_joinWith [NL] ls (or_intror (or_intror eq_refl)) Hls).
  split; [exact H|]. unfold parseCsvText. now rewrite H, H'.
Qed.

Lemma line_end_conventions_lex_alike_witness :
  normalizeNewlines (joinWith [CR; NL] [js "a,b"; js "c"; []; js "d"])
  = joinWith [NL] [js "a,b"; js "c"; []; js "d"]
  /\ parseCsvText (joinWith [CR; NL] [js "a,b"; js "c"; []; js "d"]) 10 10
     = parseCsvText (joinWith [NL] [js "a,b"; js "c"; []; js "d"]) 10 10.
Proof.
  apply line_end_conventions_lex_alike.
  - left. reflexivity.
  - repeat constructor.
Defined.

(** X4. Normalizing the line ends twice is normalizing them once, the
    normalized text holds no carriage return, and the lexer reads a text
    and its normalized form alike. *)
Theorem normalizeNewlines_is_a_projection :
  forall text maxRows maxCols,
    normalizeNewlines (normalizeNewlines text) = normalizeNewlines text
    /\ Forall (fun c => c <> CR) (normalizeNewlines text)
    /\ parseCsvText (normalizeNewlines text) maxRows maxCols
       = parseCsvText text maxRows maxCols.
Proof.
  intros text R C. split; [apply normalizeNewlines_idempotent|].
  split; [apply normalizeNewlines_out|].
  unfold parseCsvText. now rewrite normalizeNewlines_idempotent.
Qed.

(** X5. When the extraction returns, no raw row of the text has more than
    201 fields, at most 250001 rows were kept, and the result is the tables
    of the kept rows. *)
Theorem extraction_Ok_bounds :
  forall toLowerCase text res,
    parseHistoricalResultsByCountCsv toLowerCase text = Ok res ->
    Forall (fun r => Z.of_nat (length r) <= 201) (rawRows text)
    /\ Z.of_nat (length (keepRows (rawRows text))) <= 250001
    /\ res = extractTables toLowerCase (keepRows (rawRows text)).
Proof.
  intros toLowerCase text res H.
  apply parseHistoricalResultsByCountCsv_Ok in H. destruct H as (rows & Hrows & ->).
  assert (E := parseCsvText_rawRows _ _ _ _ Hrows).
  destruct (parseCsvText_Ok_bounds text 250000 200 rows) as [Hc Hr]; try lia; [exact Hrows|].
  subst rows. repeat split; assumption.
Qed.

Lemma extraction_Ok_bounds_witness :
  Forall (fun r => Z.of_nat (length r) <= 201) (rawRows (lines ["a,b"; "c"]%string))
  /\ Z.of_nat (length (keepRows (rawRows (lines ["a,b"; "c"]%string)))) <= 250001
  /\ extractTables asciiToLowerCase [[js "a"; js "b"]; [js "c"]]
     = extractTables asciiToLowerCase (keepRows (rawRows (lines ["a,b"; "c"]%string))).
Proof.
  apply (extraction_Ok_bounds asciiToLowerCase (lines ["a,b"; "c"]%string)).
  vm_compute. reflexivity.
Defined.

(** *** Blank texts *)

Lemma replaceCRLF_Forall (P : N -> Prop) (s : jsstring) :
  P NL -> Forall P s -> Forall P (replaceCRLF s).
Proof.
  intros HNL.
  induction s as [s IH] using (well_founded_induction
                                 (wf_inverse_image _ nat _ (@length N) lt_wf)).
  intros H. destruct s as [|c rest]; [constructor|].
  inversion H as [|x y Hc Hrest]; subst.
  assert (IHrest := IH rest (Nat.lt_succ_diag_r _) Hrest).
  simpl. destruct (c =? CR)%N; [|now constructor].
  destruct rest as [|d rest']; [now constructor|].
  destruct (d =? NL)%N; [|now constructor].
  constructor; [exact HNL|]. apply IH; [simpl; lia|].
  now inversion Hrest.
Qed.

Lemma normalizeNewlines_Forall (P : N -> Prop) (s : jsstring) :
  P NL -> Forall P s -> Forall P (normalizeNewlines s).
Proof.
  intros HNL H. unfold normalizeNewlines, replaceCR.
  apply (replaceCRLF_Forall P s HNL) in H.
  induction H as [|c l Hc Hl IH]; simpl; [constructor|].
  destruct (c =? CR)%N; now constructor.
Qed.

Lemma lexLoop_blank (maxRows maxCols : Z) (s : jsstring) :
  0 <= maxRows ->
  forallb isWhiteSpace s = true ->
  forall field,
    forallb isWhiteSpace field = true ->
    lexLoop maxRows maxCols s [] [] field false = Ok [].
Proof.
  intros HR. induction s as [|ch rest IH]; intros Hs field Hf.
  - simpl. unfold pushRow, popBlank. simpl.
    rewrite isBlank_whitespaceOnly, Hf. reflexivity.
  - simpl in Hs. apply andb_true_iff in Hs. destruct Hs as [Hch Hrest].
    cbn [lexLoop app].
    destruct (N.eqb_spec ch QUOTE) as [->|_]; [discriminate|].
    destruct (N.eqb_spec ch COMMA) as [->|_]; [discriminate|].
    destruct (N.eqb_spec ch NL) as [->|_].
    + match goal with
      | |- context [pushRow ?a ?b] => assert (E : pushRow a b = [])
      end.
      { unfold pushRow, popBlank. simpl.
        rewrite isBlank_whitespaceOnly, Hf. reflexivity. }
      rewrite E. cbn [length Z.of_nat].
      destruct (Z.gtb_spec 0 maxRows); [lia|].
      now apply IH.
    + apply IH; [exact Hrest|].
      rewrite forallb_app, Hf. simpl. now rewrite Hch.
Qed.

(** X6. A text of white space only (the empty text, blank lines) is lexed
    to no row at all under any caps, and the extraction returns the empty
    result for it: no record in any table and every field of [countInfo]
    null. *)
Theorem blank_text_extracts_nothing :
  forall toLowerCase text maxRows maxCols,
    forallb isWhiteSpace text = true ->
    0 <= maxRows ->
    parseCsvText text maxRows maxCols = Ok []
    /\ parseHistoricalResultsByCountCsv toLowerCase text
       = Ok {| countInfo := emptyCountInfo; meta := []; participantsEffort := [];
               weatherRaw := []; speciesTable := []; years := [] |}.
Proof.
  intros toLowerCase text R C Hws HR.
  assert (Hn : forallb isWhiteSpace (normalizeNewlines text) = true).
  { apply forallb_Forall_true, normalizeNewlines_Forall; [reflexivity|].
    now apply forallb_Forall_true. }
  split.
  - unfold parseCsvText. now apply lexLoop_blank.
  - unfold parseHistoricalResultsByCountCsv, parseCsvText.
    rewrite lexLoop_blank by (try lia; trivial). reflexivity.
Qed.

Lemma blank_text_extracts_nothing_witness :
  parseCsvText [SPACE; CR; NL; 9%N; NL] 0 0 = Ok []
  /\ parseHistoricalResultsByCountCsv asciiToLowerCase [SPACE; CR; NL; 9%N; NL]
     = Ok {| countInfo := emptyCountInfo; meta := []; participantsEffort := [];
             weatherRaw := []; speciesTable := []; years := [] |}.
Proof.
  apply blank_text_extracts_nothing; [reflexivity | lia].
Defined.

(** ** The composite header: ranges *)

Lemma digitsValue_acc (ds : jsstring) :
  forall acc, 0 <= acc -> forallb isDigit ds = true ->
              0 <= fold_left (fun a c => 10 * a + digitValue c) ds acc.
Proof.
  induction ds as [|c ds IH]; intros acc Hacc H; [exact Hacc|].
  simpl in H. apply andb_true_iff in H. destruct H as [Hc Hds].
  cbn [fold_left]. apply IH; [|exact Hds].
  unfold isDigit in Hc. apply andb_true_iff in Hc. destruct Hc as [Hlo _].
  apply N.leb_le in Hlo. unfold digitValue. lia.
Qed.

Lemma digitsValue_nonneg (ds : jsstring) :
  forallb isDigit ds = true -> 0 <= digitsValue ds.
Proof. intros H. apply digitsValue_acc; [lia|exact H]. Qed.

Lemma isDigit_not_space (c : N) : isDigit c = true -> isWhiteSpace c = false.
Proof.
  unfold isDigit, isWhiteSpace. intros H. apply andb_true_iff in H.
  destruct H as [H1 H2]. apply N.leb_le in H1. apply N.leb_le in H2.
  repeat match goal with
         | |- context [(?a <=? ?b)%N] => destruct (N.leb_spec a b); try lia
         | |- context [(?a =? ?b)%N] => destruct (N.eqb_spec a b); try lia
         end; reflexivity.
Qed.

Lemma isDigit_not_sign (c : N) :
  isDigit c = true -> (c =? MINUS)%N = false /\ (c =? PLUS)%N = false.
Proof.
  unfold isDigit, MINUS, PLUS. intros H. apply andb_true_iff in H.
  destruct H as [H1 H2]. apply N.leb_le in H1. apply N.leb_le in H2.
  split; apply N.eqb_neq; lia.
Qed.

Lemma takeWhile_id {A} (p : A -> bool) (l : list A) :
  forallb p l = true -> takeWhile p l = l.
Proof.
  induction l as [|x l IH]; intros H; [reflexivity|].
  simpl in H. apply andb_true_iff in H. destruct H as [Hx Hl].
  simpl. rewrite Hx. now rewrite IH.
Qed.

Lemma parseInt_digits (ds : jsstring) :
  ds <> [] -> forallb isDigit ds = true ->
  parseInt ds = integerOfMagnitude false (digitsValue ds).
Proof.
  intros Hne H. destruct ds as [|c ds]; [congruence|].
  assert (Hall := H). simpl in H. apply andb_true_iff in H. destruct H as [Hc Hds].
  unfold parseInt, trimStart. cbn [dropWhile].
  rewrite (isDigit_not_space c Hc). unfold stripSign.
  destruct (isDigit_not_sign c Hc) as [-> ->].
  rewrite (takeWhile_id isDigit (c :: ds) Hall). reflexivity.
Qed.

Lemma roundHalfEven_nonneg (n d : Z) : 0 <= n -> 0 < d -> 0 <= roundHalfEven n d.
Proof.
  intros Hn Hd. unfold roundHalfEven.
  assert (0 <= n / d) by (apply Z.div_pos; lia).
  destruct (2 * (n mod d) ?= d); [destruct (Z.even (n / d))| |]; lia.
Qed.

Lemma nearestDouble_nonneg (n m s : Z) :
  0 <= n -> nearestDouble n 1 = Some (m, s) -> 0 <= m * 2 ^ s.
Proof.
  intros Hn. unfold nearestDouble.
  set (e := if _ : bool then _ else Z.log2 n - Z.log2 1).
  set (s0 := Z.max (e - 52) (-1074)).
  intros H.
  destruct ((0 <=? s0) && _); [discriminate|].
  injection H as <- <-.
  apply Z.mul_nonneg_nonneg; [|apply Z.pow_nonneg; lia].
  destruct (Z.leb_spec 0 s0).
  - apply (roundHalfEven_nonneg n (1 * 2 ^ s0)); [lia|].
    rewrite Z.mul_1_l. apply Z.pow_pos_nonneg; lia.
  - apply roundHalfEven_nonneg; [|lia].
    apply Z.mul_nonneg_nonneg; [lia|]. apply Z.pow_nonneg. lia.
Qed.

Lemma integerOfMagnitude_nonneg (n : Z) :
  0 <= n -> nonNegativeInteger (integerOfMagnitude false n).
Proof.
  intros Hn. unfold integerOfMagnitude.
  destruct (n <? 2 ^ 53); [exact Hn|].
  destruct (nearestDouble n 1) as [[m s]|] eqn:E; [|reflexivity].
  exact (nearestDouble_nonneg n m s Hn E).
Qed.

Lemma parseInt_digits_nonneg (ds : jsstring) :
  ds <> [] -> forallb isDigit ds = true -> nonNegativeInteger (parseInt ds).
Proof.
  intros Hne H. rewrite (parseInt_digits ds Hne H).
  apply integerOfMagnitude_nonneg, digitsValue_nonneg, H.
Qed.

Lemma isYearText_range (y : jsstring) :
  isYearText y -> 1900 <= digitsValue y <= 2099.
Proof.
  intros (c & d & Hy & Hc & Hd).
  unfold isDigit in Hc, Hd.
  apply andb_true_iff in Hc. destruct Hc as [Hc1 Hc2].
  apply andb_true_iff in Hd. destruct Hd as [Hd1 Hd2].
  apply N.leb_le in Hc1, Hc2, Hd1, Hd2.
  destruct Hy as [-> | ->]; unfold digitsValue, digitValue; cbn [fold_left];
    change (Z.of_N 49) with 49; change (Z.of_N 57) with 57;
    change (Z.of_N 50) with 50; change (Z.of_N 48) with 48; lia.
Qed.

Lemma matchYearHeader_Some (head y idx : jsstring) :
  matchYearHeader head = Some (y, idx) ->
  isYearText y /\ idx <> [] /\ forallb isDigit idx = true.
Proof.
  unfold matchYearHeader. intros H.
  destruct (matchYear (skipWhiteSpace head)) as [[y0 t]|] eqn:Ey; [|discriminate].
  destruct (matchChar LBRACKET (skipWhiteSpace t)) as [u|]; [|discriminate].
  destruct (matchDigits u) as [[idx0 v]|] eqn:Ed; [|discriminate].
  destruct (matchChar RBRACKET v); [|discriminate].
  injection H as <- <-.
  apply matchYear_Some in Ey. apply matchDigits_Some in Ed.
  destruct Ey as [_ Hy]. destruct Ed as (_ & Hne & Hd). auto.
Qed.

Lemma matchHashLabel_Some (label s ds : jsstring) :
  matchHashLabel label s = Some ds -> ds <> [] /\ forallb isDigit ds = true.
Proof.
  unfold matchHashLabel. intros H.
  destruct (matchChar HASH s) as [t|]; [|discriminate].
  destruct (stripPrefix label (skipWhiteSpace t)) as [u|]; [|discriminate].
  destruct (matchDigits (skipWhiteSpace u)) as [[ds0 v]|] eqn:Ed; [|discriminate].
  injection H as <-. apply matchDigits_Some in Ed. tauto.
Qed.

Lemma matchCountDate_Some (s d : jsstring) :
  matchCountDate s = Some d -> d <> [].
Proof.
  unfold matchCountDate. intros H.
  destruct (stripPrefix (js "Count Date:") s) as [t|]; [|discriminate].
  destruct (matchOneOrTwoDigits (skipWhiteSpace t)) as [[m t1]|]; [|discriminate].
  destruct (matchChar SLASH t1) as [t2|]; [|discriminate].
  destruct (matchOneOrTwoDigits t2) as [[d0 t3]|]; [|discriminate].
  destruct (matchChar SLASH t3) as [t4|]; [|discriminate].
  destruct (matchFourDigits t4) as [[y t5]|]; [|discriminate].
  injection H as <-. destruct m; discriminate.
Qed.

Lemma matchUnsignedDecimal_head (s m r : jsstring) :
  matchUnsignedDecimal s = Some (m, r) ->
  exists c rest, m = c :: rest /\ isDigit c = true.
Proof.
  unfold matchUnsignedDecimal. intros H.
  destruct (takeWhile isDigit s) as [|c ip] eqn:Eip; [discriminate|].
  assert (Hc : isDigit c = true).
  { assert (Hall := takeWhile_all isDigit s). rewrite Eip in Hall.
    now inversion Hall. }
  simpl in H.
  destruct (dropWhile isDigit s) as [|x u].
  - injection H as <- _. eauto.
  - destruct ((x =? DOT)%N && negb (isEmpty (takeWhile isDigit u)));
      injection H as <- _; simpl; eauto.
Qed.

Lemma parseFloat_digit_head (c : N) (rest : jsstring) :
  isDigit c = true -> parseFloat (c :: rest) <> NaN.
Proof.
  intros Hc. unfold parseFloat, trimStart. cbn [dropWhile].
  rewrite (isDigit_not_space c Hc). unfold stripSign.
  destruct (isDigit_not_sign c Hc) as [-> ->].
  assert (Hinf : startsWith (c :: rest) (js "Infinity") = false).
  { unfold startsWith. change (js "Infinity") with (73%N :: js "nfinity").
    cbn [stripPrefix].
    destruct (N.eqb_spec 73 c) as [<-|_]; [discriminate|reflexivity]. }
  rewrite Hinf. cbn [takeWhile dropWhile]. rewrite Hc.
  match goal with
  | |- (let (fp, t2) := ?p in _) <> NaN => destruct p as [fp t2]
  end.
  cbn [isEmpty andb].
  match goal with
  | |- numberOfDecimal ?a ?b ?x <> NaN => generalize b x
  end.
  intros b x. unfold numberOfDecimal.
  destruct (b =? 0); [discriminate|].
  match goal with
  | |- match ?r with _ => _ end <> NaN => destruct r as [[m s]|]
  end; [|discriminate].
  destruct (0 <=? s); discriminate.
Qed.

Lemma matchTotalHrs_Some (s m : jsstring) :
  matchTotalHrs s = Some m -> parseFloat m <> NaN.
Proof.
  unfold matchTotalHrs. intros H.
  destruct (stripPrefix (js "Total Hrs.:") s) as [t|]; [|discriminate].
  destruct (matchUnsignedDecimal (skipWhiteSpace t)) as [[m0 r]|] eqn:E; [|discriminate].
  injection H as <-. apply matchUnsignedDecimal_head in E.
  destruct E as (c & rest & -> & Hc). now apply parseFloat_digit_head.
Qed.

Lemma parseYearHeaderCell_year_index (cell : jsstring) (yh : Header.t) :
  parseYearHeaderCell cell = Some yh ->
  (exists y, Header.Year yh = Some y /\ 1900 <= y <= 2099)
  /\ (forall i, Header.CountIndex yh = Some i -> 0 <= i).
Proof.
  intros H. unfold parseYearHeaderCell in H. cbv zeta in H.
  destruct (matchYearHeader (firstLine (normalizeNewlines cell))) as [[y idx]|] eqn:E;
    [|discriminate].
  injection H as <-. cbn [Header.Year Header.CountIndex].
  apply matchYearHeader_Some in E. destruct E as (Hy & Hne & Hd). split.
  - rewrite (parseInt_year y Hy). eexists. split; [reflexivity|].
    now apply isYearText_range.
  - intros i Hi. assert (Hn := parseInt_digits_nonneg idx Hne Hd).
    destruct (parseInt idx); try discriminate. injection Hi as <-. exact Hn.
Qed.

(** X7. A composite header that parses has a Year between 1900 and 2099;
    its CountIndex is null (a run of digits too long for a number) or not
    negative; its date, when there is one, is not empty; its participant
    and species numbers are never NaN nor negative, its hours never NaN. *)
Theorem parseYearHeaderCell_ranges :
  forall cell yh,
    parseYearHeaderCell cell = Some yh ->
    (exists y, Header.Year yh = Some y /\ 1900 <= y <= 2099)
    /\ (forall i, Header.CountIndex yh = Some i -> 0 <= i)
    /\ (forall d, Header.CountDate yh = Some d -> d <> [])
    /\ (forall n, Header.NumParticipants yh = Some n -> nonNegativeInteger n)
    /\ (forall n, Header.NumSpeciesReported yh = Some n -> nonNegativeInteger n)
    /\ Header.TotalHrs yh <> Some NaN.
Proof.
  intros cell yh H.
  destruct (parseYearHeaderCell_year_index cell yh H) as [HY HI].
  split; [exact HY|]. split; [exact HI|]. clear HY HI.
  unfold parseYearHeaderCell in H. cbv zeta in H.
  destruct (matchYearHeader (firstLine (normalizeNewlines cell))) as [[y idx]|];
    [|discriminate].
  injection H as <-. cbn [Header.CountDate Header.NumParticipants
                          Header.NumSpeciesReported Header.TotalHrs].
  split; [|split; [|split]].
  - intros d Hd'.
    apply (searchFrom_prop (fun d => d <> []) (fun _ t => matchCountDate t)
             (normalizeNewlines cell)) with (prev := None); [|exact Hd'].
    intros _ t r. apply matchCountDate_Some.
  - intros n Hn.
    match type of Hn with
    | option_map _ ?t = _ => destruct t as [ds|] eqn:Es; [|discriminate]
    end.
    injection Hn as <-.
    apply (searchFrom_prop (fun ds => ds <> [] /\ forallb isDigit ds = true)) in Es.
    + destruct Es. now apply parseInt_digits_nonneg.
    + intros _ t r. apply matchHashLabel_Some.
  - intros n Hn.
    match type of Hn with
    | option_map _ ?t = _ => destruct t as [ds|] eqn:Es; [|discriminate]
    end.
    injection Hn as <-.
    apply (searchFrom_prop (fun ds => ds <> [] /\ forallb isDigit ds = true)) in Es.
    + destruct Es. now apply parseInt_digits_nonneg.
    + intros _ t r. apply matchHashLabel_Some.
  - destruct (search (fun _ t => matchTotalHrs t) (normalizeNewlines cell))
      as [m|] eqn:Es; [|discriminate].
    apply (searchFrom_prop (fun m => parseFloat m <> NaN)) in Es.
    + cbn [option_map]. congruence.
    + intros _ t r. apply matchTotalHrs_Some.
Qed.

Lemma parseYearHeaderCell_ranges_witness :
  exists yh,
    parseYearHeaderCell (lines ["2004 [105]"; "Count Date: 1/2/2005";
                                "# Participants: 12"]%string) = Some yh
    /\ exists y, Header.Year yh = Some y /\ 1900 <= y <= 2099.
Proof.
  eexists. split; [vm_compute; reflexivity|].
  refine (proj1 (parseYearHeaderCell_ranges
                   (lines ["2004 [105]"; "Count Date: 1/2/2005";
                           "# Participants: 12"]%string) _ _)).
  vm_compute. reflexivity.
Defined.

(** ** The tables of the species section *)

Lemma sorted_range_length (l : list Z) :
  forall a b,
    StronglySorted Z.lt l -> Forall (fun y => a <= y <= b) l ->
    Z.of_nat (length l) <= Z.max 0 (b - a + 1).
Proof.
  induction l as [|x l IH]; intros a b Hs Hr; [simpl; lia|].
  inversion Hs as [|x' l' Hs' Hlt]; subst.
  inversion Hr as [|x' l' Hx Hr']; subst.
  assert (H : Forall (fun y => x + 1 <= y <= b) l).
  { rewrite Forall_forall in *. intros y Hy.
    specialize (Hlt y Hy). specialize (Hr' y Hy). lia. }
  specialize (IH (x + 1) b Hs' H). cbn [length]. lia.
Qed.

Lemma scanSpecies_meta_ranges (rows : list Row) (pe : list Effort.t) :
  Forall (fun m => 0 <= Meta.CountIndex m /\ 1900 <= Meta.Year m <= 2099)
         (stMeta (scanSpecies rows pe)).
Proof.
  apply Forall_forall. intros m Hm.
  apply scanSpecies_meta in Hm. destruct Hm as (ds & d & _ & _ & Hh).
  destruct Hh as (_ & yh & Hp & Hi & Hy).
  apply parseYearHeaderCell_year_index in Hp.
  destruct Hp as ((y & Ey & Hr) & Hidx).
  rewrite Hy in Ey. injection Ey as <-. split; [now apply Hidx | exact Hr].
Qed.

Lemma meta_and_years_are_well_formed_aux (toLowerCase : jsstring -> jsstring)
    (rows : list Row) :
  NoDup (map Meta.CountIndex (meta (extractTables toLowerCase rows)))
  /\ Forall (fun m => 0 <= Meta.CountIndex m /\ 1900 <= Meta.Year m <= 2099)
            (meta (extractTables toLowerCase rows)).
Proof.
  cbn [extractTables meta]. split;
    [apply scanSpecies_NoDup | apply scanSpecies_meta_ranges].
Qed.

(** X8. In every extraction result the records of [meta] have pairwise
    distinct CountIndex values, none negative, and Years between 1900 and
    2099; so [years] lies in that range and has at most 200 entries. *)
Theorem meta_and_years_are_well_formed :
  forall toLowerCase rows,
    NoDup (map Meta.CountIndex (meta (extractTables toLowerCase rows)))
    /\ Forall (fun m => 0 <= Meta.CountIndex m /\ 1900 <= Meta.Year m <= 2099)
              (meta (extractTables toLowerCase rows))
    /\ Forall (fun y => 1900 <= y <= 2099) (years (extractTables toLowerCase rows))
    /\ (length (years (extractTables toLowerCase rows)) <= 200)%nat.
Proof.
  intros toLowerCase rows. cbn [extractTables meta years].
  assert (Hm := scanSpecies_meta_ranges rows (scanEffort rows)).
  assert (Hy : Forall (fun y => 1900 <= y <= 2099)
                 (uniqueSortedYearsFromMeta (stMeta (scanSpecies rows (scanEffort rows))))).
  { apply Forall_forall. intros y Hy. apply uniqueSortedYearsFromMeta_In in Hy.
    destruct Hy as (m & Hin & <-). rewrite Forall_forall in Hm.
    now apply Hm. }
  split; [apply scanSpecies_NoDup|]. split; [exact Hm|]. split; [exact Hy|].
  assert (H := sorted_range_length _ 1900 2099
                 (uniqueSortedYearsFromMeta_sorted _) Hy).
  lia.
Qed.

Lemma str_eqb_eq (a b : jsstring) : str_eqb a b = true <-> a = b.
Proof.
  revert b. induction a as [|x a IH]; intros [|y b]; simpl;
    try (split; [discriminate|discriminate]); [tauto|].
  rewrite andb_true_iff, N.eqb_eq, IH. split; [intros [-> ->]; reflexivity|].
  intros H. injection H as -> ->. auto.
Qed.

Lemma mapSet_keys_In {V} (k x : jsstring) (v : V) (m : list (jsstring * V)) :
  In x (map fst (mapSet str_eqb k v m)) -> x = k \/ In x (map fst m).
Proof.
  induction m as [|[k' v'] m IH]; simpl.
  - intros [<-|[]]. now left.
  - destruct (str_eqb k' k) eqn:E; simpl.
    + apply str_eqb_eq in E. subst k'. tauto.
    + intros [<-|H]; [tauto|]. destruct (IH H); tauto.
Qed.

Lemma mapSet_keys_NoDup {V} (k : jsstring) (v : V) (m : list (jsstring * V)) :
  NoDup (map fst m) -> NoDup (map fst (mapSet str_eqb k v m)).
Proof.
  induction m as [|[k' v'] m IH]; simpl; intros H.
  - constructor; [intros []|constructor].
  - inversion H as [|x l Hn Hl]; subst.
    destruct (str_eqb k' k) eqn:E; simpl.
    + apply str_eqb_eq in E. subst k'. now constructor.
    + constructor; [|now apply IH].
      intros Hin. apply mapSet_keys_In in Hin. destruct Hin as [->|Hin]; [|tauto].
      assert (E' : str_eqb k k = true) by now apply str_eqb_eq.
      congruence.
Qed.

Lemma trim_head (s : jsstring) (c : N) (t : jsstring) :
  trim s = c :: t -> isWhiteSpace c = false.
Proof.
  unfold trim. intros H.
  destruct (trimEnd_tail (trimStart s)) as (tail & E & _).
  rewrite H in E. simpl in E. unfold trimStart in E.
  exact (dropWhile_head _ _ _ _ E).
Qed.

Lemma splitOn_head (sep c : N) (t : jsstring) :
  (c =? sep)%N = false ->
  exists p ps, splitOn sep (c :: t) = (c :: p) :: ps.
Proof.
  intros H. cbn [splitOn]. rewrite H.
  destruct (splitOn sep t) as [|p ps]; eauto.
Qed.

Lemma firstLine_of_trimmed (s : jsstring) :
  isEmpty (trim s) = false ->
  trim (strOf (nth_error (splitOn NL (trim s)) 0)) <> [].
Proof.
  intros H. destruct (trim s) as [|c t] eqn:E; [discriminate|].
  assert (Hc := trim_head s c t E).
  assert (Hnl : (c =? NL)%N = false).
  { destruct (N.eqb_spec c NL) as [->|_]; [discriminate|reflexivity]. }
  destruct (splitOn_head NL c t Hnl) as (p & ps & ->).
  change (nth_error ((c :: p) :: ps) 0) with (Some (c :: p)).
  cbn [strOf]. intros Hnil.
  assert (Hb : isBlank (c :: p) = true) by (unfold isBlank; now rewrite Hnil).
  rewrite isBlank_whitespaceOnly in Hb. simpl in Hb. now rewrite Hc in Hb.
Qed.

Lemma speciesRow_countsKeysOk (d : Row) (st : ScanState) :
  countsKeysOk st -> countsKeysOk (speciesRow d st).
Proof.
  intros [Hn Hf]. unfold speciesRow.
  destruct (isEmpty (trim (strOf (nth_error d 0)))) eqn:Es; [now split|].
  cbn [orb].
  destruct (falsy (nth_error d 1)); [now split|].
  destruct (parseYearHeaderCell (strOf (nth_error d 1))) as [yh|]; [|now split].
  destruct (Header.CountIndex yh) as [idx|]; [|now split].
  destruct (Header.Year yh) as [y|]; [|now split].
  unfold countsKeysOk. cbn [stCounts]. split.
  - now apply mapSet_keys_NoDup.
  - apply Forall_forall. intros x Hx. apply mapSet_keys_In in Hx.
    destruct Hx as [->|Hx].
    + now apply firstLine_of_trimmed.
    + rewrite Forall_forall in Hf. now apply Hf.
Qed.

Lemma speciesLoop_countsKeysOk (ds : list Row) :
  forall st, countsKeysOk st -> countsKeysOk (speciesLoop ds st).
Proof.
  induction ds as [|d ds IH]; intros st H; [exact H|].
  cbn [speciesLoop]. destruct (length d =? 0)%nat; [exact H|].
  apply IH. now apply speciesRow_countsKeysOk.
Qed.

Lemma scanSpecies_countsKeysOk (rows : list Row) (pe : list Effort.t) :
  countsKeysOk (scanSpecies rows pe).
Proof.
  unfold scanSpecies.
  assert (H0 : countsKeysOk {| stMeta := []; stMetaSeen := []; stEffort := pe;
                               stCounts := [] |}).
  { split; constructor. }
  destruct (speciesSection rows); [now apply speciesLoop_countsKeysOk | exact H0].
Qed.

Lemma speciesRecord_keys (years : list Z) (entry : jsstring * list (Z * Z)) :
  map fst (Species.counts (speciesRecord years entry))
  = filter (fun y => match mapGet Z.eqb y (snd entry) with
                     | Some _ => true
                     | None => false
                     end) years.
Proof.
  unfold speciesRecord. cbn [Species.counts].
  induction years as [|y ys IH]; [reflexivity|].
  cbn [flat_map filter]. rewrite map_app, IH.
  destruct (mapGet Z.eqb y (snd entry)); reflexivity.
Qed.

Lemma filter_sorted (f : Z -> bool) (l : list Z) :
  StronglySorted Z.lt l -> StronglySorted Z.lt (filter f l).
Proof.
  induction 1 as [|x l Hs IH Hlt]; [constructor|].
  simpl. destruct (f x); [|exact IH].
  constructor; [exact IH|].
  rewrite Forall_forall in *. intros y Hy. apply filter_In in Hy.
  now apply Hlt.
Qed.

(** X9. In every extraction result the records of [speciesTable] have
    pairwise distinct, non-empty species names, and the year properties of
    each record are years of [years], in ascending order. *)
Theorem speciesTable_is_well_formed :
  forall toLowerCase rows,
    NoDup (map Species.Species (speciesTable (extractTables toLowerCase rows)))
    /\ Forall (fun r => Species.Species r <> []
                        /\ StronglySorted Z.lt (map fst (Species.counts r))
                        /\ incl (map fst (Species.counts r))
                                (years (extractTables toLowerCase rows)))
              (speciesTable (extractTables toLowerCase rows)).
Proof.
  intros toLowerCase rows. cbn [extractTables speciesTable years].
  destruct (scanSpecies_countsKeysOk rows (scanEffort rows)) as [Hn Hf].
  set (st := scanSpecies rows (scanEffort rows)) in *.
  set (ys := uniqueSortedYearsFromMeta (stMeta st)).
  split.
  - rewrite map_map.
    replace (map (fun x => Species.Species (speciesRecord ys x)) (stCounts st))
      with (map fst (stCounts st)) by (apply map_ext; reflexivity).
    exact Hn.
  - apply Forall_forall. intros r Hr. apply in_map_iff in Hr.
    destruct Hr as (entry & <- & Hin). split; [|split].
    + rewrite Forall_forall in Hf. apply Hf.
      change (Species.Species (speciesRecord ys entry)) with (fst entry).
      now apply in_map.
    + rewrite speciesRecord_keys. apply filter_sorted.
      apply uniqueSortedYearsFromMeta_sorted.
    + rewrite speciesRecord_keys. apply incl_filter.
Qed.

Lemma speciesSection_None (rows : list Row) :
  forallb (fun r => negb (isSpeciesSentinel r)) rows = true ->
  speciesSection rows = None.
Proof.
  induction rows as [|r rows IH]; [reflexivity|].
  cbn [forallb speciesSection]. intros H. apply andb_true_iff in H.
  destruct H as [Hr Hrest]. apply negb_true_iff in Hr. rewrite Hr. now apply IH.
Qed.

(** X10. Without a row whose first two cells are COM_NAME and CountYear
    there is no species section: [meta], [years] and [speciesTable] are
    empty and the participation/effort records are exactly those of their
    own section, no field filled from a header. *)
Theorem no_species_sentinel_no_species :
  forall toLowerCase rows,
    forallb (fun r => negb (isSpeciesSentinel r)) rows = true ->
    meta (extractTables toLowerCase rows) = []
    /\ years (extractTables toLowerCase rows) = []
    /\ speciesTable (extractTables toLowerCase rows) = []
    /\ participantsEffort (extractTables toLowerCase rows) = scanEffort rows.
Proof.
  intros toLowerCase rows H. apply speciesSection_None in H.
  cbn [extractTables meta years speciesTable participantsEffort].
  unfold scanSpecies. rewrite H. repeat split.
Qed.

Lemma no_species_sentinel_no_species_witness :
  meta (extractTables asciiToLowerCase
          [[js "CountYear5"]; [js "1"; js "12/20/2001"]; [js "COM_NAME"]]) = []
  /\ years (extractTables asciiToLowerCase
          [[js "CountYear5"]; [js "1"; js "12/20/2001"]; [js "COM_NAME"]]) = []
  /\ speciesTable (extractTables asciiToLowerCase
          [[js "CountYear5"]; [js "1"; js "12/20/2001"]; [js "COM_NAME"]]) = []
  /\ participantsEffort (extractTables asciiToLowerCase
          [[js "CountYear5"]; [js "1"; js "12/20/2001"]; [js "COM_NAME"]])
     = scanEffort [[js "CountYear5"]; [js "1"; js "12/20/2001"]; [js "COM_NAME"]].
Proof.
  apply no_species_sentinel_no_species. reflexivity.
Defined.

(** ** The export: [csvEscapeCell] and [rowsToCsv], read back by the lexer *)

Lemma isCsvSpecial_false (c : N) :
  isCsvSpecial c = false ->
  (c =? QUOTE)%N = false /\ (c =? COMMA)%N = false /\ (c =? NL)%N = false.
Proof.
  unfold isCsvSpecial. intros H.
  apply orb_false_iff in H. destruct H as [H _].
  apply orb_false_iff in H. destruct H as [H H3].
  apply orb_false_iff in H. destruct H as [H1 H2]. auto.
Qed.

Lemma rawLex_plain (t rest : jsstring) :
  existsb isCsvSpecial t = false ->
  rawLex false (t ++ rest) = addChars t (rawLex false rest).
Proof.
  induction t as [|c t IH]; intros H; [reflexivity|].
  cbn [existsb] in H. apply orb_false_iff in H. destruct H as [Hc Ht].
  destruct (isCsvSpecial_false c Hc) as (H1 & H2 & H3).
  cbn [app rawLex]. rewrite H1, H2, H3, (IH Ht). reflexivity.
Qed.

Lemma rawLex_inQuotes (t rest : jsstring) :
  (forall r, rest <> QUOTE :: r) ->
  rawLex true (escapeQuotes t ++ QUOTE :: rest) = addChars t (rawLex false rest).
Proof.
  intros Hrest. induction t as [|c t IH].
  - cbn [escapeQuotes app rawLex addChars fold_right]. rewrite N.eqb_refl.
    destruct rest as [|next rest']; [reflexivity|].
    destruct (N.eqb_spec next QUOTE) as [->|_]; [|reflexivity].
    exfalso. now apply (Hrest rest').
  - cbn [escapeQuotes]. destruct (N.eqb_spec c QUOTE) as [->|Hc].
    + cbn [app rawLex]. rewrite N.eqb_refl, IH. reflexivity.
    + cbn [app rawLex]. apply N.eqb_neq in Hc. rewrite Hc, IH. reflexivity.
Qed.

Lemma rawLex_cell (v : Cell) (rest : jsstring) :
  (forall r, rest <> QUOTE :: r) ->
  rawLex false (csvEscapeCell v ++ rest) = addChars (strOf v) (rawLex false rest).
Proof.
  intros Hrest. destruct v as [s|]; [|reflexivity].
  cbn [csvEscapeCell strOf]. destruct (existsb isCsvSpecial s) eqn:E.
  - unfold quoted. cbn [app rawLex]. rewrite N.eqb_refl.
    rewrite <- app_assoc. cbn [app]. now apply rawLex_inQuotes.
  - now apply rawLex_plain.
Qed.

Lemma rawLex_line (cells : list Cell) (rest : jsstring) :
  (forall r, rest <> QUOTE :: r) ->
  rawLex false (join COMMA (map csvEscapeCell cells) ++ rest)
  = putRow (map strOf cells) (rawLex false rest).
Proof.
  intros Hrest. induction cells as [|c cells IH]; [reflexivity|].
  destruct cells as [|c' cells'].
  - cbn [map join putRow]. now apply rawLex_cell.
  - change (join COMMA (map csvEscapeCell (c :: c' :: cells')))
      with (csvEscapeCell c ++ COMMA :: join COMMA (map csvEscapeCell (c' :: cells'))).
    change (putRow (map strOf (c :: c' :: cells')) (rawLex false rest))
      with (addChars (strOf c)
              (endField (putRow (map strOf (c' :: cells')) (rawLex false rest)))).
    rewrite <- app_assoc. cbn [app]. rewrite rawLex_cell by discriminate.
    cbn [rawLex]. change (COMMA =? QUOTE)%N with false. rewrite N.eqb_refl.
    cbn iota. now rewrite IH.
Qed.

Lemma rawLex_lines (ls : list (list Cell)) :
  rawLex false (join NL (map (fun cells => join COMMA (map csvEscapeCell cells)) ls))
  = putRows (map (map strOf) ls).
Proof.
  induction ls as [|l ls IH]; [reflexivity|].
  destruct ls as [|l' ls'].
  - cbn [map join putRows].
    rewrite <- (app_nil_r (join COMMA (map csvEscapeCell l))).
    now rewrite rawLex_line by discriminate.
  - set (line := fun cells => join COMMA (map csvEscapeCell cells)) in *.
    change (join NL (map line (l :: l' :: ls')))
      with (line l ++ NL :: join NL (map line (l' :: ls'))).
    change (putRows (map (map strOf) (l :: l' :: ls')))
      with (putRow (map strOf l) (endRow (putRows (map (map strOf) (l' :: ls'))))).
    unfold line at 1. rewrite rawLex_line by discriminate.
    cbn [rawLex]. change (NL =? QUOTE)%N with false.
    change (NL =? COMMA)%N with false. rewrite N.eqb_refl. cbn iota.
    now rewrite IH.
Qed.

Lemma addChars_fresh (t : jsstring) (r : Row) (g : list Row) :
  addChars t ([], r, g) = (t, r, g).
Proof.
  unfold addChars. induction t as [|c t IH]; [reflexivity|].
  cbn [fold_right]. now rewrite IH.
Qed.

Lemma putRow_fresh (cells : Row) (g : list Row) :
  gridRows (putRow cells ([], [], g)) = rawOf cells :: g.
Proof.
  destruct cells as [|c cells]; [reflexivity|].
  revert c. induction cells as [|c' cells IH]; intros c.
  - cbn [putRow]. now rewrite addChars_fresh.
  - change (putRow (c :: c' :: cells) ([], [], g))
      with (addChars c (endField (putRow (c' :: cells) ([], [], g)))).
    specialize (IH c').
    destruct (putRow (c' :: cells) ([], [], g)) as [[f r] g'].
    cbn [gridRows rawOf] in IH. injection IH as -> -> ->.
    cbn [endField]. now rewrite addChars_fresh.
Qed.

Lemma gridRows_putRows (l : Row) (ls : list Row) :
  gridRows (putRows (l :: ls)) = map rawOf (l :: ls).
Proof.
  revert l. induction ls as [|l' ls IH]; intros l.
  - cbn [putRows map]. apply putRow_fresh.
  - change (putRows (l :: l' :: ls)) with (putRow l (endRow (putRows (l' :: ls)))).
    specialize (IH l').
    destruct (putRows (l' :: ls)) as [[f r] g].
    cbn [endRow]. rewrite putRow_fresh. cbn [gridRows] in IH. rewrite IH.
    reflexivity.
Qed.

Lemma keepRows_rawOf (grid : list Row) : keepRows (map rawOf grid) = keepRows grid.
Proof.
  unfold keepRows. rewrite map_map. f_equal. apply map_ext.
  intros [|c cells]; reflexivity.
Qed.

Lemma noCR_app (a b : jsstring) : noCR a -> noCR b -> noCR (a ++ b).
Proof. unfold noCR. intros. now apply Forall_app. Qed.

Lemma csvEscapeCell_noCR (v : Cell) : noCR (strOf v) -> noCR (csvEscapeCell v).
Proof.
  destruct v as [s|]; [|constructor].
  cbn [strOf csvEscapeCell]. intros H.
  destruct (existsb isCsvSpecial s); [|exact H].
  unfold quoted. constructor; [discriminate|].
  apply noCR_app; [now apply escapeQuotes_noCR|].
  constructor; [discriminate|constructor].
Qed.

Lemma join_noCR (sep : N) (parts : list jsstring) :
  sep <> CR -> Forall noCR parts -> noCR (join sep parts).
Proof.
  intros Hsep H. induction H as [|p ps Hp Hps IH]; [constructor|].
  destruct ps as [|p' ps']; [exact Hp|].
  change (join sep (p :: p' :: ps')) with (p ++ sep :: join sep (p' :: ps')).
  apply noCR_app; [exact Hp|]. constructor; [exact Hsep|exact IH].
Qed.

Lemma exportText_noCR (ls : list (list Cell)) :
  Forall (Forall noCR) (map (map strOf) ls) ->
  noCR (join NL (map (fun cells => join COMMA (map csvEscapeCell cells)) ls)).
Proof.
  intros H. apply join_noCR; [discriminate|].
  apply Forall_forall. intros x Hx. apply in_map_iff in Hx.
  destruct Hx as (cells & <- & Hin).
  apply join_noCR; [discriminate|].
  apply Forall_forall. intros y Hy. apply in_map_iff in Hy.
  destruct Hy as (v & <- & Hv). apply csvEscapeCell_noCR.
  rewrite Forall_forall in H.
  assert (Hrow : Forall noCR (map strOf cells)) by (apply H; now apply in_map).
  rewrite Forall_forall in Hrow. apply Hrow. now apply in_map.
Qed.

Lemma rowsToCsv_cells (inherited : jsstring -> Cell) (rows : list Obj)
    (columns : list jsstring) :
  rowsToCsv inherited rows columns
  = join NL (map (fun cells => join COMMA (map csvEscapeCell cells))
               (map Some (exportCols rows columns)
                :: map (fun r => map (propOf inherited r) (exportCols rows columns))
                     rows))
  /\ exportGrid inherited rows columns
     = map (map strOf)
         (map Some (exportCols rows columns)
          :: map (fun r => map (propOf inherited r) (exportCols rows columns)) rows).
Proof.
  unfold rowsToCsv, exportGrid. cbv zeta. cbn [map]. split.
  - rewrite !map_map. f_equal. f_equal.
    apply map_ext. intros r. now rewrite map_map.
  - rewrite !map_map. f_equal.
    + rewrite <- (map_id (exportCols rows columns)) at 1. apply map_ext. reflexivity.
    + apply map_ext. intros r. now rewrite map_map.
Qed.

Lemma rawRows_rowsToCsv (inherited : jsstring -> Cell) (rows : list Obj)
    (columns : list jsstring) :
  Forall (Forall noCR) (exportGrid inherited rows columns) ->
  rawRows (rowsToCsv inherited rows columns)
  = map rawOf (exportGrid inherited rows columns).
Proof.
  destruct (rowsToCsv_cells inherited rows columns) as [-> ->]. intros H.
  unfold rawRows. rewrite normalizeNewlines_noCR by now apply exportText_noCR.
  rewrite rawLex_lines. apply gridRows_putRows.
Qed.

(** X11. Export and re-import: when no exported cell holds a carriage
    return and the caps leave room for the columns and the rows, the lexer
    reads the text written by [rowsToCsv] back to the exported grid (the
    header, then one row for each object, a cell being the own property of
    the column's name or else what the prototype chain gives for it), less
    the trailing blank cells of each row and the rows left empty, whatever
    quotes, commas and line feeds the cells hold. Without columns the
    header is [Object.keys] of the first row: array indices first. *)
Theorem rowsToCsv_round_trip :
  forall inherited rows columns maxRows maxCols,
    Forall (Forall noCR) (exportGrid inherited rows columns) ->
    1 <= maxCols ->
    Z.of_nat (length (exportCols rows columns)) <= maxCols ->
    Z.of_nat (length rows) + 1 <= maxRows ->
    parseCsvText (rowsToCsv inherited rows columns) maxRows maxCols
    = Ok (keepRows (exportGrid inherited rows columns)).
Proof.
  intros inherited rows columns R C Hcr HC Hcols Hrows.
  assert (E := rawRows_rowsToCsv inherited rows columns Hcr).
  rewrite <- keepRows_rawOf, <- E.
  apply parseCsvText_within_caps.
  - rewrite E. apply Forall_forall. intros r Hr. apply in_map_iff in Hr.
    destruct Hr as (cells & <- & Hin).
    assert (Hlen : length cells = length (exportCols rows columns)).
    { unfold exportGrid in Hin. destruct Hin as [<-|Hin]; [reflexivity|].
      apply in_map_iff in Hin. destruct Hin as (r & <- & _). apply length_map. }
    destruct cells as [|c cells]; cbn [rawOf]; [cbn [length]; lia|].
    rewrite Hlen. exact Hcols.
  - rewrite E, keepRows_rawOf. unfold keepRows.
    assert (Hg : length (exportGrid inherited rows columns) = S (length rows)).
    { unfold exportGrid. cbv zeta. cbn [length]. now rewrite length_map. }
    apply Z.le_trans with (Z.of_nat (S (length rows))); [|lia].
    apply Nat2Z.inj_le. rewrite <- Hg.
    etransitivity; [apply filter_length_le|]. now rewrite length_map.
Qed.

Lemma rowsToCsv_round_trip_witness :
  parseCsvText
    (rowsToCsv plainObjectInherited
       [[(js "Species", Some (js "Goose, Snow")); (js "2002", Some (js "12"));
         (js "1999", Some (js "7"))];
        [(js "Species", Some (QUOTE :: js "Mew" ++ [QUOTE; NL] ++ js "Gull"));
         (js "1999", None)]]
       [])
    10 10
  = Ok [[js "1999"; js "2002"; js "Species"];
        [js "7"; js "12"; js "Goose, Snow"];
        [[]; []; QUOTE :: js "Mew" ++ [QUOTE; NL] ++ js "Gull"]]
  /\ parseCsvText
       (rowsToCsv plainObjectInherited
          [[(js "a", Some (js "1")); (js "c", None)]]
          [js "a"; js "toString"; js "c"])
       10 10
     = Ok [[js "a"; js "toString"; js "c"];
           [js "1"; js "function toString() { [native code] }"]].
Proof.
  split.
  - apply (rowsToCsv_round_trip plainObjectInherited
             [[(js "Species", Some (js "Goose, Snow")); (js "2002", Some (js "12"));
               (js "1999", Some (js "7"))];
              [(js "Species", Some (QUOTE :: js "Mew" ++ [QUOTE; NL] ++ js "Gull"));
               (js "1999", None)]]
             [] 10 10).
    + vm_compute. repeat constructor; discriminate.
    + lia.
    + vm_compute. discriminate.
    + vm_compute. discriminate.
  - apply (rowsToCsv_round_trip plainObjectInherited
             [[(js "a", Some (js "1")); (js "c", None)]]
             [js "a"; js "toString"; js "c"] 10 10).
    + vm_compute. repeat constructor; discriminate.
    + lia.
    + vm_compute. discriminate.
    + vm_compute. discriminate.
Defined.

(** ** The year ranges of [main.js] *)

Lemma fold_min_spec (ys : list Z) :
  forall y,
    (fold_left Z.min ys y = y \/ In (fold_left Z.min ys y) ys)
    /\ fold_left Z.min ys y <= y
    /\ Forall (fun x => fold_left Z.min ys y <= x) ys.
Proof.
  induction ys as [|a ys IH]; intros y; cbn [fold_left].
  - repeat split; [now left | lia | constructor].
  - destruct (IH (Z.min y a)) as (Hin & Hle & Hall). repeat split.
    + destruct Hin as [E|Hin]; [|right; now right].
      rewrite E. destruct (Z.min_spec y a) as [[_ ->]|[_ ->]];
        [now left | right; now left].
    + lia.
    + constructor; [lia|exact Hall].
Qed.

Lemma fold_max_spec (ys : list Z) :
  forall y,
    (fold_left Z.max ys y = y \/ In (fold_left Z.max ys y) ys)
    /\ y <= fold_left Z.max ys y
    /\ Forall (fun x => x <= fold_left Z.max ys y) ys.
Proof.
  induction ys as [|a ys IH]; intros y; cbn [fold_left].
  - repeat split; [now left | lia | constructor].
  - destruct (IH (Z.max y a)) as (Hin & Hle & Hall). repeat split.
    + destruct Hin as [E|Hin]; [|right; now right].
      rewrite E. destruct (Z.max_spec y a) as [[_ ->]|[_ ->]];
        [right; now left | now left].
    + lia.
    + constructor; [lia|exact Hall].
Qed.

Lemma yearsLoop_In (maxY x : Z) (fuel : nat) :
  forall y,
    maxY - y + 1 <= Z.of_nat fuel ->
    (In x (yearsLoop fuel y maxY) <-> y <= x <= maxY).
Proof.
  induction fuel as [|fuel IH]; intros y Hf; cbn [yearsLoop].
  - split; [intros []|lia].
  - destruct (Z.leb_spec y maxY).
    + cbn [In]. rewrite IH by lia. lia.
    + split; [intros []|lia].
Qed.

Lemma yearsLoop_sorted (maxY : Z) (fuel : nat) :
  forall y,
    StronglySorted Z.lt (yearsLoop fuel y maxY)
    /\ Forall (fun x => y <= x) (yearsLoop fuel y maxY).
Proof.
  induction fuel as [|fuel IH]; intros y; cbn [yearsLoop].
  - split; constructor.
  - destruct (y <=? maxY); [|split; constructor].
    destruct (IH (y + 1)) as [Hs Hall]. split.
    + constructor; [exact Hs|].
      rewrite Forall_forall in *. intros x Hx. specialize (Hall x Hx). lia.
    + constructor; [lia|].
      rewrite Forall_forall in *. intros x Hx. specialize (Hall x Hx). lia.
Qed.

Lemma continuousYears_In (years : list Z) (y : Z) :
  In y (continuousYears years)
  <-> exists a b, In a years /\ In b years /\ a <= y <= b.
Proof.
  destruct years as [|y0 ys].
  - split; [intros []|]. intros (a & _ & [] & _).
  - cbn [continuousYears]. cbv zeta.
    destruct (fold_min_spec ys y0) as (Hmin & Hminle & Hminall).
    destruct (fold_max_spec ys y0) as (Hmax & Hmaxle & Hmaxall).
    rewrite yearsLoop_In by lia. split.
    + intros Hy. exists (fold_left Z.min ys y0), (fold_left Z.max ys y0).
      repeat split; try lia.
      * destruct Hmin as [->|Hin]; [now left | now right].
      * destruct Hmax as [->|Hin]; [now left | now right].
    + intros (a & b & Ha & Hb & Hab).
      rewrite Forall_forall in Hminall, Hmaxall.
      assert (fold_left Z.min ys y0 <= a).
      { destruct Ha as [<-|Ha]; [lia|now apply Hminall]. }
      assert (b <= fold_left Z.max ys y0).
      { destruct Hb as [<-|Hb]; [lia|now apply Hmaxall]. }
      lia.
Qed.

(** X12. [continuousYears] returns, in ascending order and once each, the
    integers that lie between two of the given years (the given years
    among them), and nothing for no year: the loop fills every gap between
    the least and the greatest year. *)
Theorem continuousYears_fills_the_range :
  forall years,
    (forall y, In y (continuousYears years)
               <-> exists a b, In a years /\ In b years /\ a <= y <= b)
    /\ incl years (continuousYears years)
    /\ StronglySorted Z.lt (continuousYears years).
Proof.
  intros years. split; [intros y; apply continuousYears_In|]. split.
  - intros y Hy. apply continuousYears_In. exists y, y. repeat split; auto; lia.
  - destruct years as [|y0 ys]; [constructor|].
    cbn [continuousYears]. cbv zeta. apply yearsLoop_sorted.
Qed.

Lemma setOf_In (l : list Z) (y : Z) :
  forall init,
    In y (fold_left (fun set y => setAdd y set) l init) <-> In y init \/ In y l.
Proof.
  induction l as [|x l IH]; intros init; cbn [fold_left].
  - cbn [In]. tauto.
  - rewrite IH, setAdd_In. cbn [In]. intuition congruence.
Qed.

Lemma missingYearsFromRanges_In (yearsPresent yearsFull : list Z) (y : Z) :
  In y (missingYearsFromRanges yearsPresent yearsFull)
  <-> In y yearsFull /\ ~ In y yearsPresent.
Proof.
  unfold missingYearsFromRanges. rewrite filter_In, negb_true_iff.
  assert (H := setHas_In y (fold_left (fun set y => setAdd y set) yearsPresent [])).
  rewrite setOf_In in H. cbn [In] in H.
  destruct (setHas y _); split; intros [H1 H2]; split; auto.
  - discriminate.
  - exfalso. apply H2. tauto.
  - intros Hin. assert (false = true) by tauto. discriminate.
Qed.

(** X13. The missing years the upload reports are exactly the integers
    strictly between two years of the list that are not themselves in the
    list; in general [missingYearsFromRanges] keeps, in their order, the
    years of the full range that are not present. *)
Theorem missingYears_are_the_gaps :
  forall years y,
    (In y (missingYearsFromRanges years (continuousYears years))
     <-> (exists a b, In a years /\ In b years /\ a < y < b) /\ ~ In y years)
    /\ forall yearsFull,
         In y (missingYearsFromRanges years yearsFull)
         <-> In y yearsFull /\ ~ In y years.
Proof.
  intros years y. split; [|intros yearsFull; apply missingYearsFromRanges_In].
  rewrite missingYearsFromRanges_In, continuousYears_In. split.
  - intros [(a & b & Ha & Hb & Hab) Hn]. split; [|exact Hn].
    exists a, b. repeat split; auto.
    + destruct (Z.eq_dec a y) as [->|]; [contradiction|lia].
    + destruct (Z.eq_dec b y) as [->|]; [contradiction|lia].
  - intros [(a & b & Ha & Hb & Hab) Hn]. split; [|exact Hn].
    exists a, b. repeat split; auto; lia.
Qed.

(** ** The weather join and the index range of [parseUploadedFile] *)

Lemma mapByIndex_unchanged {A} (key : A -> Z) (rows : list A) (k : Z) :
  forall m0,
    (forall r, In r rows -> key r <> k) ->
    mapGet Z.eqb k (fold_left (fun m r => mapSet Z.eqb (key r) r m) rows m0)
    = mapGet Z.eqb k m0.
Proof.
  induction rows as [|a rows IH]; intros m0 Hk; [reflexivity|].
  cbn [fold_left]. rewrite IH by (intros r Hr; apply Hk; now right).
  apply mapGet_mapSet_other. apply Hk. now left.
Qed.

Lemma mapByIndex_Some {A} (key : A -> Z) (rows : list A) (k : Z) (r : A) :
  forall m0,
    mapGet Z.eqb k (fold_left (fun m r => mapSet Z.eqb (key r) r m) rows m0) = Some r ->
    mapGet Z.eqb k m0 = Some r \/ (In r rows /\ key r = k).
Proof.
  induction rows as [|a rows IH]; intros m0 H; [now left|].
  cbn [fold_left] in H. apply IH in H. destruct H as [H|[Hin Hk]].
  - destruct (Z.eq_dec (key a) k) as [E|E].
    + rewrite E, mapGet_mapSet_same in H. injection H as <-.
      right. split; [now left|exact E].
    + rewrite mapGet_mapSet_other in H by exact E. now left.
  - right. split; [now right|exact Hk].
Qed.

Lemma mapByIndex_found {A} (key : A -> Z) (rows : list A) (k : Z) :
  forall m0,
    (exists r, In r rows /\ key r = k) ->
    exists r', mapGet Z.eqb k (fold_left (fun m r => mapSet Z.eqb (key r) r m) rows m0)
               = Some r'
               /\ In r' rows /\ key r' = k.
Proof.
  induction rows as [|a rows IH]; intros m0 (r & Hin & Hk); [destruct Hin|].
  cbn [fold_left].
  destruct (in_dec Z.eq_dec k (map key rows)) as [Hk'|Hk'].
  - apply in_map_iff in Hk'. destruct Hk' as (r' & Hkr' & Hin').
    destruct (IH (mapSet Z.eqb (key a) a m0)) as (r'' & E & Hin'' & Hk'');
      [now exists r'|].
    exists r''. repeat split; auto. now right.
  - assert (Ha : key a = k).
    { destruct Hin as [->|Hin]; [exact Hk|].
      exfalso. apply Hk'. apply in_map_iff. now exists r. }
    exists a. rewrite mapByIndex_unchanged.
    + rewrite <- Ha at 1. rewrite mapGet_mapSet_same. repeat split; auto. now left.
    + intros x Hx E. apply Hk'. apply in_map_iff. now exists x.
Qed.

Lemma NoDup_map_same {A} (f : A -> Z) (l : list A) (a b : A) :
  NoDup (map f l) -> In a l -> In b l -> f a = f b -> a = b.
Proof.
  induction l as [|x l IH]; intros Hn Ha Hb E; [destruct Ha|].
  cbn [map] in Hn. inversion Hn as [|y ys Hx Hl]; subst.
  destruct Ha as [->|Ha], Hb as [->|Hb]; auto.
  - exfalso. apply Hx. rewrite E. now apply in_map.
  - exfalso. apply Hx. rewrite <- E. now apply in_map.
Qed.

Lemma truthyYear_not_zero (y : option Z) : truthyYear y <> Some 0.
Proof.
  destruct y as [z|]; cbn [truthyYear]; [|discriminate].
  destruct (Z.eqb_spec z 0); congruence.
Qed.

Lemma truthyText_not_empty (s : option jsstring) : truthyText s <> Some [].
Proof.
  unfold truthyText. destruct s as [[|c s]|]; cbn [falsy isEmpty]; discriminate.
Qed.

Lemma joinWeatherWithYearInfo_weather (weatherRows : list Weather.t)
    (participantsEffortRows : list Effort.t) (metaRows : list Meta.t) :
  map Joined.weather
      (joinWeatherWithYearInfo weatherRows participantsEffortRows metaRows)
  = weatherRows
  /\ length (joinWeatherWithYearInfo weatherRows participantsEffortRows metaRows)
     = length weatherRows.
Proof.
  unfold joinWeatherWithYearInfo. cbv zeta. split.
  - rewrite map_map. cbn [Joined.weather]. apply map_id.
  - apply length_map.
Qed.

(** X14. The weather join keeps the weather records as they are and in
    their order; the Year it adds is never zero and the CountDate never the
    empty string (falsy values become null); a record whose CountIndex is
    met neither in the participation/effort rows nor in the meta rows gets
    a null Year and a null CountDate. *)
Theorem joinWeatherWithYearInfo_keeps_the_weather :
  forall weatherRows participantsEffortRows metaRows,
    map Joined.weather
        (joinWeatherWithYearInfo weatherRows participantsEffortRows metaRows)
    = weatherRows
    /\ Forall (fun j =>
                 Joined.Year j <> Some 0 /\ Joined.CountDate j <> Some []
                 /\ ((forall r, In r participantsEffortRows ->
                                Effort.CountIndex r
                                <> Weather.CountIndex (Joined.weather j)) ->
                     (forall m, In m metaRows ->
                                Meta.CountIndex m
                                <> Weather.CountIndex (Joined.weather j)) ->
                     Joined.Year j = None /\ Joined.CountDate j = None))
              (joinWeatherWithYearInfo weatherRows participantsEffortRows metaRows).
Proof.
  intros ws pe ms. unfold joinWeatherWithYearInfo. cbv zeta. split.
  - rewrite map_map. cbn [Joined.weather]. apply map_id.
  - apply Forall_forall. intros j Hj. apply in_map_iff in Hj.
    destruct Hj as (w & <- & _).
    cbn [Joined.Year Joined.CountDate Joined.weather]. split; [|split].
    + destruct (mapGet Z.eqb (Weather.CountIndex w) (mapByIndex Effort.CountIndex pe))
        as [r|];
        [destruct (truthyYear (Effort.Year r)) eqn:E; cbn [orNull];
         [rewrite <- E; apply truthyYear_not_zero|]|cbn [orNull]];
        (destruct (mapGet Z.eqb (Weather.CountIndex w) (mapByIndex Meta.CountIndex ms));
         [apply truthyYear_not_zero|discriminate]).
    + destruct (mapGet Z.eqb (Weather.CountIndex w) (mapByIndex Effort.CountIndex pe))
        as [r|];
        [destruct (truthyText (Effort.CountDate r)) eqn:E; cbn [orNull];
         [rewrite <- E; apply truthyText_not_empty|]|cbn [orNull]];
        (destruct (mapGet Z.eqb (Weather.CountIndex w) (mapByIndex Meta.CountIndex ms));
         [apply truthyText_not_empty|discriminate]).
    + intros Hpe Hms. unfold mapByIndex.
      rewrite (mapByIndex_unchanged Effort.CountIndex pe _ [] Hpe).
      rewrite (mapByIndex_unchanged Meta.CountIndex ms _ [] Hms).
      split; reflexivity.
Qed.

Lemma reconcileEffort_meta_year (parsed : ExtractionResult) (m : Meta.t) (r : Effort.t) :
  NoDup (map Meta.CountIndex (meta parsed)) ->
  In m (meta parsed) ->
  In r (reconcileEffort parsed) ->
  Effort.CountIndex r = Meta.CountIndex m ->
  Effort.Year r = Some (Meta.Year m).
Proof.
  intros Hn Hm Hr Hk. unfold reconcileEffort in Hr. apply in_map_iff in Hr.
  destruct Hr as (r0 & <- & _). cbn [resolveYear Effort.CountIndex Effort.Year] in *.
  unfold metaYearByIdx. rewrite Hk.
  now rewrite (metaYearByIdx_present (meta parsed) m [] Hn Hm).
Qed.

(** X15. In the tables of an upload, a weather record whose CountIndex is
    the CountIndex of a meta record carries the Year of that meta record,
    whatever the participation/effort section says. *)
Theorem uploadWeather_takes_the_meta_year :
  forall toLowerCase rows j m,
    In j (uploadWeather (extractTables toLowerCase rows)) ->
    In m (meta (extractTables toLowerCase rows)) ->
    Meta.CountIndex m = Weather.CountIndex (Joined.weather j) ->
    Joined.Year j = Some (Meta.Year m).
Proof.
  intros toLowerCase rows j m Hj Hm Hk.
  destruct (meta_and_years_are_well_formed_aux toLowerCase rows) as (Hn & Hr).
  set (parsed := extractTables toLowerCase rows) in *.
  assert (Hy : truthyYear (Some (Meta.Year m)) = Some (Meta.Year m)).
  { rewrite Forall_forall in Hr. specialize (Hr m Hm). cbn [truthyYear].
    destruct (Z.eqb_spec (Meta.Year m) 0); [lia|reflexivity]. }
  unfold uploadWeather, joinWeatherWithYearInfo in Hj. cbv zeta in Hj.
  apply in_map_iff in Hj. destruct Hj as (w & <- & _).
  cbn [Joined.Year Joined.weather] in *.
  destruct (mapGet Z.eqb (Weather.CountIndex w)
              (mapByIndex Effort.CountIndex (reconcileEffort parsed))) as [r|] eqn:Epe.
  - unfold mapByIndex in Epe. apply mapByIndex_Some in Epe.
    destruct Epe as [Epe|[Hin Hidx]]; [discriminate|].
    rewrite (reconcileEffort_meta_year parsed m r Hn Hm Hin) by congruence.
    rewrite Hy. reflexivity.
  - cbn [orNull].
    destruct (mapByIndex_found Meta.CountIndex (meta parsed) (Weather.CountIndex w) [])
      as (m' & E & Hin' & Hk'); [now exists m|].
    unfold mapByIndex. rewrite E.
    assert (m' = m) by (apply (NoDup_map_same Meta.CountIndex (meta parsed)); congruence).
    subst m'. exact Hy.
Qed.

Lemma uploadWeather_takes_the_meta_year_witness :
  exists j,
    In j (uploadWeather
            (extractTables asciiToLowerCase
               [[js "CountYear3"; js "LowTemp"]; [js "5"; js "20"; js "30"];
                [js "COM_NAME"; js "CountYear"];
                [js "Snow Goose"; js "2004 [5]"; js "7"]]))
    /\ Joined.Year j = Some 2004.
Proof.
  eexists. split; [vm_compute; left; reflexivity|].
  apply (uploadWeather_takes_the_meta_year asciiToLowerCase
           [[js "CountYear3"; js "LowTemp"]; [js "5"; js "20"; js "30"];
            [js "COM_NAME"; js "CountYear"];
            [js "Snow Goose"; js "2004 [5]"; js "7"]]
           _
           {| Meta.CountIndex := 5; Meta.Year := 2004; Meta.CountDate := None |}).
  - vm_compute. left. reflexivity.
  - vm_compute. left. reflexivity.
  - reflexivity.
Defined.

(** X16. [inferCountIndexRange] returns null exactly when the four tables
    hold no record; otherwise [sy] and [ey] are the least and the greatest
    CountIndex of the four tables, both met in one of them, and
    [inferMaxCountIndex] returns [ey]. *)
Theorem inferCountIndexRange_bounds :
  forall meta weather effort participation,
    match inferCountIndexRange meta weather effort participation with
    | None =>
        allIndices meta weather effort participation = []
        /\ inferMaxCountIndex meta weather effort participation = None
    | Some (sy, ey) =>
        In sy (allIndices meta weather effort participation)
        /\ In ey (allIndices meta weather effort participation)
        /\ Forall (fun i => sy <= i <= ey)
                  (allIndices meta weather effort participation)
        /\ inferMaxCountIndex meta weather effort participation = Some ey
    end.
Proof.
  intros ms ws es ps. unfold inferMaxCountIndex, inferCountIndexRange.
  destruct (allIndices ms ws es ps) as [|i idxs]; [split; reflexivity|].
  destruct (fold_min_spec idxs i) as (Hmin & Hminle & Hminall).
  destruct (fold_max_spec idxs i) as (Hmax & Hmaxle & Hmaxall).
  repeat split.
  - destruct Hmin as [->|H]; [now left|now right].
  - destruct Hmax as [->|H]; [now left|now right].
  - constructor; [cbn beta; lia|].
    rewrite Forall_forall in *. intros x Hx.
    specialize (Hminall x Hx). specialize (Hmaxall x Hx). cbn beta in *. lia.
Qed.

Lemma max_bounds_parts (ey : Z) (a b c d : list Z) :
  Forall (fun i => i <= ey) (a ++ b ++ c ++ d) ->
  Forall (fun i => i <= ey) a /\ Forall (fun i => i <= ey) b
  /\ Forall (fun i => i <= ey) c.
Proof.
  intros H. apply Forall_app in H. destruct H as [Ha H].
  apply Forall_app in H. destruct H as [Hb H].
  apply Forall_app in H. destruct H as [Hc _]. auto.
Qed.

Lemma uploadWeather_indices (parsed : ExtractionResult) :
  map (fun w => Weather.CountIndex (Joined.weather w)) (uploadWeather parsed)
  = map Weather.CountIndex (weatherRaw parsed).
Proof.
  unfold uploadWeather.
  rewrite <- (map_map Joined.weather Weather.CountIndex).
  now rewrite (proj1 (joinWeatherWithYearInfo_weather _ _ _)).
Qed.

Lemma reconcileEffort_indices (parsed : ExtractionResult) :
  map Hours.CountIndex (map hoursOf (reconcileEffort parsed))
  = map Effort.CountIndex (participantsEffort parsed).
Proof.
  unfold reconcileEffort. rewrite !map_map. apply map_ext. reflexivity.
Qed.

(** X25. The greatest index of an upload: [maxCountIndex] is null only
    when the extraction has no meta, weather or participation/effort
    record; otherwise no CountIndex of these three tables exceeds it. *)
Theorem upload_maxCountIndex_bounds :
  forall parsed,
    match uploadMaxCountIndex parsed with
    | None =>
        meta parsed = [] /\ weatherRaw parsed = [] /\ participantsEffort parsed = []
    | Some ey =>
        Forall (fun m => Meta.CountIndex m <= ey) (meta parsed)
        /\ Forall (fun w => Weather.CountIndex w <= ey) (weatherRaw parsed)
        /\ Forall (fun r => Effort.CountIndex r <= ey) (participantsEffort parsed)
    end.
Proof.
  intros parsed. unfold uploadMaxCountIndex, inferMaxCountIndex, inferCountIndexRange.
  unfold allIndices. rewrite uploadWeather_indices, reconcileEffort_indices.
  destruct (map Meta.CountIndex (meta parsed)
            ++ map Weather.CountIndex (weatherRaw parsed)
            ++ map Effort.CountIndex (participantsEffort parsed)
            ++ map Participation.CountIndex
                 (map participationOf (reconcileEffort parsed)))
    as [|i idxs] eqn:E.
  - apply app_eq_nil in E. destruct E as [E1 E]. apply app_eq_nil in E.
    destruct E as [E2 E]. apply app_eq_nil in E. destruct E as [E3 _].
    apply map_eq_nil in E1, E2, E3. auto.
  - cbn [snd]. destruct (fold_max_spec idxs i) as (_ & Hle & Hall).
    assert (H : Forall (fun x => x <= fold_left Z.max idxs i) (i :: idxs))
      by (constructor; assumption).
    rewrite <- E in H. apply max_bounds_parts in H. destruct H as (Ha & Hb & Hc).
    rewrite !Forall_map in Ha, Hb, Hc. auto.
Qed.

(** ** The seed script agrees with the application *)

Lemma search_trim (s : jsstring) :
  search matchYearToken (trim s) = search matchYearToken s.
Proof.
  unfold search. rewrite !search_firstYearRun by exact I.
  apply firstYearRun_trim.
Qed.

Lemma year_parsers_agree (s : jsstring) :
  noCR s ->
  parseYearFromCountDateString (Some s) = yearFromCountDateString (Some s).
Proof.
  intros H. unfold parseYearFromCountDateString, yearFromCountDateString.
  cbn [strOf].
  assert (E1 := search_trim s). assert (E2 := search_cleanText s H).
  destruct (trim s) as [|c t] eqn:Et; destruct (cleanText (Some s)) as [|c' t'] eqn:Ec;
    cbn [isEmpty]; try reflexivity.
  - rewrite E2, <- E1. reflexivity.
  - rewrite E1, <- E2. reflexivity.
  - rewrite E1, E2. reflexivity.
Qed.

Lemma resolveYear_agree (byIdx : list (Z * Z)) (r : Effort.t) :
  dateNoCR (Effort.CountDate r) ->
  resolveYearSeed byIdx r = resolveYear byIdx r.
Proof.
  intros H. unfold resolveYearSeed, resolveYear. cbv zeta.
  destruct (Effort.CountDate r) as [s|] eqn:E; [|reflexivity].
  destruct (falsy (Some s)); [reflexivity|].
  now rewrite (year_parsers_agree s (H s eq_refl)).
Qed.

(** X17. The seed script and the application reconcile the years alike:
    on every extraction result the [pe] list of [buildStateFromCsvText]
    ([scripts/build_seed_sqlite.mjs], which only trims the date before it
    looks for the year token) is the [pe] list of [parseUploadedFile]
    ([src/main.js], which cleans the date with [cleanText]). *)
Theorem seed_and_application_reconcile_alike :
  forall toLowerCase text res,
    parseHistoricalResultsByCountCsv toLowerCase text = Ok res ->
    reconcileEffortSeed res = reconcileEffort res.
Proof.
  intros toLowerCase text res H.
  apply parseHistoricalResultsByCountCsv_Ok in H. destruct H as (rows & Hrows & ->).
  apply parseCsvText_noCR in Hrows.
  assert (Hd := extractTables_dateNoCR toLowerCase rows Hrows).
  unfold reconcileEffortSeed, reconcileEffort. apply map_ext_in.
  intros r Hr. apply resolveYear_agree. rewrite Forall_forall in Hd. now apply Hd.
Qed.

Lemma seed_and_application_reconcile_alike_witness :
  reconcileEffortSeed
    (extractTables asciiToLowerCase
       [[js "CountYear5"]; [js "7"; js "12/20/2001   x"; js "4"]])
  = reconcileEffort
      (extractTables asciiToLowerCase
         [[js "CountYear5"]; [js "7"; js "12/20/2001   x"; js "4"]]).
Proof.
  apply (seed_and_application_reconcile_alike asciiToLowerCase
           (lines ["CountYear5"; "7,12/20/2001   x,4"]%string)).
  vm_compute. reflexivity.
Defined.

(** ** File names and HTML texts *)

Lemma isFilenameChar_not_space (c : N) :
  isFilenameChar c = true -> isWhiteSpace c = false.
Proof.
  intros H. apply not_true_is_false. intros Hw.
  unfold isFilenameChar in H. unfold isWhiteSpace in Hw.
  rewrite ?orb_true_iff, ?andb_true_iff, ?N.leb_le, ?N.eqb_eq in H.
  rewrite ?orb_true_iff, ?andb_true_iff, ?N.leb_le, ?N.eqb_eq in Hw.
  lia.
Qed.

Lemma replaceWhiteSpaceRuns_id (by_ : N) (s : jsstring) :
  forallb isFilenameChar s = true ->
  forall inRun, replaceWhiteSpaceRuns by_ inRun s = s.
Proof.
  induction s as [|c s IH]; intros H inRun; [reflexivity|].
  cbn [forallb] in H. apply andb_true_iff in H. destruct H as [Hc Hs].
  cbn [replaceWhiteSpaceRuns]. rewrite (isFilenameChar_not_space c Hc).
  now rewrite IH.
Qed.

Lemma filter_id {A} (p : A -> bool) (l : list A) :
  forallb p l = true -> filter p l = l.
Proof.
  induction l as [|x l IH]; intros H; [reflexivity|].
  cbn [forallb] in H. apply andb_true_iff in H. destruct H as [Hx Hl].
  cbn [filter]. rewrite Hx. now rewrite IH.
Qed.

Lemma forallb_filter_same {A} (p : A -> bool) (l : list A) :
  forallb p (filter p l) = true.
Proof.
  apply forallb_forall. intros x Hx. now apply filter_In in Hx.
Qed.

Lemma forallb_firstn {A} (p : A -> bool) (l : list A) :
  forallb p l = true -> forall n, forallb p (firstn n l) = true.
Proof.
  induction l as [|x l IH]; intros H [|n]; try reflexivity.
  cbn [forallb] in H. apply andb_true_iff in H. destruct H as [Hx Hl].
  cbn [firstn forallb]. rewrite Hx. now apply IH.
Qed.

Lemma trim_id (s : jsstring) :
  forallb (fun c => negb (isWhiteSpace c)) s = true -> trim s = s.
Proof.
  intros H. unfold trim, trimStart, trimEnd.
  assert (Hd : forall l, forallb (fun c => negb (isWhiteSpace c)) l = true ->
                         dropWhile isWhiteSpace l = l).
  { intros [|c l] Hl; [reflexivity|]. cbn [forallb] in Hl.
    apply andb_true_iff in Hl. destruct Hl as [Hc _].
    apply negb_true_iff in Hc. cbn [dropWhile]. now rewrite Hc. }
  rewrite (Hd s H), Hd, rev_involutive; [reflexivity|].
  apply forallb_forall. intros x Hx. rewrite forallb_forall in H.
  apply H. now apply in_rev.
Qed.

(** X18. A sanitized file-name part holds only letters, digits, dots,
    underscores and hyphens, has at most 80 code units, and is left as it
    is when sanitized again. *)
Theorem sanitizeFilenamePart_is_safe :
  forall s,
    forallb isFilenameChar (sanitizeFilenamePart s) = true
    /\ (length (sanitizeFilenamePart s) <= 80)%nat
    /\ sanitizeFilenamePart (Some (sanitizeFilenamePart s)) = sanitizeFilenamePart s.
Proof.
  intros s.
  assert (Hsafe : forallb isFilenameChar (sanitizeFilenamePart s) = true).
  { unfold sanitizeFilenamePart. apply forallb_firstn, forallb_filter_same. }
  assert (Hlen : (length (sanitizeFilenamePart s) <= 80)%nat).
  { unfold sanitizeFilenamePart. apply firstn_le_length. }
  split; [exact Hsafe|]. split; [exact Hlen|].
  remember (sanitizeFilenamePart s) as out eqn:E. clear E s.
  destruct out as [|c o]; [reflexivity|].
  unfold sanitizeFilenamePart. cbn [falsy isEmpty strOf].
  rewrite trim_id.
  - rewrite replaceWhiteSpaceRuns_id by exact Hsafe.
    rewrite filter_id by exact Hsafe. now apply firstn_all2.
  - apply forallb_forall. intros x Hx. rewrite forallb_forall in Hsafe.
    apply negb_true_iff, isFilenameChar_not_space. now apply Hsafe.
Qed.

Lemma replaceAllChar_compose (c : N) (by_ : jsstring) (f : N -> jsstring)
    (s : jsstring) :
  replaceAllChar c by_ (flat_map f s)
  = flat_map (fun x => replaceAllChar c by_ (f x)) s.
Proof.
  unfold replaceAllChar. induction s as [|x s IH]; [reflexivity|].
  cbn [flat_map]. now rewrite flat_map_app, IH.
Qed.

Lemma escapeHtml_one (x : N) : escapeHtml [x] = htmlEntity x.
Proof.
  unfold htmlEntity.
  destruct (N.eqb_spec x 38) as [->|H1]; [reflexivity|].
  destruct (N.eqb_spec x 60) as [->|H2]; [reflexivity|].
  destruct (N.eqb_spec x 62) as [->|H3]; [reflexivity|].
  destruct (N.eqb_spec x QUOTE) as [->|H4]; [reflexivity|].
  destruct (N.eqb_spec x 39) as [->|H5]; [reflexivity|].
  unfold escapeHtml, replaceAllChar. cbn [flat_map app].
  apply N.eqb_neq in H1, H2, H3, H4, H5.
  rewrite H1. cbn [flat_map app]. rewrite H2. cbn [flat_map app].
  rewrite H3. cbn [flat_map app]. rewrite H4. cbn [flat_map app].
  rewrite H5. reflexivity.
Qed.

Lemma escapeHtml_flat_map (s : jsstring) : escapeHtml s = flat_map htmlEntity s.
Proof.
  transitivity (flat_map (fun x => escapeHtml [x]) s).
  - unfold escapeHtml.
    replace (replaceAllChar 38 (js "&amp;") s)
      with (flat_map (fun x => replaceAllChar 38 (js "&amp;") [x]) s).
    + rewrite !replaceAllChar_compose. reflexivity.
    + unfold replaceAllChar. apply flat_map_ext. intros x. cbn [flat_map].
      apply app_nil_r.
  - apply flat_map_ext, escapeHtml_one.
Qed.

Lemma htmlEntity_safe (x : N) : forallb (fun c => negb (isHtmlUnsafe c)) (htmlEntity x) = true.
Proof.
  unfold htmlEntity.
  destruct (N.eqb_spec x 38); [reflexivity|].
  destruct (N.eqb_spec x 60) as [|H2]; [reflexivity|].
  destruct (N.eqb_spec x 62) as [|H3]; [reflexivity|].
  destruct (N.eqb_spec x QUOTE) as [|H4]; [reflexivity|].
  destruct (N.eqb_spec x 39) as [|H5]; [reflexivity|].
  cbn [forallb]. unfold isHtmlUnsafe.
  apply N.eqb_neq in H2, H3, H4, H5. rewrite H2, H3, H4, H5. reflexivity.
Qed.

(** X19. The five replacements of [escapeHtml], made one after the other
    on the whole text, amount to one pass that writes each code unit as
    its entity: no ampersand written by a replacement is escaped again.
    The text returned holds no angle bracket and no quote of either
    kind. *)
Theorem escapeHtml_is_one_pass :
  forall s,
    escapeHtml s = flat_map htmlEntity s
    /\ forallb (fun c => negb (isHtmlUnsafe c)) (escapeHtml s) = true.
Proof.
  intros s. split; [apply escapeHtml_flat_map|].
  rewrite escapeHtml_flat_map. induction s as [|x s IH]; [reflexivity|].
  cbn [flat_map]. rewrite forallb_app, IH, htmlEntity_safe. reflexivity.
Qed.

(** ** The count information *)

Lemma hd_firstn {A} (d : A) (k : nat) (l : list A) :
  hd d (firstn (S k) l) = hd d l.
Proof. destruct l; reflexivity. Qed.

Lemma scanCompiler_firstn (toLowerCase : jsstring -> jsstring) (n : nat) :
  forall k rows ci,
    (n < k)%nat ->
    scanCompiler toLowerCase n (firstn k rows) ci = scanCompiler toLowerCase n rows ci.
Proof.
  induction n as [|n IH]; intros k rows ci Hk.
  - destruct (firstn k rows); reflexivity.
  - destruct k as [|k]; [lia|]. destruct rows as [|r rest]; [reflexivity|].
    cbn [firstn scanCompiler].
    destruct k as [|k]; [lia|]. rewrite hd_firstn. apply IH. lia.
Qed.

Lemma scanCircle_firstn (n : nat) :
  forall k rows ci,
    (n < k)%nat ->
    scanCircle n (firstn k rows) ci = scanCircle n rows ci.
Proof.
  induction n as [|n IH]; intros k rows ci Hk.
  - destruct (firstn k rows); reflexivity.
  - destruct k as [|k]; [lia|]. destruct rows as [|r rest]; [reflexivity|].
    cbn [firstn scanCircle].
    destruct k as [|k]; [lia|]. rewrite hd_firstn.
    destruct (cellIs (nth_error r 0) (js "CircleName")
              && cellIs (nth_error r 1) (js "Abbrev")); [reflexivity|].
    apply IH. lia.
Qed.

(** X20. The count information is read from the first 81 rows only (the
    80 rows the compiler scan visits and the row below the last of them;
    the circle scan stays within the first 51): rows further down never
    change it. *)
Theorem countInfo_is_read_from_the_first_rows :
  forall toLowerCase rows,
    countInfo (extractTables toLowerCase rows)
    = countInfo (extractTables toLowerCase (firstn 81 rows)).
Proof.
  intros toLowerCase rows. cbn [extractTables countInfo].
  rewrite (scanCompiler_firstn toLowerCase 80 81 rows) by lia.
  now rewrite (scanCircle_firstn 50 81 rows) by lia.
Qed.

Lemma orElse_ok (s : jsstring) (old : option jsstring) :
  old <> Some [] -> orElse s old <> Some [].
Proof. intros H. unfold orElse. destruct s; [exact H|discriminate]. Qed.

Lemma firstNonEmpty_ok (cells : Row) (v : jsstring) :
  firstNonEmpty cells = Some v -> v <> [].
Proof.
  induction cells as [|c cs IH]; [discriminate|].
  cbn [firstNonEmpty]. destruct (norm (Some c)) as [|x s] eqn:E; cbn [isEmpty].
  - exact IH.
  - intros H. injection H as <-. discriminate.
Qed.

Lemma inlineValue_ok (cell : jsstring) (r : Row) (j : nat) (v : jsstring) :
  inlineValue cell r j = Some v -> v <> [].
Proof.
  unfold inlineValue.
  destruct (trim (join COLON (tl (splitOn COLON cell)))) as [|x s]; cbn [isEmpty].
  - apply firstNonEmpty_ok.
  - intros H. injection H as <-. discriminate.
Qed.

Lemma readCompilerColumns_ok (h : HeaderIndexes) (v : Row) (ci : CountInfo.t) :
  countInfoOk ci -> countInfoOk (readCompilerColumns h v ci).
Proof.
  intros (H1 & H2 & H3 & H4 & H5 & H6 & H7 & H8).
  unfold countInfoOk, readCompilerColumns.
  cbn [CountInfo.CountName CountInfo.CountCode CountInfo.CompilerFirstName
       CountInfo.CompilerLastName CountInfo.CompilerName CountInfo.CompilerEmail
       CountInfo.Lat CountInfo.Lon].
  repeat split; try assumption;
    match goal with
    | |- match ?i with _ => _ end <> _ => destruct i; [now apply orElse_ok|assumption]
    end.
Qed.

Lemma scanInlineCells_ok (toLowerCase : jsstring -> jsstring) (r : Row) (cells : Row) :
  forall j ci, countInfoOk ci -> countInfoOk (scanInlineCells toLowerCase r j cells ci).
Proof.
  induction cells as [|c cs IH]; intros j ci H; [exact H|].
  cbn [scanInlineCells]. cbv zeta.
  destruct (isEmpty (norm (Some c))); [now apply IH|].
  destruct (includes _ _ || _).
  - apply IH. destruct (inlineValue (norm (Some c)) r j) as [v|] eqn:E; [|exact H].
    apply inlineValue_ok in E.
    destruct H as (H1 & H2 & H3 & H4 & H5 & H6 & H7 & H8).
    unfold countInfoOk, setCompilerEmail. cbn. repeat split; try assumption.
    congruence.
  - destruct (startsWith _ _ || _); [|now apply IH].
    apply IH. destruct (inlineValue (norm (Some c)) r j) as [v|] eqn:E; [|exact H].
    apply inlineValue_ok in E.
    destruct H as (H1 & H2 & H3 & H4 & H5 & H6 & H7 & H8).
    unfold countInfoOk, setCompilerName. cbn. repeat split; try assumption.
    congruence.
Qed.

Lemma scanCompiler_ok (toLowerCase : jsstring -> jsstring) (n : nat) :
  forall rows ci, countInfoOk ci -> countInfoOk (scanCompiler toLowerCase n rows ci).
Proof.
  induction n as [|n IH]; intros rows ci H; [exact H|].
  destruct rows as [|r rest]; [exact H|].
  cbn [scanCompiler]. apply IH. unfold scanCompilerRow.
  destruct r as [|c r']; [exact H|]. cbv zeta.
  apply scanInlineCells_ok.
  destruct (0 <? _)%nat; [now apply readCompilerColumns_ok|exact H].
Qed.

Lemma finiteNumber_ok (x : Number) : finiteOrNull (finiteNumber x).
Proof. destruct x; exact I. Qed.

Lemma parseLatLong_ok (v : Cell) :
  finiteOrNull (fst (parseLatLong v)) /\ finiteOrNull (snd (parseLatLong v)).
Proof.
  unfold parseLatLong. cbv zeta.
  destruct (isEmpty _ || _); [split; exact I|].
  split; apply finiteNumber_ok.
Qed.

Lemma scanCircle_ok (n : nat) :
  forall rows ci, countInfoOk ci -> countInfoOk (scanCircle n rows ci).
Proof.
  induction n as [|n IH]; intros rows ci H; [exact H|].
  destruct rows as [|r rest]; [exact H|].
  cbn [scanCircle].
  destruct (cellIs _ _ && _); [|now apply IH].
  destruct H as (H1 & H2 & H3 & H4 & H5 & H6 & H7 & H8).
  destruct (parseLatLong_ok (nth_error (hd [] rest) 2)) as [Hlat Hlon].
  unfold countInfoOk, readCircle. cbv zeta.
  cbn [CountInfo.CountName CountInfo.CountCode CountInfo.CompilerFirstName
       CountInfo.CompilerLastName CountInfo.CompilerName CountInfo.CompilerEmail
       CountInfo.Lat CountInfo.Lon].
  repeat split; try assumption; apply orElse_ok; discriminate.
Qed.

(** X21. In every extraction result no text field of [countInfo] (the
    count name and code, the four compiler fields) is the empty string:
    each is null or holds text; the latitude and the longitude are null or
    finite numbers. *)
Theorem countInfo_fields_are_null_or_filled :
  forall toLowerCase rows,
    CountInfo.CountName (countInfo (extractTables toLowerCase rows)) <> Some []
    /\ CountInfo.CountCode (countInfo (extractTables toLowerCase rows)) <> Some []
    /\ CountInfo.CompilerFirstName (countInfo (extractTables toLowerCase rows))
       <> Some []
    /\ CountInfo.CompilerLastName (countInfo (extractTables toLowerCase rows))
       <> Some []
    /\ CountInfo.CompilerName (countInfo (extractTables toLowerCase rows)) <> Some []
    /\ CountInfo.CompilerEmail (countInfo (extractTables toLowerCase rows)) <> Some []
    /\ finiteOrNull (CountInfo.Lat (countInfo (extractTables toLowerCase rows)))
    /\ finiteOrNull (CountInfo.Lon (countInfo (extractTables toLowerCase rows))).
Proof.
  intros toLowerCase rows.
  change (countInfoOk (countInfo (extractTables toLowerCase rows))).
  cbn [extractTables countInfo].
  apply scanCircle_ok, scanCompiler_ok.
  unfold countInfoOk, emptyCountInfo. cbn. repeat split; discriminate.
Qed.

(** ** One exported cell, carriage returns included *)

Lemma replaceCRLF_cons_other (c : N) (s : jsstring) :
  (c =? CR)%N = false -> replaceCRLF (c :: s) = c :: replaceCRLF s.
Proof. intros H. cbn [replaceCRLF]. now rewrite H. Qed.

Lemma replaceCRLF_escapeQuotes (s : jsstring) :
  replaceCRLF (escapeQuotes s ++ [QUOTE]) = escapeQuotes (replaceCRLF s) ++ [QUOTE].
Proof.
  induction s as [s IH] using (well_founded_induction
                                 (wf_inverse_image _ nat _ (@length N) lt_wf)).
  destruct s as [|c rest]; [reflexivity|].
  assert (IHrest := IH rest (Nat.lt_succ_diag_r _)).
  destruct (N.eqb_spec c CR) as [->|Hc].
  - destruct rest as [|d rest']; [reflexivity|].
    destruct (N.eqb_spec d NL) as [->|Hd].
    + change (escapeQuotes (CR :: NL :: rest') ++ [QUOTE])
        with (CR :: NL :: (escapeQuotes rest' ++ [QUOTE])).
      change (replaceCRLF (CR :: NL :: rest')) with (NL :: replaceCRLF rest').
      change (replaceCRLF (CR :: NL :: (escapeQuotes rest' ++ [QUOTE])))
        with (NL :: replaceCRLF (escapeQuotes rest' ++ [QUOTE])).
      rewrite IH by (simpl; lia). reflexivity.
    + assert (E : replaceCRLF (CR :: d :: rest') = CR :: replaceCRLF (d :: rest')).
      { cbn [replaceCRLF]. change (CR =? CR)%N with true. cbn iota.
        apply N.eqb_neq in Hd. now rewrite Hd. }
      rewrite E.
      change (escapeQuotes (CR :: replaceCRLF (d :: rest')))
        with (CR :: escapeQuotes (replaceCRLF (d :: rest'))).
      change (escapeQuotes (CR :: d :: rest') ++ [QUOTE])
        with (CR :: (escapeQuotes (d :: rest') ++ [QUOTE])).
      change ((CR :: escapeQuotes (replaceCRLF (d :: rest'))) ++ [QUOTE])
        with (CR :: (escapeQuotes (replaceCRLF (d :: rest')) ++ [QUOTE])).
      rewrite <- IHrest.
      destruct (escapeQuotes (d :: rest') ++ [QUOTE]) as [|x t] eqn:Ex.
      * reflexivity.
      * assert (Hx : (x =? NL)%N = false).
        { cbn [escapeQuotes] in Ex. destruct (N.eqb_spec d QUOTE) as [->|_];
            injection Ex as <- _; [reflexivity|now apply N.eqb_neq]. }
        cbn [replaceCRLF]. change (CR =? CR)%N with true. cbn iota.
        now rewrite Hx.
  - apply N.eqb_neq in Hc. rewrite (replaceCRLF_cons_other c rest Hc).
    cbn [escapeQuotes]. destruct (N.eqb_spec c QUOTE) as [->|_].
    + cbn [app]. rewrite !replaceCRLF_cons_other by reflexivity.
      now rewrite IHrest.
    + cbn [app]. rewrite (replaceCRLF_cons_other c _ Hc). now rewrite IHrest.
Qed.

Lemma replaceCR_escapeQuotes (s : jsstring) :
  replaceCR (escapeQuotes s ++ [QUOTE]) = escapeQuotes (replaceCR s) ++ [QUOTE].
Proof.
  unfold replaceCR. induction s as [|c s IH]; [reflexivity|].
  cbn [escapeQuotes]. destruct (N.eqb_spec c QUOTE) as [->|Hq].
  - cbn [map app]. change (QUOTE =? CR)%N with false. cbn iota.
    cbn [escapeQuotes]. rewrite N.eqb_refl. cbn [app]. now rewrite IH.
  - cbn [map app]. rewrite IH. destruct (N.eqb_spec c CR) as [->|_].
    + reflexivity.
    + cbn [escapeQuotes]. apply N.eqb_neq in Hq. now rewrite Hq.
Qed.

Lemma normalizeNewlines_quoted (s : jsstring) :
  normalizeNewlines (quoted s) = quoted (normalizeNewlines s).
Proof.
  unfold normalizeNewlines, quoted.
  rewrite replaceCRLF_cons_other by reflexivity.
  rewrite replaceCRLF_escapeQuotes.
  change (replaceCR (QUOTE :: ?x)) with (QUOTE :: replaceCR x).
  unfold replaceCR at 1. cbn [map]. change (QUOTE =? CR)%N with false. cbn iota.
  fold (replaceCR (escapeQuotes (replaceCRLF s) ++ [QUOTE])).
  now rewrite replaceCR_escapeQuotes.
Qed.

Lemma plain_noCR (s : jsstring) : existsb isCsvSpecial s = false -> noCR s.
Proof.
  induction s as [|c s IH]; intros H; [constructor|].
  cbn [existsb] in H. apply orb_false_iff in H. destruct H as [Hc Hs].
  constructor; [|now apply IH].
  unfold isCsvSpecial in Hc. apply orb_false_iff in Hc. destruct Hc as [_ Hc].
  now apply N.eqb_neq.
Qed.

Lemma rawRows_csvEscapeCell (s : jsstring) :
  rawRows (csvEscapeCell (Some s)) = [[normalizeNewlines s]].
Proof.
  unfold rawRows. cbn [csvEscapeCell].
  destruct (existsb isCsvSpecial s) eqn:E.
  - rewrite normalizeNewlines_quoted. unfold quoted. cbn [rawLex].
    rewrite N.eqb_refl. rewrite rawLex_inQuotes by discriminate.
    cbn [rawLex]. now rewrite addChars_fresh.
  - rewrite (normalizeNewlines_noCR s (plain_noCR s E)).
    rewrite <- (app_nil_r s) at 1. rewrite rawLex_plain by exact E.
    cbn [rawLex]. now rewrite addChars_fresh.
Qed.

(** X22. One exported cell read back: whatever the text of the cell, the
    lexer reads what [csvEscapeCell] writes for it as one row of one field
    holding the text with its line ends normalized (nothing when that is
    blank). A carriage return of a cell is therefore not kept: it comes
    back as a line feed, although the cell was quoted for it. *)
Theorem csvEscapeCell_read_back :
  forall s maxRows maxCols,
    1 <= maxRows -> 1 <= maxCols ->
    parseCsvText (csvEscapeCell (Some s)) maxRows maxCols
    = Ok (keepRows [[normalizeNewlines s]]).
Proof.
  intros s R C HR HC. rewrite <- rawRows_csvEscapeCell.
  apply parseCsvText_within_caps; rewrite rawRows_csvEscapeCell.
  - constructor; [cbn [length]; lia|constructor].
  - unfold keepRows. cbn [map filter].
    destruct (negb (isNil (popBlank [normalizeNewlines s]))); cbn [length]; lia.
Qed.

Lemma csvEscapeCell_read_back_witness :
  parseCsvText (csvEscapeCell (Some [97; CR; NL; 98; CR; 99]%N)) 1 1
  = Ok [[[97; NL; 98; NL; 99]%N]].
Proof.
  apply (csvEscapeCell_read_back [97; CR; NL; 98; CR; 99]%N 1 1); lia.
Defined.

(** ** Titles: [withCbcSuffix] *)

Lemma trim_last (s : jsstring) (c : N) (t : jsstring) :
  rev (trim s) = c :: t -> isWhiteSpace c = false.
Proof.
  unfold trim, trimEnd. rewrite rev_involutive. apply dropWhile_head.
Qed.

Lemma trim_fixed (y : jsstring) :
  (forall c t, y = c :: t -> isWhiteSpace c = false) ->
  (forall c t, rev y = c :: t -> isWhiteSpace c = false) ->
  trim y = y.
Proof.
  intros Hh Hl. unfold trim, trimStart, trimEnd.
  assert (E1 : dropWhile isWhiteSpace y = y).
  { destruct y as [|c t]; [reflexivity|]. cbn [dropWhile].
    now rewrite (Hh c t eq_refl). }
  rewrite E1.
  assert (E2 : dropWhile isWhiteSpace (rev y) = rev y).
  { destruct (rev y) as [|c t] eqn:E; [reflexivity|]. cbn [dropWhile].
    now rewrite (Hl c t eq_refl). }
  rewrite E2. apply rev_involutive.
Qed.

Lemma trim_idempotent (s : jsstring) : trim (trim s) = trim s.
Proof.
  apply trim_fixed.
  - intros c t E. now apply (trim_head s c t).
  - intros c t E. now apply (trim_last s c t).
Qed.

Lemma search_found {A} (m : option N -> jsstring -> option A) (pre post : jsstring)
    (r : A) :
  m (lastOr None pre) post = Some r -> search m (pre ++ post) <> None.
Proof.
  intros H Hn. unfold search in Hn.
  rewrite (searchFrom_None m (pre ++ post) None Hn pre post eq_refl) in H.
  discriminate.
Qed.

Lemma withCbcSuffix_cases (name : Cell) :
  withCbcSuffix name = js "CBC"
  \/ exists c t,
       withCbcSuffix name = c :: t
       /\ trim (c :: t) = c :: t
       /\ search matchCbcToken (c :: t) <> None.
Proof.
  unfold withCbcSuffix. cbv zeta.
  match goal with |- context [trim ?y] => remember y as x eqn:Ex end. clear Ex.
  destruct (trim x) as [|c t] eqn:Es; cbn [isEmpty]; [now left|right].
  destruct (search matchCbcToken (c :: t)) as [u|] eqn:Et.
  - exists c, t. split; [reflexivity|]. split; [|congruence].
    rewrite <- Es. apply trim_idempotent.
  - exists c, (t ++ js " CBC"). split; [reflexivity|]. split.
    + apply trim_fixed.
      * intros c' t' E. injection E as <- _. now apply (trim_head x c t).
      * intros c' t' E.
        change (c :: t ++ js " CBC") with ((c :: t) ++ js " CBC") in E.
        rewrite rev_app_distr in E. injection E as <- _. reflexivity.
    + change (c :: t ++ js " CBC") with ((c :: t) ++ [SPACE] ++ js "CBC").
      rewrite app_assoc. apply (search_found _ _ _ tt).
      unfold lastOr. rewrite rev_app_distr. reflexivity.
Qed.

(** X23. The title returned by [withCbcSuffix] always holds the word CBC
    (in any letter case, between word boundaries), and giving it a suffix
    again changes nothing. *)
Theorem withCbcSuffix_is_idempotent :
  forall name,
    search matchCbcToken (withCbcSuffix name) <> None
    /\ withCbcSuffix (Some (withCbcSuffix name)) = withCbcSuffix name.
Proof.
  intros name. destruct (withCbcSuffix_cases name) as [->|(c & t & -> & Ht & Hs)].
  - split; [vm_compute; discriminate|reflexivity].
  - split; [exact Hs|].
    unfold withCbcSuffix. cbv zeta. cbn [falsy isEmpty strOf].
    rewrite Ht. cbn [isEmpty].
    destruct (search matchCbcToken (c :: t)); [reflexivity|now elim Hs].
Qed.

(** ** Where the counts of the species table come from *)

Lemma mapSet_In {K V} (eqb : K -> K -> bool) (k : K) (v : V) (m : list (K * V))
    (e : K * V) :
  In e (mapSet eqb k v m) -> e = (k, v) \/ In e m.
Proof.
  induction m as [|[k' v'] m IH]; cbn [mapSet].
  - intros [<-|[]]. now left.
  - destruct (eqb k' k).
    + intros [<-|H]; [now left|right; now right].
    + intros [<-|H]; [right; now left|].
      destruct (IH H); [now left|right; now right].
Qed.

Lemma mapGet_In {K V} (eqb : K -> K -> bool) (k : K) (v : V) (m : list (K * V)) :
  mapGet eqb k m = Some v -> exists k', In (k', v) m /\ eqb k' k = true.
Proof.
  induction m as [|[k' v'] m IH]; cbn [mapGet]; [discriminate|].
  destruct (eqb k' k) eqn:E.
  - intros H. injection H as <-. exists k'. split; [now left|exact E].
  - intros H. destruct (IH H) as (k'' & Hin & Hk). exists k''.
    split; [now right|exact Hk].
Qed.

Lemma mapGet_mapSet_cases {V} (k y : Z) (v c : V) (m : list (Z * V)) :
  mapGet Z.eqb y (mapSet Z.eqb k v m) = Some c ->
  (y = k /\ c = v) \/ mapGet Z.eqb y m = Some c.
Proof.
  destruct (Z.eq_dec k y) as [->|Hk].
  - rewrite mapGet_mapSet_same. intros H. injection H as <-. now left.
  - rewrite mapGet_mapSet_other by exact Hk. now right.
Qed.

Lemma speciesRow_countsFrom (all : list Row) (d : Row) (st : ScanState) :
  In d all -> countsFrom all st -> countsFrom all (speciesRow d st).
Proof.
  intros Hd Hst. unfold speciesRow.
  destruct (isEmpty (trim (strOf (nth_error d 0)))) eqn:Es; [exact Hst|].
  cbn [orb].
  destruct (falsy (nth_error d 1)); [exact Hst|].
  destruct (parseYearHeaderCell (strOf (nth_error d 1))) as [yh|] eqn:Ep; [|exact Hst].
  destruct (Header.CountIndex yh) as [idx|] eqn:Ei; [|exact Hst].
  destruct (Header.Year yh) as [year|] eqn:Ey; [|exact Hst].
  cbv zeta. unfold countsFrom. cbn [stCounts].
  intros name m Hin y c Hget.
  apply mapSet_In in Hin. destruct Hin as [E|Hin]; [|now apply (Hst name m)].
  injection E as -> ->.
  apply mapGet_mapSet_cases in Hget. destruct Hget as [[-> ->]|Hget].
  - exists d. split; [exact Hd|]. unfold CountOf.
    split; [exact Es|]. split; [reflexivity|]. split; [|reflexivity].
    exists yh. split; [exact Ep|]. split; [exact Ey|]. congruence.
  - match type of Hget with
    | mapGet _ _ (match ?o with _ => _ end) = _ => destruct o as [m0|] eqn:E0
    end; [|discriminate].
    apply mapGet_In in E0. destruct E0 as (k' & Hin & Hk).
    apply str_eqb_eq in Hk. subst k'. now apply (Hst _ m0).
Qed.

Lemma speciesLoop_countsFrom (all : list Row) (ds : list Row) :
  forall st,
    incl ds all -> countsFrom all st -> countsFrom all (speciesLoop ds st).
Proof.
  induction ds as [|d ds IH]; intros st Hincl Hst; [exact Hst|].
  cbn [speciesLoop]. destruct (length d =? 0)%nat; [exact Hst|].
  apply IH.
  - intros x Hx. apply Hincl. now right.
  - apply speciesRow_countsFrom; [|exact Hst]. apply Hincl. now left.
Qed.

(** X24. Every count of the species table was read from a row of the
    species section: a year property of a record, with its value, comes
    from a row after the sentinel whose first cell names that species,
    whose second cell is a composite header of that year, and whose third
    cell reads as that value (zero when it does not read as an integer). *)
Theorem speciesTable_counts_come_from_rows :
  forall toLowerCase rows r y c,
    In r (speciesTable (extractTables toLowerCase rows)) ->
    In (y, c) (Species.counts r) ->
    exists ds d,
      speciesSection rows = Some ds /\ In d ds
      /\ CountOf d (Species.Species r) y c.
Proof.
  intros toLowerCase rows r y c Hr Hc.
  cbn [extractTables speciesTable] in Hr. apply in_map_iff in Hr.
  destruct Hr as ([name m] & <- & Hin).
  unfold speciesRecord in Hc. cbn [Species.counts Species.Species fst snd] in *.
  apply in_flat_map in Hc. destruct Hc as (y' & _ & Hc).
  destruct (mapGet Z.eqb y' m) as [c'|] eqn:Eg; [|destruct Hc].
  destruct Hc as [E|[]]. injection E as -> ->.
  unfold scanSpecies in Hin.
  destruct (speciesSection rows) as [ds|]; [|destruct Hin].
  assert (H := speciesLoop_countsFrom ds ds
                 {| stMeta := []; stMetaSeen := []; stEffort := scanEffort rows;
                    stCounts := [] |} (incl_refl ds)).
  destruct (H (fun _ _ (Hf : In _ []) => match Hf with end) name m Hin y c Eg)
    as (d & Hd & Hcount).
  now exists ds, d.
Qed.

Lemma speciesTable_counts_come_from_rows_witness :
  exists ds d,
    speciesSection [[js "COM_NAME"; js "CountYear"];
                    [js "Snow Goose"; js "2004 [105]"; js "7"]] = Some ds
    /\ In d ds /\ CountOf d (js "Snow Goose") 2004 7.
Proof.
  apply (speciesTable_counts_come_from_rows asciiToLowerCase
           [[js "COM_NAME"; js "CountYear"];
            [js "Snow Goose"; js "2004 [105]"; js "7"]]
           {| Species.Species := js "Snow Goose"; Species.counts := [(2004, 7)] |}).
  - vm_compute. left. reflexivity.
  - left. reflexivity.
Defined.
